(** * web_scraper: fetch-with-fallback and content classification

    A shallow embedding of [web_scraper/src/scraper.py] (class [WebScraper]).
    Python rebinds a method name at each [def]: of the duplicated
    definitions in the class body the last one is the method that runs, and
    it is the one embedded here ([_get_page_with_requests] of line 318,
    [_get_page_with_playwright] of line 445, [extract_article_content] of
    line 609). *)

From Stdlib Require Import List NArith Bool Arith Lia String Ascii.
From Stdlib Require Import Permutation.
Import ListNotations.

Set Implicit Arguments.

(** ** Python strings

    A Python [str] is a sequence of Unicode code points; [len] counts code
    points, so the Devanagari markers of the classifier are written as code
    point lists. *)

Module PyStr.

Definition char := N.
Definition str := list char.

(** An ASCII literal of the source. *)
Definition lit (s : string) : str := map N_of_ascii (list_ascii_of_string s).

Definition len (s : str) : nat := List.length s.

Fixpoint str_eqb (a b : str) : bool :=
  match a, b with
  | [], [] => true
  | x :: a', y :: b' => N.eqb x y && str_eqb a' b'
  | _, _ => false
  end.

(** [x in l] for a list of strings. *)
Definition mem (x : str) (l : list str) : bool := existsb (str_eqb x) l.

Fixpoint startswith (p s : str) : bool :=
  match p, s with
  | [], _ => true
  | x :: p', y :: s' => N.eqb x y && startswith p' s'
  | _ :: _, [] => false
  end.

(** [needle in hay] for strings: substring test. *)
Fixpoint contains (needle hay : str) : bool :=
  startswith needle hay ||
  match hay with
  | [] => false
  | _ :: hay' => contains needle hay'
  end.

(** [any(m in text for m in markers)]. *)
Definition any_in (markers : list str) (text : str) : bool :=
  existsb (fun m => contains m text) markers.

(** [str.isspace] on one code point, the table of CPython's
    [_PyUnicode_IsWhitespace]; the same predicate decides [\s] of [re]
    on [str] patterns, [str.strip()] and [str.split()]. *)
Definition isspace (c : char) : bool :=
  ((9 <=? c) && (c <=? 13) || (28 <=? c) && (c <=? 32) ||
   (c =? 133) || (c =? 160) || (c =? 5760) ||
   (8192 <=? c) && (c <=? 8202) || (c =? 8232) || (c =? 8233) ||
   (c =? 8239) || (c =? 8287) || (c =? 12288))%N.

Definition SP : char := 32%N.

(** [re.sub(r'\s+', ' ', text)]: every maximal run of whitespace becomes one
    space; [in_run] tells that the previous character was whitespace. *)
Fixpoint re_sub_ws (in_run : bool) (s : str) : str :=
  match s with
  | [] => []
  | c :: r =>
      if isspace c
      then if in_run then re_sub_ws true r else SP :: re_sub_ws true r
      else c :: re_sub_ws false r
  end.

Fixpoint lstrip (s : str) : str :=
  match s with
  | [] => []
  | c :: r => if isspace c then lstrip r else s
  end.

Fixpoint rstrip (s : str) : str :=
  match s with
  | [] => []
  | c :: r =>
      match rstrip r with
      | [] => if isspace c then [] else [c]
      | r' => c :: r'
      end
  end.

(** [s.strip()] *)
Definition strip (s : str) : str := rstrip (lstrip s).

Definition flush (w : str) : list str :=
  match w with [] => [] | _ => [w] end.

(** [s.split()]: the maximal runs of non-whitespace; [w] is the word being
    read. *)
Fixpoint split_from (w : str) (s : str) : list str :=
  match s with
  | [] => flush w
  | c :: r =>
      if isspace c then flush w ++ split_from [] r
      else split_from (w ++ [c]) r
  end.

Definition split (s : str) : list str := split_from [] s.

(** [sep.join(parts)] *)
Fixpoint join (sep : str) (parts : list str) : str :=
  match parts with
  | [] => []
  | x :: r =>
      match r with
      | [] => x
      | _ :: _ => x ++ sep ++ join sep r
      end
  end.

(** [clean_text]; the argument is [None] when the caller passes Python's
    [None], the other falsy value of the guard [if not text]. *)
Definition clean_text (text : option str) : str :=
  match text with
  | None => []
  | Some [] => []
  | Some t => join [SP] (split (strip (re_sub_ws false t)))
  end.

(** A word: non-empty and free of whitespace. *)
Definition word (w : str) : Prop :=
  w <> [] /\ Forall (fun c => isspace c = false) w.

(** *** Lemmas on the string primitives *)

Lemma str_eqb_eq (a b : str) : str_eqb a b = true <-> a = b.
Proof.
  revert b; induction a as [|x a IH]; intros [|y b]; simpl; split;
    try congruence; try reflexivity.
  - rewrite andb_true_iff, N.eqb_eq, IH. intros [-> ->]; reflexivity.
  - intros E; injection E as -> ->.
    rewrite N.eqb_refl; simpl; apply IH; reflexivity.
Qed.

Lemma str_eqb_refl (a : str) : str_eqb a a = true.
Proof. apply str_eqb_eq; reflexivity. Qed.

Lemma mem_In (x : str) (l : list str) : mem x l = true <-> In x l.
Proof.
  unfold mem; rewrite existsb_exists; split.
  - intros [y [Hy E]]. apply str_eqb_eq in E; subst; assumption.
  - intros H; exists x; split; [assumption | apply str_eqb_refl].
Qed.

Lemma mem_false_In (x : str) (l : list str) : mem x l = false <-> ~ In x l.
Proof.
  rewrite <- mem_In. destruct (mem x l); split; intros; congruence.
Qed.

Lemma isspace_SP : isspace SP = true.
Proof. reflexivity. Qed.

Lemma flush_word (w : str) : w <> [] -> flush w = [w].
Proof. destruct w; [congruence | reflexivity]. Qed.

Lemma split_from_words (s w : str) :
  Forall (fun c => isspace c = false) w ->
  Forall word (split_from w s).
Proof.
  revert w; induction s as [|c r IH]; intros w Hw; simpl.
  - destruct w; simpl; constructor; [|constructor].
    split; [discriminate | assumption].
  - destruct (isspace c) eqn:Ec.
    + apply Forall_app; split; [|apply IH; constructor].
      destruct w; simpl; constructor; [|constructor].
      split; [discriminate | assumption].
    + apply IH. apply Forall_app; split; [assumption|].
      constructor; [assumption | constructor].
Qed.

Lemma split_words (s : str) : Forall word (split s).
Proof. apply split_from_words; constructor. Qed.

(** Reading a whitespace-free prefix [u] only extends the current word. *)
Lemma split_from_app (u w rest : str) :
  Forall (fun c => isspace c = false) u ->
  split_from w (u ++ rest) = split_from (w ++ u) rest.
Proof.
  revert w; induction u as [|c u IH]; intros w Hu; simpl.
  - rewrite app_nil_r; reflexivity.
  - inversion Hu as [|? ? Hc Hu']; subst. rewrite Hc.
    rewrite IH by assumption. rewrite <- app_assoc; reflexivity.
Qed.

Lemma split_from_SP (w rest : str) :
  split_from w (SP :: rest) = flush w ++ split_from [] rest.
Proof. reflexivity. Qed.

Lemma split_join (ws : list str) :
  Forall word ws -> split (join [SP] ws) = ws.
Proof.
  unfold split. induction ws as [|x r IH]; intros H; [reflexivity|].
  inversion H as [|? ? [Hne Hx] Hr]; subst.
  destruct r as [|y r'].
  - simpl. rewrite <- (app_nil_r x) at 1.
    rewrite split_from_app by assumption. simpl. apply flush_word; assumption.
  - change (join [SP] (x :: y :: r')) with (x ++ SP :: join [SP] (y :: r')).
    rewrite split_from_app by assumption.
    rewrite split_from_SP, app_nil_l, flush_word by assumption.
    rewrite IH by assumption. reflexivity.
Qed.

Lemma re_sub_ws_app (u rest : str) (b : bool) :
  u <> [] -> Forall (fun c => isspace c = false) u ->
  re_sub_ws b (u ++ rest) = u ++ re_sub_ws false rest.
Proof.
  revert b; induction u as [|c u IH]; intros b Hne Hu; [congruence|].
  inversion Hu as [|? ? Hc Hu']; subst. simpl. rewrite Hc. f_equal.
  destruct u as [|d u']; [reflexivity|].
  apply IH; [discriminate | assumption].
Qed.

Lemma re_sub_ws_word (u : str) (b : bool) :
  Forall (fun c => isspace c = false) u -> re_sub_ws b u = u.
Proof.
  revert b; induction u as [|c u IH]; intros b Hu; [reflexivity|].
  inversion Hu as [|? ? Hc Hu']; subst. simpl. rewrite Hc, IH by assumption.
  reflexivity.
Qed.

Lemma join_word_head (x : str) (r : list str) :
  word x -> exists c t, join [SP] (x :: r) = c :: t /\ isspace c = false.
Proof.
  intros [Hne Hx]. destruct x as [|c x']; [congruence|].
  inversion Hx; subst. destruct r; simpl; eauto.
Qed.

Lemma re_sub_ws_join (ws : list str) :
  Forall word ws -> re_sub_ws false (join [SP] ws) = join [SP] ws.
Proof.
  induction ws as [|x r IH]; intros H; [reflexivity|].
  inversion H as [|? ? Hw Hr]; subst. destruct Hw as [Hne Hx].
  destruct r as [|y r'].
  - simpl. apply re_sub_ws_word; assumption.
  - change (join [SP] (x :: y :: r')) with (x ++ SP :: join [SP] (y :: r')).
    rewrite re_sub_ws_app by assumption. f_equal.
    specialize (IH Hr). inversion Hr as [|? ? Hy _]; subst.
    destruct (join_word_head r' Hy) as [c [t [E Hc]]].
    rewrite E in *. simpl in *. rewrite Hc in *. rewrite IH. reflexivity.
Qed.

Lemma lstrip_join (ws : list str) :
  Forall word ws -> lstrip (join [SP] ws) = join [SP] ws.
Proof.
  intros H. destruct ws as [|x r]; [reflexivity|].
  inversion H as [|? ? Hw _]; subst.
  destruct (join_word_head r Hw) as [c [t [E Hc]]].
  rewrite E. simpl. rewrite Hc. reflexivity.
Qed.

Lemma rstrip_app_word (u pre : str) :
  u <> [] -> Forall (fun c => isspace c = false) u ->
  rstrip (pre ++ u) = pre ++ u.
Proof.
  intros Hne Hu. induction pre as [|c pre IH]; simpl.
  - clear Hne. induction u as [|c u IH]; [reflexivity|].
    inversion Hu as [|? ? Hc Hu']; subst. simpl. rewrite IH by assumption.
    destruct u; [rewrite Hc|]; reflexivity.
  - rewrite IH. destruct (pre ++ u) eqn:E; [|reflexivity].
    apply app_eq_nil in E. destruct E; congruence.
Qed.

Lemma join_last (ws : list str) :
  Forall word ws -> ws <> [] ->
  exists pre u, join [SP] ws = pre ++ u /\ word u.
Proof.
  induction ws as [|x r IH]; intros H Hne; [congruence|].
  inversion H as [|? ? Hw Hr]; subst.
  destruct r as [|y r'].
  - exists [], x; split; [reflexivity | assumption].
  - destruct (IH Hr) as [pre [u [E Hu]]]; [discriminate|].
    exists (x ++ [SP] ++ pre), u; split; [|assumption].
    change (join [SP] (x :: y :: r')) with (x ++ [SP] ++ join [SP] (y :: r')).
    rewrite E, !app_assoc; reflexivity.
Qed.

Lemma rstrip_join (ws : list str) :
  Forall word ws -> rstrip (join [SP] ws) = join [SP] ws.
Proof.
  intros H. destruct ws as [|x r]; [reflexivity|].
  destruct (join_last H) as [pre [u [E [Hne Hu]]]]; [discriminate|].
  rewrite E. apply rstrip_app_word; assumption.
Qed.

Lemma strip_join (ws : list str) :
  Forall word ws -> strip (join [SP] ws) = join [SP] ws.
Proof.
  intros H. unfold strip. rewrite lstrip_join by assumption.
  apply rstrip_join; assumption.
Qed.

(** The result of [clean_text] is the single-space join of its words. *)
Lemma clean_text_words (text : option str) :
  exists ws, Forall word ws /\ clean_text text = join [SP] ws.
Proof.
  destruct text as [[|c t]|]; try (exists []; split; [constructor | reflexivity]).
  exists (split (strip (re_sub_ws false (c :: t)))); split;
    [apply split_words | reflexivity].
Qed.

Lemma clean_text_join (ws : list str) :
  Forall word ws -> clean_text (Some (join [SP] ws)) = join [SP] ws.
Proof.
  intros H. unfold clean_text. destruct (join [SP] ws) eqn:E; [reflexivity|].
  rewrite <- E. rewrite re_sub_ws_join, strip_join, split_join by assumption.
  reflexivity.
Qed.

Lemma clean_text_idem (text : option str) :
  clean_text (Some (clean_text text)) = clean_text text.
Proof.
  destruct (clean_text_words text) as [ws [H ->]]. apply clean_text_join, H.
Qed.

(** A text of whitespace only is cleaned to the empty string. *)
Lemma lstrip_head (t : str) (c : char) (r : str) :
  lstrip t = c :: r -> isspace c = false.
Proof.
  induction t as [|d t IH]; simpl; [discriminate|].
  destruct (isspace d) eqn:E; [exact IH|].
  intros H; injection H as -> _; exact E.
Qed.

Lemma lstrip_nil (t : str) :
  lstrip t = [] -> Forall (fun c => isspace c = true) t.
Proof.
  induction t as [|d t IH]; simpl; [constructor|].
  destruct (isspace d) eqn:E; [|discriminate].
  intros H; constructor; auto.
Qed.

Lemma rstrip_nil_head (c : char) (r : str) :
  rstrip (c :: r) = [] -> isspace c = true.
Proof.
  simpl. destruct (rstrip r); [|discriminate].
  destruct (isspace c); [reflexivity | discriminate].
Qed.

Lemma strip_nil (t : str) :
  strip t = [] -> Forall (fun c => isspace c = true) t.
Proof.
  unfold strip. intros H. apply lstrip_nil.
  destruct (lstrip t) as [|c r] eqn:E; [reflexivity|].
  apply lstrip_head in E. apply rstrip_nil_head in H. congruence.
Qed.

Lemma re_sub_ws_blank (t : str) :
  Forall (fun c => isspace c = true) t -> re_sub_ws true t = [].
Proof.
  induction 1 as [|c t Hc _ IH]; simpl; [reflexivity|].
  rewrite Hc; exact IH.
Qed.

Lemma clean_text_blank (t : str) :
  strip t = [] -> clean_text (Some t) = [].
Proof.
  intros H. apply strip_nil in H. destruct H as [|c t Hc Ht]; [reflexivity|].
  unfold clean_text. simpl re_sub_ws. rewrite Hc, re_sub_ws_blank by assumption.
  reflexivity.
Qed.

Lemma contains_app_l (needle pre hay : str) :
  contains needle hay = true -> contains needle (pre ++ hay) = true.
Proof.
  intros H. induction pre as [|c pre IH]; [assumption|].
  simpl. rewrite IH. apply orb_true_r.
Qed.

End PyStr.

(** ** Parsed documents

    What the code reads of a BeautifulSoup tree: elements with a name,
    attributes and children, and the text nodes between them.  The
    [BeautifulSoup] object itself is the root element named [[document]]. *)

Module Dom.
Import PyStr.

#[warnings="-register-all"]
Inductive node : Type :=
| Text (s : str)
| Elem (name : str) (attrs : list (str * str)) (children : list node).

Definition soup := node.

Definition document (children : list node) : soup :=
  Elem (lit "[document]") [] children.

(** [tag.descendants]: every node below [n], in document order. *)
Fixpoint descendants (n : node) : list node :=
  match n with
  | Text _ => []
  | Elem _ _ kids => flat_map (fun k => k :: descendants k) kids
  end.

(** [tag.get_text()] and [tag.text]: the text nodes below, concatenated. *)
Fixpoint get_text (n : node) : str :=
  match n with
  | Text s => s
  | Elem _ _ kids => flat_map get_text kids
  end.

Definition is_tag (n : node) : bool :=
  match n with Text _ => false | Elem _ _ _ => true end.

(** [elem.name in names] *)
Definition name_in (names : list str) (n : node) : bool :=
  match n with
  | Text _ => false
  | Elem nm _ _ => mem nm names
  end.

(** [tag.find_all([...names])] *)
Definition find_all (names : list str) (n : node) : list node :=
  filter (name_in names) (descendants n).

(** [tag.find_all(True)]: every element below. *)
Definition find_all_tags (n : node) : list node :=
  filter is_tag (descendants n).

(** [tag.find(name)] *)
Definition find (name : str) (n : node) : option node :=
  hd_error (find_all [name] n).

Fixpoint get_attr (key : str) (attrs : list (str * str)) : option str :=
  match attrs with
  | [] => None
  | (k, v) :: r => if str_eqb k key then Some v else get_attr key r
  end.

Definition attr (key : str) (n : node) : option str :=
  match n with
  | Text _ => None
  | Elem _ attrs _ => get_attr key attrs
  end.

(** The class tokens of an element (the parser splits the attribute on
    whitespace). *)
Definition classes (n : node) : list str :=
  match attr (lit "class") n with
  | None => []
  | Some v => split v
  end.

(** The CSS selectors the code passes to [select_one]: a tag name, alone
    or with one class ([div.content]) or one id ([div#content]). *)
Inductive selector : Type :=
| SelTag (tag : str)
| SelClass (tag cls : str)
| SelId (tag id : str).

Definition matches (sel : selector) (n : node) : bool :=
  match sel with
  | SelTag t => name_in [t] n
  | SelClass t c => name_in [t] n && mem c (classes n)
  | SelId t i =>
      name_in [t] n &&
      match attr (lit "id") n with
      | Some v => str_eqb v i
      | None => false
      end
  end.

(** [soup.select_one(selector)] *)
Definition select_one (sel : selector) (n : node) : option node :=
  hd_error (filter (matches sel) (descendants n)).

(** [tag.string]: the single text below a chain of only children. *)
Fixpoint node_string (n : node) : option str :=
  match n with
  | Text s => Some s
  | Elem _ _ kids =>
      match kids with
      | [k] => node_string k
      | _ => None
      end
  end.

(** [soup.find('meta', attrs={key: value})] *)
Definition find_meta (key value : str) (n : node) : option node :=
  hd_error
    (filter (fun m => match attr key m with
                      | Some v => str_eqb v value
                      | None => false
                      end)
            (find_all [lit "meta"] n)).

End Dom.

(** ** The Python runtime and the libraries below the code *)

Module Runtime.
Import PyStr Dom.

(** Behaviour the code takes from CPython, [re] and BeautifulSoup; the
    development is parametric in it. *)
Record runtime : Type := {
  (** [str.lower()] *)
  lower : str -> str;
  (** under [re.IGNORECASE], does pattern character [p] match text
      character [c] *)
  re_ieq : char -> char -> bool;
  (** [BeautifulSoup(content, 'html.parser')]; [None] when the constructor
      raises, as it does on markup that [html.parser] rejects *)
  html_parser : str -> option soup;
  (** [str(soup)] *)
  soup_str : soup -> str;
  (** the visit of the specialised extractor's walk at which the DOM
      library raises an unexpected error, [None] when it raises nowhere *)
  dom_fault : option nat
}.

(** Lower-casing of the ASCII letters, which is [str.lower] on every string
    whose other code points are caseless (ASCII punctuation, Devanagari). *)
Definition ascii_lower_char (c : char) : char :=
  if ((65 <=? c) && (c <=? 90))%N then (c + 32)%N else c.

Definition ascii_lower (s : str) : str := map ascii_lower_char s.

Definition ascii_ieq (p c : char) : bool :=
  N.eqb (ascii_lower_char p) (ascii_lower_char c).

(** The parse of a content without markup: a document of one text node. *)
Definition text_document (content : str) : soup := document [Text content].

(** The markup of a tree, without entity escapes. *)
Fixpoint serialize (n : node) : str :=
  match n with
  | Text s => s
  | Elem name attrs kids =>
      let inner := flat_map serialize kids in
      if str_eqb name (lit "[document]") then inner
      else
        lit "<" ++ name ++
        flat_map (fun kv => lit " " ++ fst kv ++ lit "='" ++ snd kv ++ lit "'")
                 attrs ++
        lit ">" ++ inner ++ lit "</" ++ name ++ lit ">"
  end.

(** A runtime for the closed examples: it agrees with CPython and
    BeautifulSoup on their inputs, which are ASCII or Devanagari text and
    either trees given directly or contents without markup. *)
Definition reference : runtime :=
  {| lower := ascii_lower;
     re_ieq := ascii_ieq;
     html_parser := fun content => Some (text_document content);
     soup_str := serialize;
     dom_fault := None |}.

End Runtime.

(** ** Fetching: the three adapters and the orchestrator [get_page] *)

Module Fetch.
Import PyStr Dom Runtime.

(** The exception classes the handlers of the code tell apart:
    [except requests.exceptions.RequestException] catches the first only,
    [except Exception] catches both. *)
Inductive exn : Type :=
| RequestException
| OtherException.

Inductive adapter : Type := BrowserRender | HttpFetch | ProxyRender.

(** What one navigation of the browser page does: [goto],
    [wait_for_load_state] or [evaluate] raises; or [page.content()] raises
    after the two-second pause; or the rendered HTML is read.  (A timeout of
    [wait_for_selector] is caught on the spot and changes nothing.) *)
Inductive render : Type :=
| NavRaises (e : exn)
| ContentRaises (e : exn)
| Rendered (html : str).

(** What one [session.get] followed by [raise_for_status] does. *)
Inductive response : Type :=
| Raises (e : exn)
| Body (text : str).

(** The world outside: the n-th navigation, the n-th GET of the page, the
    n-th call of the rendering service, the debug sink of the adapters and
    the one of [scrape_example] ([None]: the file was written). *)
Record world : Type := {
  browser_render : nat -> render;
  http_get : nat -> response;
  bee_get : nat -> response;
  save_debug : adapter -> str -> option exn;
  save_page_source : str -> option exn
}.

(** What a mock clock, session and browser record. *)
Inductive event : Type :=
| Sleep (secs : nat)
| Goto
| Get (user_agent : str)
| BeeGet
| Saved (k : adapter)
| SavedPage.

Record state : Type := {
  browser_calls : nat;
  http_calls : nat;
  bee_calls : nat;
  trace : list event
}.

Definition init : state :=
  {| browser_calls := 0; http_calls := 0; bee_calls := 0; trace := [] |}.

Definition emit (ev : event) (s : state) : state :=
  {| browser_calls := browser_calls s; http_calls := http_calls s;
     bee_calls := bee_calls s; trace := trace s ++ [ev] |}.

(** *** A state monad with exceptions *)

Inductive outcome (A : Type) : Type :=
| Ret (a : A)
| Raise (e : exn).
Arguments Ret {A} a.
Arguments Raise {A} e.

Definition M (A : Type) : Type := state -> outcome A * state.

Definition ret {A} (a : A) : M A := fun s => (Ret a, s).
Definition raise {A} (e : exn) : M A := fun s => (Raise e, s).

Definition bind {A B} (m : M A) (k : A -> M B) : M B :=
  fun s =>
    match m s with
    | (Ret a, s') => k a s'
    | (Raise e, s') => (Raise e, s')
    end.

Notation "x <- m ;; k" := (bind m (fun x => k))
  (at level 61, m at next level, right associativity).
Notation "m ;;; k" := (bind m (fun _ => k))
  (at level 61, right associativity).

(** [try: m except Exception: h] *)
Definition try_except {A} (m : M A) (h : M A) : M A :=
  fun s =>
    match m s with
    | (Ret a, s') => (Ret a, s')
    | (Raise _, s') => h s'
    end.

(** [try: m except requests.exceptions.RequestException: h] *)
Definition try_except_request {A} (m : M A) (h : M A) : M A :=
  fun s =>
    match m s with
    | (Ret a, s') => (Ret a, s')
    | (Raise RequestException, s') => h s'
    | (Raise OtherException, s') => (Raise OtherException, s')
    end.

(** The body of a [for] loop either returns from the function or goes on
    with the next iteration ([continue], or its end). *)
Inductive ctl (R : Type) : Type :=
| Return (r : R)
| Next.
Arguments Return {R} r.
Arguments Next {R}.

(** [for attempt in attempts: body(attempt)], then [after]. *)
Fixpoint for_each {R} (body : nat -> M (ctl R)) (attempts : list nat)
  (after : M R) : M R :=
  match attempts with
  | [] => after
  | k :: rest =>
      c <- body k ;;
      match c with
      | Return r => ret r
      | Next => for_each body rest after
      end
  end.

(** [range(n)] *)
Definition range (n : nat) : list nat := seq 0 n.

Definition log (ev : event) : M unit := fun s => (Ret tt, emit ev s).

(** [time.sleep(secs)] *)
Definition sleep (secs : nat) : M unit := log (Sleep secs).

Section Adapters.

Variable rt : runtime.
Variable w : world.

(** *** The effects of the adapters *)

Definition page_render : M str :=
  fun s =>
    let s1 := emit Goto
      {| browser_calls := S (browser_calls s); http_calls := http_calls s;
         bee_calls := bee_calls s; trace := trace s |} in
    match browser_render w (browser_calls s) with
    | NavRaises e => (Raise e, s1)
    | ContentRaises e => (Raise e, emit (Sleep 2) s1)
    | Rendered html => (Ret html, emit (Sleep 2) s1)
    end.

Definition session_get (user_agent : str) : M str :=
  fun s =>
    let s1 := emit (Get user_agent)
      {| browser_calls := browser_calls s; http_calls := S (http_calls s);
         bee_calls := bee_calls s; trace := trace s |} in
    match http_get w (http_calls s) with
    | Raises e => (Raise e, s1)
    | Body text => (Ret text, s1)
    end.

Definition session_get_bee : M str :=
  fun s =>
    let s1 := emit BeeGet
      {| browser_calls := browser_calls s; http_calls := http_calls s;
         bee_calls := S (bee_calls s); trace := trace s |} in
    match bee_get w (bee_calls s) with
    | Raises e => (Raise e, s1)
    | Body text => (Ret text, s1)
    end.

(** Writing [debug/page_source_<adapter>.html]. *)
Definition write_debug (k : adapter) (content : str) : M unit :=
  match save_debug w k content with
  | Some e => raise e
  | None => log (Saved k)
  end.

(** *** The acceptance checks *)

Definition blocklist : list str :=
  [lit "captcha"; lit "access denied"; lit "cloudflare"].

(** [any(term in content.lower() for term in [...])] *)
Definition blocked_raw (content : str) : bool :=
  any_in blocklist (lower rt content).

Fixpoint re_match_here (pat text : str) : bool :=
  match pat, text with
  | [], _ => true
  | p :: pat', c :: text' => re_ieq rt p c && re_match_here pat' text'
  | _ :: _, [] => false
  end.

Fixpoint re_search_lit (pat text : str) : bool :=
  re_match_here pat text ||
  match text with
  | [] => false
  | _ :: text' => re_search_lit pat text'
  end.

(** [re.compile(r'(?i)captcha|access denied|cloudflare').search(text)] *)
Definition re_search (text : str) : bool :=
  existsb (fun term => re_search_lit term text) blocklist.

(** [soup.find(string=re.compile(...))] finds a text node of the document
    that the pattern matches. *)
Definition blocked_parsed (doc : soup) : bool :=
  existsb (fun n => match n with
                    | Text s => re_search s
                    | Elem _ _ _ => false
                    end)
          (descendants doc).

(** *** The adapters *)

(** [BeautifulSoup(content, 'html.parser')] in an adapter: the error of the
    parser is none of [requests.exceptions]. *)
Definition parse (content : str) : M soup :=
  match html_parser rt content with
  | Some doc => ret doc
  | None => raise OtherException
  end.

Definition user_agents : list str :=
  [ lit "Mozilla/5.0 (Windows NT 10.0; Win64; x64) AppleWebKit/537.36 (KHTML, like Gecko) Chrome/120.0.0.0 Safari/537.36";
    lit "Mozilla/5.0 (Windows NT 10.0; Win64; x64; rv:109.0) Gecko/20100101 Firefox/119.0";
    lit "Mozilla/5.0 (Macintosh; Intel Mac OS X 10_15_7) AppleWebKit/537.36 (KHTML, like Gecko) Chrome/120.0.0.0 Safari/537.36";
    lit "Mozilla/5.0 (Windows NT 10.0; Win64; x64) AppleWebKit/537.36 (KHTML, like Gecko) Chrome/119.0.0.0 Safari/537.36 Edg/119.0.0.0";
    lit "Mozilla/5.0 (Windows NT 10.0; Win64; x64) AppleWebKit/537.36 (KHTML, like Gecko) Chrome/120.0.0.0 Safari/537.36 OPR/106.0.0.0" ].

(** One iteration of the loop of [_get_page_with_requests]. *)
Definition requests_attempt (max_retries attempt : nat)
  : M (ctl (option soup)) :=
  try_except_request
    (let current_ua :=
       nth (attempt mod List.length user_agents) user_agents [] in
     (if 0 <? attempt then sleep (2 ^ attempt) else ret tt) ;;;
     text <- session_get current_ua ;;
     if len text <? 1000 then ret Next
     else if blocked_raw text then ret Next
     else
       doc <- parse text ;;
       if blocked_parsed doc then ret Next
       else
         write_debug HttpFetch text ;;;
         ret (Return (Some doc)))
    (if attempt =? max_retries - 1 then ret (Return None) else ret Next).

Definition _get_page_with_requests (max_retries : nat) : M (option soup) :=
  for_each (requests_attempt max_retries) (range max_retries) (ret None).

(** The instance's configuration: [use_playwright], whether [self.page] is
    set, [use_scrapingbee], and [scrapingbee_api_key]. *)
Record config : Type := {
  use_playwright : bool;
  page : bool;
  use_scrapingbee : bool;
  scrapingbee_api_key : option str
}.

Variable cfg : config.

(** Truth value of [self.scrapingbee_api_key]. *)
Definition has_key : bool :=
  match scrapingbee_api_key cfg with
  | Some (_ :: _) => true
  | _ => false
  end.

(** One iteration of the loop of [_get_page_with_scrapingbee]. *)
Definition scrapingbee_attempt (max_retries attempt : nat)
  : M (ctl (option soup)) :=
  try_except
    ((if 0 <? attempt then sleep (2 ^ attempt) else ret tt) ;;;
     text <- session_get_bee ;;
     if len text <? 1000 then ret Next
     else if blocked_raw text then ret Next
     else
       write_debug ProxyRender text ;;;
       doc <- parse text ;;
       ret (Return (Some doc)))
    (ret Next).

Definition _get_page_with_scrapingbee (max_retries : nat) : M (option soup) :=
  if negb (use_scrapingbee cfg) || negb has_key then ret None
  else for_each (scrapingbee_attempt max_retries) (range max_retries)
         (ret None).

(** One iteration of the loop of [_get_page_with_playwright]. *)
Definition playwright_attempt (max_retries attempt : nat)
  : M (ctl (option soup)) :=
  try_except
    (content <- page_render ;;
     write_debug BrowserRender content ;;;
     if len content <? 1000 then ret Next
     else if blocked_raw content then ret Next
     else
       doc <- parse content ;;
       if blocked_parsed doc then ret Next
       else ret (Return (Some doc)))
    (if attempt =? max_retries - 1
     then r <- _get_page_with_requests max_retries ;; ret (Return r)
     else sleep (2 ^ attempt) ;;; ret Next).

Definition _get_page_with_playwright (max_retries : nat) : M (option soup) :=
  if negb (use_playwright cfg) || negb (page cfg) then ret None
  else for_each (playwright_attempt max_retries) (range max_retries)
         (ret None).

(** A [BeautifulSoup] object is true whatever it holds, so [if result:]
    tests that a page was returned. *)
Definition get_page (max_retries : nat) : M (option soup) :=
  r1 <- (if use_playwright cfg && page cfg
         then _get_page_with_playwright max_retries
         else ret None) ;;
  match r1 with
  | Some doc => ret (Some doc)
  | None =>
      r2 <- _get_page_with_requests max_retries ;;
      match r2 with
      | Some doc => ret (Some doc)
      | None =>
          if use_scrapingbee cfg && has_key
          then _get_page_with_scrapingbee max_retries
          else ret None
      end
  end.

End Adapters.

(** *** The acceptance decision of each adapter

    The gate as the specification words it: length, blocklist on the
    lower-cased content, blocklist on the text of the parsed document. *)

Section Analysis.

Variable rt : runtime.

Definition accepts_full (text : str) : bool :=
  (1000 <=? len text) && negb (blocked_raw rt text) &&
  match html_parser rt text with
  | Some doc => negb (blocked_parsed rt doc)
  | None => false
  end.

(** The gate without the scan of the parsed document. *)
Definition accepts_raw (text : str) : bool :=
  (1000 <=? len text) && negb (blocked_raw rt text).

(** [BeautifulSoup] accepts the markup. *)
Definition parses (text : str) : bool :=
  match html_parser rt text with
  | Some _ => true
  | None => false
  end.

(** What the HTTP and the browser adapter make of a content: a check fails
    and the loop goes on; or the checks on the raw content pass and the
    parser raises; or the page passes every check. *)
Inductive verdict : Type :=
| Rejected
| Unparsable
| Accepted (doc : soup).

Definition full_verdict (text : str) : verdict :=
  if accepts_raw text
  then match html_parser rt text with
       | None => Unparsable
       | Some doc => if blocked_parsed rt doc then Rejected else Accepted doc
       end
  else Rejected.

(** A world in which every adapter is handed the same page and the debug
    sink works. *)
Definition serving (text : str) : world :=
  {| browser_render := fun _ => Rendered text;
     http_get := fun _ => Body text;
     bee_get := fun _ => Body text;
     save_debug := fun _ _ => None;
     save_page_source := fun _ => None |}.

Definition accepted (r : outcome (ctl (option soup)) * state) : bool :=
  match fst r with
  | Ret (Return (Some _)) => true
  | _ => false
  end.

(** The decision each adapter takes on a page: what one attempt of its loop
    does when it is handed that page. *)
Definition http_decision (text : str) : bool :=
  accepted (requests_attempt rt (serving text) 1 0 init).

Definition browser_decision (text : str) : bool :=
  accepted (playwright_attempt rt (serving text) 1 0 init).

Definition proxy_decision (text : str) : bool :=
  accepted (scrapingbee_attempt rt (serving text) 1 0 init).

Lemma accepts_full_verdict (text : str) :
  accepts_full text =
  match full_verdict text with
  | Accepted _ => true
  | _ => false
  end.
Proof.
  unfold accepts_full, full_verdict, accepts_raw.
  destruct ((1000 <=? len text) && negb (blocked_raw rt text));
    [|reflexivity].
  destruct (html_parser rt text) as [doc|]; [|reflexivity].
  destruct (blocked_parsed rt doc); reflexivity.
Qed.

Lemma full_verdict_accepted (text : str) (doc : soup) :
  full_verdict text = Accepted doc ->
  accepts_raw text = true /\ html_parser rt text = Some doc /\
  blocked_parsed rt doc = false.
Proof.
  unfold full_verdict. destruct (accepts_raw text); [|discriminate].
  destruct (html_parser rt text) as [d|]; [|discriminate].
  destruct (blocked_parsed rt d) eqn:E; [discriminate|].
  intros H. injection H as <-. auto.
Qed.

(** *** One attempt of each adapter, case by case *)

Variable w : world.

(** The state after one more call of an adapter that recorded [evs]. *)
Definition st_http (s : state) (evs : list event) : state :=
  {| browser_calls := browser_calls s; http_calls := S (http_calls s);
     bee_calls := bee_calls s; trace := trace s ++ evs |}.

Definition st_bee (s : state) (evs : list event) : state :=
  {| browser_calls := browser_calls s; http_calls := http_calls s;
     bee_calls := S (bee_calls s); trace := trace s ++ evs |}.

Definition st_browser (s : state) (evs : list event) : state :=
  {| browser_calls := S (browser_calls s); http_calls := http_calls s;
     bee_calls := bee_calls s; trace := trace s ++ evs |}.

(** [self.user_agents[attempt % len(self.user_agents)]] *)
Definition agent_of (attempt : nat) : str :=
  nth (attempt mod List.length user_agents) user_agents [].

(** The wait before attempt [a] of the HTTP and proxy adapters. *)
Definition backoff_before (a : nat) : list event :=
  if 0 <? a then [Sleep (2 ^ a)] else [].

Definition http_events (a : nat) : list event :=
  backoff_before a ++ [Get (agent_of a)].

(** What attempt [a] of the proxy adapter records when it is the [i]-th
    request of the rendering service: the debug copy is written before the
    response is parsed. *)
Definition bee_events (a i : nat) : list event :=
  backoff_before a ++
  BeeGet ::
  match bee_get w i with
  | Raises _ => []
  | Body t =>
      if accepts_raw t
      then match save_debug w ProxyRender t with
           | None => [Saved ProxyRender]
           | Some _ => []
           end
      else []
  end.

(** What the handler of the HTTP adapter does with a caught error. *)
Definition request_handler (m a : nat) : ctl (option soup) :=
  if a =? m - 1 then Return None else Next.

Lemma requests_attempt_step (m a : nat) (s : state) :
  requests_attempt rt w m a s =
  let s2 := st_http s (http_events a) in
  match http_get w (http_calls s) with
  | Raises RequestException => (Ret (request_handler m a), s2)
  | Raises OtherException => (Raise OtherException, s2)
  | Body t =>
      match full_verdict t with
      | Rejected => (Ret Next, s2)
      | Unparsable => (Raise OtherException, s2)
      | Accepted doc =>
          match save_debug w HttpFetch t with
          | None => (Ret (Return (Some doc)), emit (Saved HttpFetch) s2)
          | Some RequestException => (Ret (request_handler m a), s2)
          | Some OtherException => (Raise OtherException, s2)
          end
      end
  end.
Proof.
  unfold full_verdict, accepts_raw.
  cbv [requests_attempt try_except_request bind session_get parse
       write_debug sleep log ret raise http_events backoff_before st_http
       emit agent_of request_handler browser_calls http_calls bee_calls
       trace].
  destruct s as [bc hc ec tr].
  destruct (0 <? a); cbv beta iota;
    (destruct (http_get w hc) as [[|]|t]; [| |rewrite Nat.leb_antisym;
      destruct (len t <? 1000); cbv [negb andb];
      [|destruct (blocked_raw rt t); cbv [negb andb];
        [|destruct (html_parser rt t) as [doc|];
          [destruct (blocked_parsed rt doc);
           [|destruct (save_debug w HttpFetch t) as [[|]|]]|]]]]);
    cbv beta iota; rewrite <- ?app_assoc; try reflexivity;
    destruct (a =? m - 1); reflexivity.
Qed.

Lemma scrapingbee_attempt_step (m a : nat) (s : state) :
  scrapingbee_attempt rt w m a s =
  let s2 := st_bee s (bee_events a (bee_calls s)) in
  match bee_get w (bee_calls s) with
  | Raises _ => (Ret Next, s2)
  | Body t =>
      if accepts_raw t
      then match save_debug w ProxyRender t with
           | Some _ => (Ret Next, s2)
           | None =>
               match html_parser rt t with
               | Some doc => (Ret (Return (Some doc)), s2)
               | None => (Ret Next, s2)
               end
           end
      else (Ret Next, s2)
  end.
Proof.
  cbv [scrapingbee_attempt try_except bind session_get_bee parse write_debug
       sleep log ret raise bee_events backoff_before st_bee emit
       browser_calls http_calls bee_calls trace].
  unfold accepts_raw.
  destruct s as [bc hc ec tr].
  destruct (0 <? a); cbv beta iota;
    (destruct (bee_get w ec) as [e|t]; [|rewrite Nat.leb_antisym;
      destruct (len t <? 1000); cbv [negb andb];
      [|destruct (blocked_raw rt t); cbv [negb andb];
        [|destruct (save_debug w ProxyRender t) as [e|];
          [|destruct (html_parser rt t) as [doc|]]]]]);
    cbv beta iota; rewrite <- ?app_assoc; reflexivity.
Qed.

(** What the handler of the browser adapter does from the state [s'] in
    which the attempt raised: on the final attempt it hands over to the HTTP
    adapter, before that it waits [2 ** attempt] seconds. *)
Definition playwright_handler (m a : nat) : M (ctl (option soup)) :=
  if a =? m - 1
  then r <- _get_page_with_requests rt w m ;; ret (Return r)
  else sleep (2 ^ a) ;;; ret Next.

Lemma playwright_attempt_step (m a : nat) (s : state) :
  playwright_attempt rt w m a s =
  match browser_render w (browser_calls s) with
  | NavRaises _ => playwright_handler m a (st_browser s [Goto])
  | ContentRaises _ => playwright_handler m a (st_browser s [Goto; Sleep 2])
  | Rendered h =>
      match save_debug w BrowserRender h with
      | Some _ => playwright_handler m a (st_browser s [Goto; Sleep 2])
      | None =>
          let s2 := st_browser s [Goto; Sleep 2; Saved BrowserRender] in
          match full_verdict h with
          | Rejected => (Ret Next, s2)
          | Unparsable => playwright_handler m a s2
          | Accepted doc => (Ret (Return (Some doc)), s2)
          end
      end
  end.
Proof.
  unfold full_verdict, accepts_raw.
  cbv [playwright_attempt try_except bind page_render parse write_debug
       log ret raise st_browser emit playwright_handler
       browser_calls http_calls bee_calls trace].
  destruct s as [bc hc ec tr].
  destruct (browser_render w bc) as [e|e|h]; cbv beta iota;
    rewrite <- ?app_assoc; try reflexivity.
  destruct (save_debug w BrowserRender h) as [e|]; cbv beta iota;
    rewrite <- ?app_assoc; try reflexivity.
  rewrite Nat.leb_antisym.
  destruct (len h <? 1000); cbv [negb andb]; [reflexivity|].
  destruct (blocked_raw rt h); cbv [negb andb]; [reflexivity|].
  destruct (html_parser rt h) as [doc|]; cbv beta iota; [|reflexivity].
  destruct (blocked_parsed rt doc); reflexivity.
Qed.

(** *** Retries: a stub that fails [N] times and then succeeds *)

(** The waits a mock clock has recorded, and the User-Agent headers a mock
    session has seen. *)
Definition sleeps (tr : list event) : list nat :=
  flat_map (fun ev => match ev with Sleep n => [n] | _ => [] end) tr.

Definition agents (tr : list event) : list str :=
  flat_map (fun ev => match ev with Get u => [u] | _ => [] end) tr.

Definition bee_requests (tr : list event) : nat :=
  List.length (filter (fun ev => match ev with BeeGet => true | _ => false end)
                 tr).

Definition navigations (tr : list event) : nat :=
  List.length (filter (fun ev => match ev with Goto => true | _ => false end)
                 tr).

(** The [i]-th GET fails in a way the HTTP adapter retries: a
    [RequestException], or a page that a check rejects.  (Markup that the
    parser rejects is not retried: the error leaves the adapter.) *)
Definition http_retried (i : nat) : bool :=
  match http_get w i with
  | Raises RequestException => true
  | Raises OtherException => false
  | Body t =>
      match full_verdict t with
      | Rejected => true
      | Unparsable | Accepted _ => false
      end
  end.

Definition http_succeeds (i : nat) (t : str) (doc : soup) : Prop :=
  http_get w i = Body t /\ full_verdict t = Accepted doc /\
  save_debug w HttpFetch t = None.

(** The proxy adapter retries after every error, also the one of the
    parser. *)
Definition bee_retried (i : nat) : bool :=
  match bee_get w i with
  | Raises _ => true
  | Body t =>
      negb (accepts_raw t) ||
      match save_debug w ProxyRender t with
      | Some _ => true
      | None => negb (parses t)
      end
  end.

Definition bee_succeeds (i : nat) (t : str) (doc : soup) : Prop :=
  bee_get w i = Body t /\ accepts_raw t = true /\
  save_debug w ProxyRender t = None /\ html_parser rt t = Some doc.

(** So does the browser adapter. *)
Definition browser_retried (i : nat) : bool :=
  match browser_render w i with
  | NavRaises _ | ContentRaises _ => true
  | Rendered h =>
      match save_debug w BrowserRender h with
      | Some _ => true
      | None =>
          match full_verdict h with
          | Rejected | Unparsable => true
          | Accepted _ => false
          end
      end
  end.

Definition browser_succeeds (i : nat) (h : str) (doc : soup) : Prop :=
  browser_render w i = Rendered h /\ full_verdict h = Accepted doc /\
  save_debug w BrowserRender h = None.

(** What attempt [a] of the browser adapter records when it is the [i]-th
    navigation: the two-second pause once the page has loaded, and the wait
    of [2 ** a] seconds only after an attempt that raised. *)
Definition browser_events (a i : nat) : list event :=
  match browser_render w i with
  | NavRaises _ => [Goto; Sleep (2 ^ a)]
  | ContentRaises _ => [Goto; Sleep 2; Sleep (2 ^ a)]
  | Rendered h =>
      match save_debug w BrowserRender h with
      | Some _ => [Goto; Sleep 2; Sleep (2 ^ a)]
      | None =>
          match full_verdict h with
          | Unparsable => [Goto; Sleep 2; Saved BrowserRender; Sleep (2 ^ a)]
          | Rejected | Accepted _ => [Goto; Sleep 2; Saved BrowserRender]
          end
      end
  end.

Lemma flat_map_seq_S {A : Type} (f : nat -> list A) (n : nat) :
  flat_map f (seq 0 (S n)) = f 0 ++ flat_map (fun k => f (S k)) (seq 0 n).
Proof.
  simpl. f_equal.
  rewrite <- seq_shift, flat_map_concat_map, map_map, <- flat_map_concat_map.
  reflexivity.
Qed.

Lemma requests_attempt_retried (m a : nat) (s : state) :
  (a =? m - 1) = false ->
  http_retried (http_calls s) = true ->
  requests_attempt rt w m a s = (Ret Next, st_http s (http_events a)).
Proof.
  intros Ha H. rewrite requests_attempt_step. cbv zeta.
  unfold http_retried in H. unfold request_handler. rewrite Ha.
  destruct (http_get w (http_calls s)) as [[|]|t0];
    [reflexivity | discriminate |].
  destruct (full_verdict t0); [reflexivity | discriminate..].
Qed.

Lemma requests_attempt_succeeds (m a : nat) (s : state) (t : str)
  (doc : soup) :
  http_succeeds (http_calls s) t doc ->
  requests_attempt rt w m a s =
  (Ret (Return (Some doc)), emit (Saved HttpFetch) (st_http s (http_events a))).
Proof.
  intros [Hget [Hacc Hsave]]. rewrite requests_attempt_step. cbv zeta.
  rewrite Hget, Hacc, Hsave. reflexivity.
Qed.

Lemma requests_loop (m : nat) (t : str) (doc : soup) (N : nat) :
  forall a n s,
    a + n = m -> N < n ->
    (forall k, k < N -> http_retried (http_calls s + k) = true) ->
    http_succeeds (http_calls s + N) t doc ->
    for_each (requests_attempt rt w m) (seq a n) (ret None) s =
    (Ret (Some doc),
     {| browser_calls := browser_calls s;
        http_calls := http_calls s + S N;
        bee_calls := bee_calls s;
        trace := trace s ++ flat_map http_events (seq a (S N)) ++
                 [Saved HttpFetch] |}).
Proof.
  induction N as [|N IH]; intros a n s Hm Hn Hfail Hok;
    (destruct n as [|n]; [lia|]); simpl seq; simpl for_each;
    unfold bind at 1.
  - rewrite Nat.add_0_r in Hok.
    rewrite (@requests_attempt_succeeds m a s t doc Hok).
    unfold ret, emit, st_http; simpl. rewrite Nat.add_1_r, app_nil_r.
    rewrite <- app_assoc. reflexivity.
  - assert (Ha : (a =? m - 1) = false) by (apply Nat.eqb_neq; lia).
    assert (H0 := Hfail 0 ltac:(lia)). rewrite Nat.add_0_r in H0.
    rewrite (@requests_attempt_retried m a s Ha H0).
    rewrite (IH (S a) n (st_http s (http_events a))).
    + unfold st_http; simpl. f_equal. f_equal; [lia|].
      rewrite <- !app_assoc. reflexivity.
    + lia.
    + lia.
    + intros k Hk. simpl. specialize (Hfail (S k) ltac:(lia)).
      rewrite Nat.add_succ_r in Hfail. exact Hfail.
    + unfold http_succeeds in *. simpl.
      rewrite Nat.add_succ_r in Hok. exact Hok.
Qed.

Lemma scrapingbee_attempt_retried (m a : nat) (s : state) :
  bee_retried (bee_calls s) = true ->
  scrapingbee_attempt rt w m a s =
  (Ret Next, st_bee s (bee_events a (bee_calls s))).
Proof.
  intros H. rewrite scrapingbee_attempt_step. cbv zeta.
  unfold bee_retried, parses in H.
  destruct (bee_get w (bee_calls s)) as [e|t0]; [reflexivity|].
  destruct (accepts_raw t0); [|reflexivity].
  destruct (save_debug w ProxyRender t0); [reflexivity|].
  destruct (html_parser rt t0); [discriminate | reflexivity].
Qed.

Lemma scrapingbee_attempt_succeeds (m a : nat) (s : state) (t : str)
  (doc : soup) :
  bee_succeeds (bee_calls s) t doc ->
  scrapingbee_attempt rt w m a s =
  (Ret (Return (Some doc)), st_bee s (bee_events a (bee_calls s))).
Proof.
  intros [Hget [Hacc [Hsave Hparse]]]. rewrite scrapingbee_attempt_step.
  cbv zeta. rewrite Hget, Hacc, Hsave, Hparse. reflexivity.
Qed.

Lemma scrapingbee_loop (m : nat) (t : str) (doc : soup) (N : nat) :
  forall a n s,
    N < n ->
    (forall k, k < N -> bee_retried (bee_calls s + k) = true) ->
    bee_succeeds (bee_calls s + N) t doc ->
    for_each (scrapingbee_attempt rt w m) (seq a n) (ret None) s =
    (Ret (Some doc),
     {| browser_calls := browser_calls s;
        http_calls := http_calls s;
        bee_calls := bee_calls s + S N;
        trace := trace s ++
                 flat_map (fun k => bee_events (a + k) (bee_calls s + k))
                          (seq 0 (S N)) |}).
Proof.
  induction N as [|N IH]; intros a n s Hn Hfail Hok;
    (destruct n as [|n]; [lia|]); simpl seq; simpl for_each;
    unfold bind at 1.
  - rewrite Nat.add_0_r in Hok.
    rewrite (@scrapingbee_attempt_succeeds m a s t doc Hok).
    unfold ret, st_bee; simpl.
    rewrite !Nat.add_0_r, Nat.add_1_r, app_nil_r. reflexivity.
  - assert (H0 := Hfail 0 ltac:(lia)). rewrite Nat.add_0_r in H0.
    rewrite (@scrapingbee_attempt_retried m a s H0).
    rewrite (IH (S a) n (st_bee s (bee_events a (bee_calls s)))).
    + unfold st_bee; cbn [browser_calls http_calls bee_calls trace].
      change (0 :: 1 :: seq 2 N) with (seq 0 (S (S N))).
      rewrite (flat_map_seq_S
                 (fun k => bee_events (a + k) (bee_calls s + k))).
      rewrite !Nat.add_0_r, <- !app_assoc. f_equal. f_equal; [lia|].
      do 2 f_equal. apply flat_map_ext. intros k.
      rewrite !Nat.add_succ_r. reflexivity.
    + lia.
    + intros k Hk. simpl. specialize (Hfail (S k) ltac:(lia)).
      rewrite Nat.add_succ_r in Hfail. exact Hfail.
    + unfold bee_succeeds in *. simpl.
      rewrite Nat.add_succ_r in Hok. exact Hok.
Qed.

Lemma playwright_attempt_retried (m a : nat) (s : state) :
  (a =? m - 1) = false ->
  browser_retried (browser_calls s) = true ->
  playwright_attempt rt w m a s =
  (Ret Next, st_browser s (browser_events a (browser_calls s))).
Proof.
  intros Ha H. rewrite playwright_attempt_step.
  unfold browser_retried in H. unfold playwright_handler, browser_events.
  rewrite Ha.
  destruct (browser_render w (browser_calls s)) as [e|e|h0].
  - unfold bind, sleep, log, ret, emit, st_browser; simpl.
    rewrite <- app_assoc; reflexivity.
  - unfold bind, sleep, log, ret, emit, st_browser; simpl.
    rewrite <- app_assoc; reflexivity.
  - destruct (save_debug w BrowserRender h0).
    + unfold bind, sleep, log, ret, emit, st_browser; simpl.
      rewrite <- app_assoc; reflexivity.
    + cbv zeta. destruct (full_verdict h0); [reflexivity| |discriminate].
      unfold bind, sleep, log, ret, emit, st_browser; simpl.
      rewrite <- app_assoc; reflexivity.
Qed.

Lemma playwright_attempt_succeeds (m a : nat) (s : state) (h : str)
  (doc : soup) :
  browser_succeeds (browser_calls s) h doc ->
  playwright_attempt rt w m a s =
  (Ret (Return (Some doc)),
   st_browser s (browser_events a (browser_calls s))).
Proof.
  intros [Hget [Hacc Hsave]]. rewrite playwright_attempt_step.
  unfold browser_events. rewrite Hget, Hsave. cbv zeta. rewrite Hacc.
  reflexivity.
Qed.

Lemma playwright_loop (m : nat) (h : str) (doc : soup) (N : nat) :
  forall a n s,
    a + n = m -> N < n ->
    (forall k, k < N -> browser_retried (browser_calls s + k) = true) ->
    browser_succeeds (browser_calls s + N) h doc ->
    for_each (playwright_attempt rt w m) (seq a n) (ret None) s =
    (Ret (Some doc),
     {| browser_calls := browser_calls s + S N;
        http_calls := http_calls s;
        bee_calls := bee_calls s;
        trace := trace s ++
                 flat_map (fun k => browser_events (a + k)
                                      (browser_calls s + k))
                          (seq 0 (S N)) |}).
Proof.
  induction N as [|N IH]; intros a n s Hm Hn Hfail Hok;
    (destruct n as [|n]; [lia|]); simpl seq; simpl for_each;
    unfold bind at 1.
  - rewrite Nat.add_0_r in Hok.
    rewrite (@playwright_attempt_succeeds m a s h doc Hok).
    unfold ret, st_browser; simpl.
    rewrite !Nat.add_0_r, Nat.add_1_r, app_nil_r. reflexivity.
  - assert (Ha : (a =? m - 1) = false) by (apply Nat.eqb_neq; lia).
    assert (H0 := Hfail 0 ltac:(lia)). rewrite Nat.add_0_r in H0.
    rewrite (@playwright_attempt_retried m a s Ha H0).
    rewrite (IH (S a) n (st_browser s (browser_events a (browser_calls s)))).
    + unfold st_browser; cbn [browser_calls http_calls bee_calls trace].
      change (0 :: 1 :: seq 2 N) with (seq 0 (S (S N))).
      rewrite (flat_map_seq_S
                 (fun k => browser_events (a + k) (browser_calls s + k))).
      rewrite !Nat.add_0_r, <- !app_assoc. f_equal. f_equal; [lia|].
      do 2 f_equal. apply flat_map_ext. intros k.
      rewrite !Nat.add_succ_r. reflexivity.
    + lia.
    + lia.
    + intros k Hk. simpl. specialize (Hfail (S k) ltac:(lia)).
      rewrite Nat.add_succ_r in Hfail. exact Hfail.
    + unfold browser_succeeds in *. simpl.
      rewrite Nat.add_succ_r in Hok. exact Hok.
Qed.

Lemma sleeps_app (a b : list event) : sleeps (a ++ b) = sleeps a ++ sleeps b.
Proof. apply flat_map_app. Qed.

Lemma agents_app (a b : list event) : agents (a ++ b) = agents a ++ agents b.
Proof. apply flat_map_app. Qed.

Lemma backoff_before_pos (a : nat) :
  0 < a -> backoff_before a = [Sleep (2 ^ a)].
Proof.
  intros H. unfold backoff_before.
  destruct (0 <? a) eqn:E; [reflexivity|]. apply Nat.ltb_ge in E. lia.
Qed.

Lemma http_events_sleeps (n : nat) :
  forall a, 0 < a ->
    sleeps (flat_map http_events (seq a n)) = map (Nat.pow 2) (seq a n).
Proof.
  induction n as [|n IH]; intros a Ha; [reflexivity|].
  cbn [seq flat_map map]. rewrite sleeps_app, IH by lia.
  unfold http_events. rewrite backoff_before_pos by assumption. reflexivity.
Qed.

Lemma http_events_agents (n : nat) :
  forall a, agents (flat_map http_events (seq a n)) = map agent_of (seq a n).
Proof.
  induction n as [|n IH]; intros a; [reflexivity|].
  cbn [seq flat_map map]. rewrite agents_app, IH.
  unfold http_events, backoff_before. destruct (0 <? a); reflexivity.
Qed.

(** The events of one attempt of the proxy adapter after its wait hold no
    wait and one request. *)
Lemma bee_events_tail (a i : nat) :
  exists tl,
    bee_events a i = backoff_before a ++ BeeGet :: tl /\
    sleeps tl = [] /\ bee_requests tl = 0.
Proof.
  unfold bee_events. eexists. split; [reflexivity|].
  destruct (bee_get w i) as [e|t]; [split; reflexivity|].
  destruct (accepts_raw t); [|split; reflexivity].
  destruct (save_debug w ProxyRender t); split; reflexivity.
Qed.

Lemma bee_events_sleeps (n : nat) (f g : nat -> nat) :
  forall b,
    (forall k, b <= k -> 0 < f k) ->
    sleeps (flat_map (fun k => bee_events (f k) (g k)) (seq b n)) =
    map (fun k => 2 ^ f k) (seq b n).
Proof.
  induction n as [|n IH]; intros b Hf; [reflexivity|].
  cbn [seq flat_map map]. rewrite sleeps_app, IH
    by (intros k Hk; apply Hf; lia).
  destruct (bee_events_tail (f b) (g b)) as [tl [-> [Hs _]]].
  rewrite backoff_before_pos by (apply Hf; lia).
  cbn [app]. change (sleeps (Sleep (2 ^ f b) :: BeeGet :: tl))
    with (2 ^ f b :: sleeps tl).
  rewrite Hs. reflexivity.
Qed.

Lemma bee_requests_app (a b : list event) :
  bee_requests (a ++ b) = bee_requests a + bee_requests b.
Proof. unfold bee_requests. rewrite filter_app, length_app. reflexivity. Qed.

Lemma bee_events_requests (n : nat) (f g : nat -> nat) :
  forall b,
    bee_requests (flat_map (fun k => bee_events (f k) (g k)) (seq b n)) = n.
Proof.
  induction n as [|n IH]; intros b; [reflexivity|].
  cbn [seq flat_map]. rewrite bee_requests_app, IH.
  destruct (bee_events_tail (f b) (g b)) as [tl [-> [_ Hr]]].
  rewrite bee_requests_app.
  change (bee_requests (BeeGet :: tl)) with (S (bee_requests tl)).
  rewrite Hr. unfold backoff_before. destruct (0 <? f b); reflexivity.
Qed.

Lemma browser_events_navigations (n : nat) (f g : nat -> nat) :
  forall a,
    navigations (flat_map (fun k => browser_events (f k) (g k)) (seq a n)) = n.
Proof.
  unfold navigations.
  induction n as [|n IH]; intros a; [reflexivity|].
  cbn [seq flat_map]. rewrite filter_app, length_app, IH.
  unfold browser_events.
  destruct (browser_render w (g a)) as [e|e|h]; try reflexivity.
  destruct (save_debug w BrowserRender h); [reflexivity|].
  destruct (full_verdict h); reflexivity.
Qed.

Lemma requests_retry (m N : nat) (s : state) (t : str) (doc : soup) :
  N < m ->
  (forall k, k < N -> http_retried (http_calls s + k) = true) ->
  http_succeeds (http_calls s + N) t doc ->
  exists tr,
    _get_page_with_requests rt w m s =
    (Ret (Some doc),
     {| browser_calls := browser_calls s; http_calls := http_calls s + S N;
        bee_calls := bee_calls s; trace := trace s ++ tr |}) /\
    agents tr = map (fun k => nth (k mod 5) user_agents []) (seq 0 (S N)) /\
    sleeps tr = map (Nat.pow 2) (seq 1 N).
Proof.
  intros Hn Hfail Hok.
  exists (flat_map http_events (seq 0 (S N)) ++ [Saved HttpFetch]).
  split; [|split].
  - unfold _get_page_with_requests, range.
    apply (@requests_loop m t doc N 0 m s); [reflexivity | assumption..].
  - rewrite agents_app, http_events_agents, app_nil_r. reflexivity.
  - rewrite sleeps_app, app_nil_r.
    change (seq 0 (S N)) with (0 :: seq 1 N). cbn [flat_map].
    rewrite sleeps_app, http_events_sleeps by lia. reflexivity.
Qed.

Lemma scrapingbee_retry (cfg : config) (m N : nat) (s : state) (t : str)
  (doc : soup) :
  N < m ->
  use_scrapingbee cfg = true -> has_key cfg = true ->
  (forall k, k < N -> bee_retried (bee_calls s + k) = true) ->
  bee_succeeds (bee_calls s + N) t doc ->
  exists tr,
    _get_page_with_scrapingbee rt w cfg m s =
    (Ret (Some doc),
     {| browser_calls := browser_calls s; http_calls := http_calls s;
        bee_calls := bee_calls s + S N; trace := trace s ++ tr |}) /\
    bee_requests tr = S N /\
    sleeps tr = map (Nat.pow 2) (seq 1 N).
Proof.
  intros Hn Hu Hk Hfail Hok.
  exists (flat_map (fun k => bee_events (0 + k) (bee_calls s + k))
            (seq 0 (S N))).
  split; [|split].
  - unfold _get_page_with_scrapingbee, range. rewrite Hu, Hk. simpl negb.
    cbv iota. apply (@scrapingbee_loop m t doc N 0 m s); assumption.
  - apply bee_events_requests.
  - change (seq 0 (S N)) with (0 :: seq 1 N). cbn [flat_map].
    rewrite sleeps_app.
    destruct (bee_events_tail (0 + 0) (bee_calls s + 0)) as [tl [-> [Hs _]]].
    change (sleeps (backoff_before (0 + 0) ++ BeeGet :: tl))
      with (sleeps tl).
    rewrite Hs. cbn [app].
    rewrite (@bee_events_sleeps N (fun k => 0 + k)
               (fun k => bee_calls s + k) 1)
      by (intros k Hk1; simpl; lia).
    reflexivity.
Qed.

Lemma playwright_retry (cfg : config) (m N : nat) (s : state) (h : str)
  (doc : soup) :
  N < m ->
  use_playwright cfg = true -> page cfg = true ->
  (forall k, k < N -> browser_retried (browser_calls s + k) = true) ->
  browser_succeeds (browser_calls s + N) h doc ->
  exists tr,
    _get_page_with_playwright rt w cfg m s =
    (Ret (Some doc),
     {| browser_calls := browser_calls s + S N; http_calls := http_calls s;
        bee_calls := bee_calls s; trace := trace s ++ tr |}) /\
    navigations tr = S N /\
    tr = flat_map (fun k => browser_events k (browser_calls s + k))
           (seq 0 (S N)).
Proof.
  intros Hn Hu Hp Hfail Hok.
  exists (flat_map (fun k => browser_events k (browser_calls s + k))
            (seq 0 (S N))).
  split; [|split].
  - unfold _get_page_with_playwright, range. rewrite Hu, Hp. simpl negb.
    cbv iota.
    apply (@playwright_loop m h doc N 0 m s); [reflexivity | assumption..].
  - apply browser_events_navigations.
  - reflexivity.
Qed.

(** *** At most [max_retries] attempts in a call of an adapter *)

Lemma for_each_bound {R : Type} (count : state -> nat)
  (body : nat -> M (ctl R)) (attempts : list nat) (after : M R) :
  (forall a s, count (snd (body a s)) <= S (count s)) ->
  (forall s, count (snd (after s)) = count s) ->
  forall s,
    count (snd (for_each body attempts after s)) <=
    count s + List.length attempts.
Proof.
  intros Hb Ha. induction attempts as [|k rest IH]; intros s; simpl.
  - rewrite Ha. lia.
  - unfold bind. specialize (Hb k s).
    destruct (body k s) as [[[r|]|e] s1]; simpl in *; try lia.
    specialize (IH s1). lia.
Qed.

Lemma for_each_frame {R : Type} (count : state -> nat)
  (body : nat -> M (ctl R)) (attempts : list nat) (after : M R) :
  (forall a s, count (snd (body a s)) = count s) ->
  (forall s, count (snd (after s)) = count s) ->
  forall s, count (snd (for_each body attempts after s)) = count s.
Proof.
  intros Hb Ha. induction attempts as [|k rest IH]; intros s; simpl.
  - apply Ha.
  - unfold bind. specialize (Hb k s).
    destruct (body k s) as [[[r|]|e] s1]; simpl in *; try assumption.
    rewrite IH. assumption.
Qed.

(** A body that moves the counter only when it leaves the loop. *)
Lemma for_each_once {R : Type} (count : state -> nat) (B : nat)
  (body : nat -> M (ctl R)) (attempts : list nat) (after : M R) :
  (forall a s,
     match body a s with
     | (Ret Next, s1) => count s1 = count s
     | (_, s1) => count s1 <= count s + B
     end) ->
  (forall s, count (snd (after s)) = count s) ->
  forall s, count (snd (for_each body attempts after s)) <= count s + B.
Proof.
  intros Hb Ha. induction attempts as [|k rest IH]; intros s; simpl.
  - rewrite Ha. lia.
  - unfold bind. specialize (Hb k s).
    destruct (body k s) as [[[r|]|e] s1]; simpl in *; try assumption.
    specialize (IH s1). lia.
Qed.

Lemma requests_attempt_calls (m a : nat) (s : state) :
  http_calls (snd (requests_attempt rt w m a s)) = S (http_calls s) /\
  bee_calls (snd (requests_attempt rt w m a s)) = bee_calls s /\
  browser_calls (snd (requests_attempt rt w m a s)) = browser_calls s.
Proof.
  rewrite requests_attempt_step. cbv zeta.
  destruct (http_get w (http_calls s)) as [[|]|t]; simpl; auto.
  destruct (full_verdict t); simpl; auto.
  destruct (save_debug w HttpFetch t) as [[|]|]; simpl; auto.
Qed.

Lemma scrapingbee_attempt_calls (m a : nat) (s : state) :
  bee_calls (snd (scrapingbee_attempt rt w m a s)) = S (bee_calls s) /\
  http_calls (snd (scrapingbee_attempt rt w m a s)) = http_calls s /\
  browser_calls (snd (scrapingbee_attempt rt w m a s)) = browser_calls s.
Proof.
  rewrite scrapingbee_attempt_step. cbv zeta.
  destruct (bee_get w (bee_calls s)) as [e|t]; simpl; auto.
  destruct (accepts_raw t); simpl; auto.
  destruct (save_debug w ProxyRender t); simpl; auto.
  destruct (html_parser rt t); simpl; auto.
Qed.

Lemma requests_bound (m : nat) (s : state) :
  http_calls (snd (_get_page_with_requests rt w m s)) <= http_calls s + m.
Proof.
  unfold _get_page_with_requests, range.
  assert (H : forall l s0,
            http_calls (snd (for_each (requests_attempt rt w m) l
                               (ret None) s0)) <=
            http_calls s0 + List.length l).
  { intros l. apply for_each_bound; [|reflexivity].
    intros a s0. destruct (requests_attempt_calls m a s0) as [E _].
    rewrite E. lia. }
  specialize (H (seq 0 m) s). rewrite length_seq in H. exact H.
Qed.

Lemma requests_frame_browser (m : nat) (s : state) :
  browser_calls (snd (_get_page_with_requests rt w m s)) = browser_calls s.
Proof.
  unfold _get_page_with_requests. apply for_each_frame; [|reflexivity].
  intros a s0. apply requests_attempt_calls.
Qed.

Lemma scrapingbee_bound (cfg : config) (m : nat) (s : state) :
  bee_calls (snd (_get_page_with_scrapingbee rt w cfg m s)) <=
  bee_calls s + m.
Proof.
  unfold _get_page_with_scrapingbee, range.
  destruct (negb (use_scrapingbee cfg) || negb (has_key cfg));
    [simpl; lia|].
  assert (H : forall l s0,
            bee_calls (snd (for_each (scrapingbee_attempt rt w m) l
                              (ret None) s0)) <=
            bee_calls s0 + List.length l).
  { intros l. apply for_each_bound; [|reflexivity].
    intros a s0. destruct (scrapingbee_attempt_calls m a s0) as [E _].
    rewrite E. lia. }
  specialize (H (seq 0 m) s). rewrite length_seq in H. exact H.
Qed.

Lemma scrapingbee_frame_browser (cfg : config) (m : nat) (s : state) :
  browser_calls (snd (_get_page_with_scrapingbee rt w cfg m s)) =
  browser_calls s.
Proof.
  unfold _get_page_with_scrapingbee.
  destruct (negb (use_scrapingbee cfg) || negb (has_key cfg)); [reflexivity|].
  apply for_each_frame; [|reflexivity].
  intros a s0. apply scrapingbee_attempt_calls.
Qed.

(** The handler of the browser adapter leaves the counter of the browser,
    and that of the proxy, as they are. *)
Lemma playwright_handler_frame (m a : nat) (s : state) :
  browser_calls (snd (playwright_handler m a s)) = browser_calls s /\
  bee_calls (snd (playwright_handler m a s)) = bee_calls s.
Proof.
  unfold playwright_handler. destruct (a =? m - 1); [|split; reflexivity].
  unfold bind. pose proof (requests_frame_browser m s) as Hf.
  assert (Hb : bee_calls (snd (_get_page_with_requests rt w m s)) =
               bee_calls s).
  { unfold _get_page_with_requests. apply for_each_frame; [|reflexivity].
    intros a0 s0. apply requests_attempt_calls. }
  destruct (_get_page_with_requests rt w m s) as [[r|e] s2];
    simpl in *; split; assumption.
Qed.

Lemma playwright_bound (cfg : config) (m : nat) (s : state) :
  browser_calls (snd (_get_page_with_playwright rt w cfg m s)) <=
  browser_calls s + m.
Proof.
  unfold _get_page_with_playwright, range.
  destruct (negb (use_playwright cfg) || negb (page cfg));
    [simpl; lia|].
  assert (Hh : forall a s1,
            browser_calls (snd (playwright_handler m a s1)) =
            browser_calls s1) by (intros; apply playwright_handler_frame).
  assert (H : forall l s0,
            browser_calls (snd (for_each (playwright_attempt rt w m) l
                                  (ret None) s0)) <=
            browser_calls s0 + List.length l).
  { intros l. apply for_each_bound; [|reflexivity].
    intros a s0. rewrite playwright_attempt_step.
    destruct (browser_render w (browser_calls s0)) as [e|e|h];
      rewrite ?Hh; simpl; try lia.
    destruct (save_debug w BrowserRender h); rewrite ?Hh; simpl; try lia.
    destruct (full_verdict h); rewrite ?Hh; simpl; lia. }
  specialize (H (seq 0 m) s). rewrite length_seq in H. exact H.
Qed.

(** *** When [get_page] returns *)

(** The HTTP adapter meets no error outside [RequestException]: neither
    from the GET, nor from the debug sink, nor from the parser on a response
    that passed the checks on its raw content. *)
Definition http_benign : Prop :=
  (forall i, http_get w i <> Raises OtherException) /\
  (forall t, save_debug w HttpFetch t <> Some OtherException) /\
  (forall i t, http_get w i = Body t -> accepts_raw t = true ->
               html_parser rt t <> None).

Definition returns {A : Type} (m : M A) : Prop :=
  forall s, exists a s', m s = (Ret a, s').

Lemma for_each_returns {R : Type} (body : nat -> M (ctl R))
  (attempts : list nat) (after : M R) :
  (forall a, returns (body a)) -> returns after ->
  returns (for_each body attempts after).
Proof.
  intros Hb Ha. induction attempts as [|k rest IH]; intros s; simpl.
  - apply Ha.
  - unfold bind. destruct (Hb k s) as [c [s' E]]. rewrite E.
    destruct c as [r|]; [exists r, s'; reflexivity | apply IH].
Qed.

Lemma returns_ret {A : Type} (a : A) : returns (ret a).
Proof. intros s; exists a, s; reflexivity. Qed.

Lemma requests_returns (m : nat) :
  http_benign -> returns (_get_page_with_requests rt w m).
Proof.
  intros [Hget [Hsave Hparse]]. apply for_each_returns; [|apply returns_ret].
  intros a s. rewrite requests_attempt_step. cbv zeta.
  specialize (Hget (http_calls s)). specialize (Hparse (http_calls s)).
  destruct (http_get w (http_calls s)) as [[|]|t]; try congruence; eauto.
  specialize (Hparse t eq_refl). unfold full_verdict.
  destruct (accepts_raw t); eauto.
  specialize (Hparse eq_refl).
  destruct (html_parser rt t) as [doc|]; [|congruence].
  destruct (blocked_parsed rt doc); eauto.
  specialize (Hsave t).
  destruct (save_debug w HttpFetch t) as [[|]|]; try congruence; eauto.
Qed.

Lemma scrapingbee_returns (cfg : config) (m : nat) :
  returns (_get_page_with_scrapingbee rt w cfg m).
Proof.
  unfold _get_page_with_scrapingbee.
  destruct (negb (use_scrapingbee cfg) || negb (has_key cfg));
    [apply returns_ret|].
  apply for_each_returns; [|apply returns_ret].
  intros a s. rewrite scrapingbee_attempt_step. cbv zeta.
  destruct (bee_get w (bee_calls s)) as [e|t]; eauto.
  destruct (accepts_raw t); eauto.
  destruct (save_debug w ProxyRender t); eauto.
  destruct (html_parser rt t); eauto.
Qed.

Lemma playwright_returns (cfg : config) (m : nat) :
  http_benign -> returns (_get_page_with_playwright rt w cfg m).
Proof.
  intros Hb. unfold _get_page_with_playwright.
  destruct (negb (use_playwright cfg) || negb (page cfg));
    [apply returns_ret|].
  apply for_each_returns; [|apply returns_ret].
  assert (Hh : forall a, returns (playwright_handler m a)).
  { intros a s. unfold playwright_handler.
    destruct (a =? m - 1).
    - unfold bind. destruct (requests_returns m Hb s) as [r [s' E]].
      rewrite E. eexists _, _; reflexivity.
    - eexists _, _; reflexivity. }
  intros a s. rewrite playwright_attempt_step.
  destruct (browser_render w (browser_calls s)) as [e|e|h]; try apply Hh.
  destruct (save_debug w BrowserRender h); [apply Hh|].
  cbv zeta. destruct (full_verdict h); [|apply Hh|];
    eexists _, _; reflexivity.
Qed.

(** With an HTTP adapter that meets [RequestException] only, the
    orchestrator returns a page or [None] from every state. *)
Lemma get_page_returns (cfg : config) (m : nat) :
  http_benign -> returns (get_page rt w cfg m).
Proof.
  intros Hb s. unfold get_page, bind.
  assert (H1 : returns (if use_playwright cfg && page cfg
                        then _get_page_with_playwright rt w cfg m
                        else ret None)).
  { destruct (use_playwright cfg && page cfg);
      [apply playwright_returns; assumption | apply returns_ret]. }
  destruct (H1 s) as [r1 [s1 E1]]. rewrite E1.
  destruct r1 as [doc|]; [eexists _, _; reflexivity|].
  destruct (requests_returns m Hb s1) as [r2 [s2 E2]]. rewrite E2.
  destruct r2 as [doc|]; [eexists _, _; reflexivity|].
  destruct (use_scrapingbee cfg && has_key cfg);
    [apply scrapingbee_returns | eexists _, _; reflexivity].
Qed.

(** *** The order of the adapters *)

Lemma for_each_mono {R : Type} (count : state -> nat)
  (body : nat -> M (ctl R)) (attempts : list nat) (after : M R) :
  (forall a s, count s <= count (snd (body a s))) ->
  (forall s, count s <= count (snd (after s))) ->
  forall s, count s <= count (snd (for_each body attempts after s)).
Proof.
  intros Hb Ha. induction attempts as [|k rest IH]; intros s; simpl.
  - apply Ha.
  - unfold bind. specialize (Hb k s).
    destruct (body k s) as [[[r|]|e] s1]; simpl in *; try assumption.
    specialize (IH s1). lia.
Qed.

Lemma requests_frame_bee (m : nat) (s : state) :
  bee_calls (snd (_get_page_with_requests rt w m s)) = bee_calls s.
Proof.
  unfold _get_page_with_requests. apply for_each_frame; [|reflexivity].
  intros a s0. apply requests_attempt_calls.
Qed.

Lemma requests_mono_http (m : nat) (s : state) :
  http_calls s <= http_calls (snd (_get_page_with_requests rt w m s)).
Proof.
  unfold _get_page_with_requests. apply for_each_mono; [|reflexivity].
  intros a s0. destruct (requests_attempt_calls m a s0) as [H _].
  rewrite H. lia.
Qed.

(** The HTTP adapter answers [None] only after [max_retries] GETs. *)
Lemma requests_none_calls (m : nat) :
  forall n a s s',
    a + n = m ->
    for_each (requests_attempt rt w m) (seq a n) (ret None) s =
      (Ret None, s') ->
    http_calls s' = http_calls s + n.
Proof.
  induction n as [|n IH]; intros a s s' Hm; simpl.
  - unfold ret. intros E; injection E as <-. lia.
  - unfold bind. rewrite requests_attempt_step. cbv zeta.
    unfold request_handler.
    destruct (http_get w (http_calls s)) as [[|]|t].
    + destruct (a =? m - 1) eqn:Ea.
      * apply Nat.eqb_eq in Ea. unfold ret. intros E; injection E as <-.
        simpl. lia.
      * intros E. apply IH in E; [|lia]. simpl in E. lia.
    + discriminate.
    + destruct (full_verdict t) as [| |doc].
      * intros E. apply IH in E; [|lia]. simpl in E. lia.
      * discriminate.
      * destruct (save_debug w HttpFetch t) as [[|]|].
        -- destruct (a =? m - 1) eqn:Ea.
           ++ apply Nat.eqb_eq in Ea. unfold ret. intros E; injection E as <-.
              simpl. lia.
           ++ intros E. apply IH in E; [|lia]. simpl in E. lia.
        -- discriminate.
        -- unfold ret. discriminate.
Qed.

Lemma playwright_frame_bee (cfg : config) (m : nat) (s : state) :
  bee_calls (snd (_get_page_with_playwright rt w cfg m s)) = bee_calls s.
Proof.
  unfold _get_page_with_playwright.
  destruct (negb (use_playwright cfg) || negb (page cfg)); [reflexivity|].
  apply for_each_frame; [|reflexivity].
  assert (Hh : forall a s1,
            bee_calls (snd (playwright_handler m a s1)) = bee_calls s1)
    by (intros; apply playwright_handler_frame).
  intros a s0. rewrite playwright_attempt_step.
  destruct (browser_render w (browser_calls s0)) as [e|e|h];
    rewrite ?Hh; try reflexivity.
  destruct (save_debug w BrowserRender h); rewrite ?Hh; try reflexivity.
  cbv zeta. destruct (full_verdict h); rewrite ?Hh; reflexivity.
Qed.

Lemma playwright_handler_http (m a : nat) (s : state) :
  http_calls s <= http_calls (snd (playwright_handler m a s)) /\
  match playwright_handler m a s with
  | (Ret Next, s1) => http_calls s1 = http_calls s
  | (_, s1) => http_calls s1 <= http_calls s + m
  end.
Proof.
  unfold playwright_handler. destruct (a =? m - 1).
  - unfold bind. pose proof (requests_mono_http m s) as H1.
    pose proof (requests_bound m s) as H2.
    destruct (_get_page_with_requests rt w m s) as [[r|e] s2];
      simpl in *; split; assumption.
  - simpl. split; lia.
Qed.

Lemma playwright_mono_http (cfg : config) (m : nat) (s : state) :
  http_calls s <= http_calls (snd (_get_page_with_playwright rt w cfg m s)).
Proof.
  unfold _get_page_with_playwright.
  destruct (negb (use_playwright cfg) || negb (page cfg)); [simpl; lia|].
  apply for_each_mono; [|simpl; lia].
  assert (Hh : forall a s1,
            http_calls s1 <= http_calls (snd (playwright_handler m a s1)))
    by (intros; apply playwright_handler_http).
  intros a s0. rewrite playwright_attempt_step.
  destruct (browser_render w (browser_calls s0)) as [e|e|h];
    try (etransitivity; [|apply Hh]; simpl; lia).
  destruct (save_debug w BrowserRender h);
    [etransitivity; [|apply Hh]; simpl; lia|].
  cbv zeta. destruct (full_verdict h);
    [|etransitivity; [|apply Hh]|]; simpl; lia.
Qed.

(** One call of the browser adapter hands over to the HTTP adapter at most
    once. *)
Lemma playwright_bound_http (cfg : config) (m : nat) (s : state) :
  http_calls (snd (_get_page_with_playwright rt w cfg m s)) <=
  http_calls s + m.
Proof.
  unfold _get_page_with_playwright.
  destruct (negb (use_playwright cfg) || negb (page cfg)); [simpl; lia|].
  apply for_each_once; [|reflexivity].
  clear s. intros a s. rewrite playwright_attempt_step.
  destruct (browser_render w (browser_calls s)) as [e|e|h].
  - exact (proj2 (playwright_handler_http m a (st_browser s [Goto]))).
  - exact (proj2 (playwright_handler_http m a
                    (st_browser s [Goto; Sleep 2]))).
  - destruct (save_debug w BrowserRender h).
    + exact (proj2 (playwright_handler_http m a
                      (st_browser s [Goto; Sleep 2]))).
    + cbv zeta. destruct (full_verdict h); [reflexivity| |simpl; lia].
      exact (proj2 (playwright_handler_http m a
                      (st_browser s [Goto; Sleep 2; Saved BrowserRender]))).
Qed.

Lemma scrapingbee_frame_http (cfg : config) (m : nat) (s : state) :
  http_calls (snd (_get_page_with_scrapingbee rt w cfg m s)) = http_calls s.
Proof.
  unfold _get_page_with_scrapingbee.
  destruct (negb (use_scrapingbee cfg) || negb (has_key cfg)); [reflexivity|].
  apply for_each_frame; [|reflexivity].
  intros a s0. apply scrapingbee_attempt_calls.
Qed.

(** The orchestrator answers [None] only after the HTTP adapter has made
    its [max_retries] GETs, whatever the browser adapter did before. *)
Lemma get_page_none_after_http (cfg : config) (m : nat) (s s' : state) :
  get_page rt w cfg m s = (Ret None, s') ->
  http_calls s + m <= http_calls s'.
Proof.
  unfold get_page, bind.
  assert (H1 : http_calls s <=
               http_calls (snd ((if use_playwright cfg && page cfg
                                 then _get_page_with_playwright rt w cfg m
                                 else ret None) s))).
  { destruct (use_playwright cfg && page cfg);
      [apply playwright_mono_http | simpl; lia]. }
  destruct ((if use_playwright cfg && page cfg
             then _get_page_with_playwright rt w cfg m
             else ret None) s) as [[[doc|]|e] s1]; simpl in H1;
    try discriminate.
  destruct (_get_page_with_requests rt w m s1) as [[[doc|]|e] s2] eqn:E2;
    try discriminate.
  unfold _get_page_with_requests, range in E2.
  apply requests_none_calls in E2; [|reflexivity].
  destruct (use_scrapingbee cfg && has_key cfg).
  - intros E3. pose proof (scrapingbee_frame_http cfg m s2) as Hf.
    rewrite E3 in Hf. simpl in Hf. lia.
  - unfold ret. intros E3; injection E3 as <-. lia.
Qed.

(** Without [use_scrapingbee] or without a key the rendering service is
    never called. *)
Lemma get_page_proxy_only_when_configured (cfg : config) (m : nat)
  (s : state) :
  use_scrapingbee cfg && has_key cfg = false ->
  bee_calls (snd (get_page rt w cfg m s)) = bee_calls s.
Proof.
  intros Hc. unfold get_page, bind. rewrite Hc.
  assert (H1 : bee_calls (snd ((if use_playwright cfg && page cfg
                                then _get_page_with_playwright rt w cfg m
                                else ret None) s)) = bee_calls s).
  { destruct (use_playwright cfg && page cfg);
      [apply playwright_frame_bee | reflexivity]. }
  destruct ((if use_playwright cfg && page cfg
             then _get_page_with_playwright rt w cfg m
             else ret None) s) as [[[doc|]|e] s1]; simpl in H1;
    try exact H1.
  pose proof (requests_frame_bee m s1) as H2.
  destruct (_get_page_with_requests rt w m s1) as [[[doc|]|e] s2];
    simpl in *; lia.
Qed.

(** *** The calls of one run of [get_page] *)

(** The browser adapter's last handler and the orchestrator both call the
    HTTP adapter: a run makes at most [max_retries] navigations, twice
    [max_retries] GETs and [max_retries] requests of the rendering
    service. *)
Lemma get_page_bound (cfg : config) (m : nat) (s : state) :
  browser_calls (snd (get_page rt w cfg m s)) <= browser_calls s + m /\
  http_calls (snd (get_page rt w cfg m s)) <= http_calls s + 2 * m /\
  bee_calls (snd (get_page rt w cfg m s)) <= bee_calls s + m.
Proof.
  unfold get_page, bind.
  assert (H1 : let s1 := snd ((if use_playwright cfg && page cfg
                               then _get_page_with_playwright rt w cfg m
                               else ret None) s) in
               browser_calls s1 <= browser_calls s + m /\
               http_calls s1 <= http_calls s + m /\
               bee_calls s1 = bee_calls s).
  { destruct (use_playwright cfg && page cfg).
    - split; [apply playwright_bound|].
      split; [apply playwright_bound_http | apply playwright_frame_bee].
    - simpl. lia. }
  destruct ((if use_playwright cfg && page cfg
             then _get_page_with_playwright rt w cfg m
             else ret None) s) as [[[doc|]|e] s1]; simpl in H1;
    try (simpl; lia).
  pose proof (requests_bound m s1) as H2.
  pose proof (requests_frame_browser m s1) as H3.
  pose proof (requests_frame_bee m s1) as H4.
  destruct (_get_page_with_requests rt w m s1) as [[[doc|]|e] s2];
    simpl in H2, H3, H4; try (simpl; lia).
  destruct (use_scrapingbee cfg && has_key cfg); [|simpl; lia].
  pose proof (scrapingbee_bound cfg m s2) as H5.
  pose proof (scrapingbee_frame_browser cfg m s2) as H6.
  pose proof (scrapingbee_frame_http cfg m s2) as H7.
  lia.
Qed.

(** When every GET raises a [RequestException], a call of the HTTP adapter
    makes all its GETs and answers [None]. *)
Lemma requests_all_raise (m : nat) :
  (forall i, http_get w i = Raises RequestException) ->
  forall n a s,
    a + n = m ->
    exists s',
      for_each (requests_attempt rt w m) (seq a n) (ret None) s =
        (Ret None, s') /\
      http_calls s' = http_calls s + n /\
      browser_calls s' = browser_calls s.
Proof.
  intros Hget. induction n as [|n IH]; intros a s Hm; simpl.
  - exists s. repeat split; lia.
  - unfold bind. rewrite requests_attempt_step. cbv zeta. rewrite Hget.
    unfold request_handler. destruct (a =? m - 1) eqn:Ea.
    + apply Nat.eqb_eq in Ea. eexists. split; [reflexivity|].
      simpl. split; lia.
    + destruct (IH (S a) (st_http s (http_events a))) as [s' [E [H1 H2]]];
        [lia|].
      exists s'. split; [exact E|]. simpl in H1, H2. split; lia.
Qed.

(** When moreover every navigation raises, a call of the browser adapter
    makes all its navigations, hands over on the last, and answers what the
    HTTP adapter answers: [None], after [max_retries] GETs. *)
Lemma playwright_all_raise (m : nat) :
  (forall i, exists e, browser_render w i = NavRaises e) ->
  (forall i, http_get w i = Raises RequestException) ->
  forall n a s,
    a + n = m -> 0 < n ->
    exists s',
      for_each (playwright_attempt rt w m) (seq a n) (ret None) s =
        (Ret None, s') /\
      http_calls s' = http_calls s + m /\
      browser_calls s' = browser_calls s + n.
Proof.
  intros Hnav Hget. induction n as [|n IH]; intros a s Hm Hn; [lia|].
  simpl. unfold bind. rewrite playwright_attempt_step.
  destruct (Hnav (browser_calls s)) as [e ->].
  unfold playwright_handler. destruct (a =? m - 1) eqn:Ea.
  - apply Nat.eqb_eq in Ea.
    destruct (@requests_all_raise m Hget m 0 (st_browser s [Goto]) eq_refl)
      as [s' [E [H1 H2]]].
    unfold _get_page_with_requests, range, bind. rewrite E.
    exists s'. split; [reflexivity|]. simpl in H1, H2. split; lia.
  - apply Nat.eqb_neq in Ea.
    destruct (IH (S a) (emit (Sleep (2 ^ a)) (st_browser s [Goto])))
      as [s' [E [H1 H2]]]; [lia | lia |].
    exists s'. split; [exact E|]. simpl in H1, H2. split; lia.
Qed.

(** So a run of [get_page] with all three adapters down makes twice
    [max_retries] GETs. *)
Lemma get_page_two_rounds (cfg : config) (m : nat) (s : state) :
  0 < m ->
  use_playwright cfg = true -> page cfg = true ->
  (forall i, exists e, browser_render w i = NavRaises e) ->
  (forall i, http_get w i = Raises RequestException) ->
  http_calls (snd (get_page rt w cfg m s)) = http_calls s + 2 * m /\
  browser_calls (snd (get_page rt w cfg m s)) = browser_calls s + m.
Proof.
  intros Hm Hu Hp Hnav Hget.
  destruct (@playwright_all_raise m Hnav Hget m 0 s eq_refl Hm)
    as [s1 [E1 [H1 H2]]].
  destruct (@requests_all_raise m Hget m 0 s1 eq_refl) as [s2 [E2 [H3 H4]]].
  assert (E : get_page rt w cfg m s =
              (if use_scrapingbee cfg && has_key cfg
               then _get_page_with_scrapingbee rt w cfg m
               else ret None) s2).
  { unfold get_page, bind. rewrite Hu, Hp. cbn [andb].
    unfold _get_page_with_playwright. rewrite Hu, Hp. cbn [negb orb].
    unfold range. rewrite E1.
    unfold _get_page_with_requests, range. rewrite E2. reflexivity. }
  rewrite E. destruct (use_scrapingbee cfg && has_key cfg).
  - rewrite scrapingbee_frame_http, scrapingbee_frame_browser. split; lia.
  - simpl. split; lia.
Qed.

(** With the browser adapter off, a run of [get_page] that the HTTP adapter
    ends with a page is that call of the HTTP adapter. *)
Lemma get_page_http_only (cfg : config) (m : nat) (s s' : state)
  (doc : soup) :
  use_playwright cfg && page cfg = false ->
  _get_page_with_requests rt w m s = (Ret (Some doc), s') ->
  get_page rt w cfg m s = (Ret (Some doc), s').
Proof.
  intros Hc E. unfold get_page, bind. rewrite Hc. unfold ret at 1.
  rewrite E. reflexivity.
Qed.

(** With the browser adapter on, a run of [get_page] that the browser
    adapter ends with a page is that call of the browser adapter. *)
Lemma get_page_browser_first (cfg : config) (m : nat) (s s' : state)
  (doc : soup) :
  use_playwright cfg = true -> page cfg = true ->
  _get_page_with_playwright rt w cfg m s = (Ret (Some doc), s') ->
  get_page rt w cfg m s = (Ret (Some doc), s').
Proof.
  intros Hu Hp E. unfold get_page, bind. rewrite Hu, Hp. cbn [andb].
  rewrite E. reflexivity.
Qed.

(** Markup that passes the checks on the raw content and that the parser
    rejects ends the call of the HTTP adapter with the parser's error, on
    the spot. *)
Lemma requests_unparsable (m : nat) (s : state) (t : str) :
  0 < m ->
  http_get w (http_calls s) = Body t ->
  full_verdict t = Unparsable ->
  fst (_get_page_with_requests rt w m s) = Raise OtherException /\
  http_calls (snd (_get_page_with_requests rt w m s)) = S (http_calls s).
Proof.
  intros Hm Hget Hv. unfold _get_page_with_requests, range.
  destruct m as [|m]; [lia|]. cbn [seq for_each]. unfold bind.
  rewrite requests_attempt_step. cbv zeta. rewrite Hget, Hv.
  split; reflexivity.
Qed.

Lemma get_page_unparsable (cfg : config) (m : nat) (s : state) (t : str) :
  0 < m ->
  use_playwright cfg && page cfg = false ->
  http_get w (http_calls s) = Body t ->
  full_verdict t = Unparsable ->
  fst (get_page rt w cfg m s) = Raise OtherException.
Proof.
  intros Hm Hc Hget Hv.
  destruct (requests_unparsable s Hm Hget Hv) as [E _].
  unfold get_page, bind. rewrite Hc. unfold ret at 1.
  destruct (_get_page_with_requests rt w m s) as [o s1].
  simpl in E. subst o. reflexivity.
Qed.

End Analysis.

(** *** The acceptance decision of each adapter, as a gate

    The gate as the specification words it: length, blocklist on the
    lower-cased content, blocklist on the text of the parsed document. *)

Lemma http_decision_gate (rt : runtime) (text : str) :
  http_decision rt text = accepts_full rt text.
Proof.
  unfold http_decision, accepted. rewrite requests_attempt_step. cbv zeta.
  rewrite accepts_full_verdict. cbn [serving http_get save_debug http_calls
    init].
  destruct (full_verdict rt text); reflexivity.
Qed.

Lemma browser_decision_gate (rt : runtime) (text : str) :
  browser_decision rt text = accepts_full rt text.
Proof.
  unfold browser_decision, accepted. rewrite playwright_attempt_step.
  rewrite accepts_full_verdict.
  cbn [serving browser_render save_debug browser_calls init]. cbv zeta.
  destruct (full_verdict rt text) eqn:E; try reflexivity.
  unfold playwright_handler.
  change (0 =? 1 - 1) with true. cbv iota.
  unfold _get_page_with_requests, range. cbn [seq for_each].
  unfold bind. rewrite requests_attempt_step. cbv zeta.
  cbn [serving http_get]. rewrite E. reflexivity.
Qed.

Lemma proxy_decision_gate (rt : runtime) (text : str) :
  proxy_decision rt text = accepts_raw rt text && parses rt text.
Proof.
  unfold proxy_decision, accepted, parses.
  rewrite scrapingbee_attempt_step. cbv zeta.
  cbn [serving bee_get save_debug bee_calls init].
  destruct (accepts_raw rt text); [|reflexivity].
  destruct (html_parser rt text); reflexivity.
Qed.

(** The proxy adapter accepts every page the other two accept, and exactly
    those pages more that only the scan of the parsed document rejects. *)
Lemma proxy_decision_vs_http (rt : runtime) (text : str) :
  http_decision rt text =
  proxy_decision rt text &&
  match html_parser rt text with
  | Some doc => negb (blocked_parsed rt doc)
  | None => false
  end.
Proof.
  rewrite http_decision_gate, proxy_decision_gate.
  unfold accepts_full, accepts_raw, parses.
  destruct ((1000 <=? len text) && negb (blocked_raw rt text));
    [|reflexivity].
  destruct (html_parser rt text); reflexivity.
Qed.

(** *** Closed runs *)

(** A page of a thousand characters [x] that every gate accepts. *)
Definition plain_page : str := repeat 120%N 1000.

(** Every adapter fails once, by an error it retries, and then is handed
    [plain_page]. *)
Definition flaky_once : world :=
  {| browser_render :=
       fun i => if i =? 0 then NavRaises OtherException
                else Rendered plain_page;
     http_get :=
       fun i => if i =? 0 then Raises RequestException else Body plain_page;
     bee_get :=
       fun i => if i =? 0 then Raises RequestException else Body plain_page;
     save_debug := fun _ _ => None;
     save_page_source := fun _ => None |}.

Definition all_adapters : config :=
  {| use_playwright := true; page := true; use_scrapingbee := true;
     scrapingbee_api_key := Some (lit "key") |}.

Definition http_only : config :=
  {| use_playwright := false; page := false; use_scrapingbee := false;
     scrapingbee_api_key := None |}.

(** The page is served, but the debug file cannot be written: [open] raises
    an [OSError]. *)
Definition sink_fails : world :=
  {| browser_render := fun _ => Rendered plain_page;
     http_get := fun _ => Body plain_page;
     bee_get := fun _ => Body plain_page;
     save_debug := fun k _ =>
       match k with HttpFetch => Some OtherException | _ => None end;
     save_page_source := fun _ => None |}.

(** Every adapter is down: each navigation and each GET raises. *)
Definition all_down : world :=
  {| browser_render := fun _ => NavRaises OtherException;
     http_get := fun _ => Raises RequestException;
     bee_get := fun _ => Raises RequestException;
     save_debug := fun _ _ => None;
     save_page_source := fun _ => None |}.

(** A page whose markup spells the blocked word with a character reference,
    and the runtime whose parser decodes it, as [html.parser] does. *)
Definition entity_page : str := lit "<p>c&#97;ptcha</p>" ++ plain_page.

Definition entity_document : soup :=
  document [Elem (lit "p") [] [Text (lit "captcha")]; Text plain_page].

Definition decoding : runtime :=
  {| lower := ascii_lower;
     re_ieq := ascii_ieq;
     html_parser := fun content =>
       if str_eqb content entity_page then Some entity_document
       else Some (text_document content);
     soup_str := serialize;
     dom_fault := None |}.

(** A page that opens with a marked section of unknown keyword, and the
    runtime whose parser raises on it, as [html.parser] does. *)
Definition garbled_page : str := lit "<![UNKNOWN[]]>" ++ plain_page.

Definition strict : runtime :=
  {| lower := ascii_lower;
     re_ieq := ascii_ieq;
     html_parser := fun content =>
       if str_eqb content garbled_page then None
       else Some (text_document content);
     soup_str := serialize;
     dom_fault := None |}.

(** The browser and the rendering service hand over the garbled page once
    and then [plain_page]. *)
Definition garbled_once : world :=
  {| browser_render :=
       fun i => if i =? 0 then Rendered garbled_page else Rendered plain_page;
     http_get := fun _ => Body plain_page;
     bee_get :=
       fun i => if i =? 0 then Body garbled_page else Body plain_page;
     save_debug := fun _ _ => None;
     save_page_source := fun _ => None |}.

(** The backoff sequence the claim words: 1, 2, 4, ... *)
Definition claimed_backoff (N : nat) : list nat := map (Nat.pow 2) (seq 0 N).

(** C1 (code at the failing input): with the browser adapter off, an
    accepted page whose debug copy cannot be written makes [get_page] raise:
    the HTTP adapter catches [RequestException] only, and the orchestrator
    has no handler of its own. *)
Theorem get_page_lets_error_escape :
  fst (get_page reference sink_fails http_only 3 init) = Raise OtherException.
Proof. vm_compute. reflexivity. Qed.

(** C2 (code at the failing input): a page whose raw text passes the
    blocklist and whose parsed text holds a blocked word is rejected by the
    HTTP and browser adapters and accepted by the proxy adapter, which has no
    scan of the parsed document. *)
Theorem proxy_gate_lacks_document_scan :
  http_decision decoding entity_page = false /\
  browser_decision decoding entity_page = false /\
  proxy_decision decoding entity_page = true.
Proof. vm_compute. repeat split. Qed.




End Fetch.

(** ** Classification: [extract_article_content] and its specialised
    variant *)

Module Classifier.
Import PyStr Dom Runtime.

(** The dictionary [content].  [sections] is a Python [dict]: its keys keep
    their insertion order, which [full_text] follows.  [full_text] is [None]
    while the key is absent. *)
Record content : Type := {
  verses : list str;
  meanings : list str;
  paragraphs : list str;
  sections : list (str * list str);
  full_text : option str
}.

Definition empty_content : content :=
  {| verses := []; meanings := []; paragraphs := []; sections := [];
     full_text := None |}.

(** [key in d] *)
Definition has_section (key : str) (d : list (str * list str)) : bool :=
  existsb (fun kv => str_eqb (fst kv) key) d.

(** [d[key] = []] for a new key. *)
Definition new_section (key : str) (d : list (str * list str))
  : list (str * list str) := d ++ [(key, [])].

(** [d[key].append(item)] *)
Fixpoint append_to (key item : str) (d : list (str * list str))
  : list (str * list str) :=
  match d with
  | [] => []
  | (k, items) :: r =>
      if str_eqb k key then (k, items ++ [item]) :: r
      else (k, items) :: append_to key item r
  end.

(** [if current_section in content['sections']:
       content['sections'][current_section].append(item)] *)
Definition file_under (current_section item : str)
  (d : list (str * list str)) : list (str * list str) :=
  if has_section current_section d then append_to current_section item d
  else d.

(** The state of the walk: the dictionary being filled and the local
    variable [current_section]. *)
Record walk : Type := {
  out : content;
  current_section : str
}.

Definition NL : char := 10%N.

Definition headings : list str :=
  [lit "h1"; lit "h2"; lit "h3"; lit "h4"; lit "h5"; lit "h6"].

(** The markers of the generic ruleset:
    the double danda, the danda, om, namah, shiva, hara, rama, krishna. *)
Definition devanagari_chars : list str :=
  [ [2405]; [2404]; [2384]; [2344; 2350; 2307]; [2358; 2367; 2357];
    [2361; 2352]; [2352; 2366; 2350]; [2325; 2371; 2359; 2381; 2339] ]%N.

(** The markers of the specialised ruleset: the same and two spellings of
    tandava. *)
Definition devanagari_chars_shiva : list str :=
  devanagari_chars ++
  [ [2340; 2366; 2306; 2337; 2357]; [2340; 2366; 2339; 2381; 2337; 2357] ]%N.

(** meaning, artha, bhavartha, explanation, translation *)
Definition meaning_words : list str :=
  [ lit "meaning"; [2309; 2352; 2381; 2341]%N;
    [2349; 2366; 2357; 2366; 2352; 2381; 2341]%N;
    lit "explanation"; lit "translation" ].

Definition is_empty (s : str) : bool :=
  match s with [] => true | _ => false end.

(** [not l] for a list or a dictionary. *)
Definition is_empty_list {A : Type} (l : list A) : bool :=
  match l with [] => true | _ => false end.

Definition tag_verse (text : str) : str := lit "VERSE: " ++ text.
Definition tag_meaning (text : str) : str := lit "MEANING: " ++ text.

Section Walk.

Variable rt : runtime.

(** The three branches that store a text: in the category list unless it is
    there already, and then under the current section when that section is a
    key of the dictionary. *)
Definition store_verse (text : str) (st : walk) : walk :=
  let c := out st in
  if mem text (verses c) then st
  else
    {| out := {| verses := verses c ++ [text];
                 meanings := meanings c;
                 paragraphs := paragraphs c;
                 sections := file_under (current_section st)
                               (tag_verse text) (sections c);
                 full_text := full_text c |};
       current_section := current_section st |}.

Definition store_meaning (text : str) (st : walk) : walk :=
  let c := out st in
  if mem text (meanings c) then st
  else
    {| out := {| verses := verses c;
                 meanings := meanings c ++ [text];
                 paragraphs := paragraphs c;
                 sections := file_under (current_section st)
                               (tag_meaning text) (sections c);
                 full_text := full_text c |};
       current_section := current_section st |}.

Definition store_paragraph (text : str) (st : walk) : walk :=
  let c := out st in
  if mem text (paragraphs c) then st
  else
    {| out := {| verses := verses c;
                 meanings := meanings c;
                 paragraphs := paragraphs c ++ [text];
                 sections := file_under (current_section st) text
                               (sections c);
                 full_text := full_text c |};
       current_section := current_section st |}.

(** The heading branch. *)
Definition open_section (text : str) (st : walk) : walk :=
  let c := out st in
  {| out := {| verses := verses c;
               meanings := meanings c;
               paragraphs := paragraphs c;
               sections := if has_section text (sections c)
                           then sections c
                           else new_section text (sections c);
               full_text := full_text c |};
     current_section := text |}.

(** The body of the loop [for elem in elements] of the extended ruleset;
    the generic and the specialised extractor run the same body, with their
    own list [markers] for [devanagari_chars]. *)
Definition classify_step (markers : list str) (st : walk) (elem : node)
  : walk :=
  if is_empty (strip (get_text elem)) then st
  else
    let text := clean_text (Some (get_text elem)) in
    if len text <? 10 then st
    else if name_in headings elem then open_section text st
    else if any_in markers text || (50 <? len text) then store_verse text st
    else if any_in meaning_words (lower rt text) then store_meaning text st
    else if 30 <? len text then store_paragraph text st
    else st.

Definition classify_all (markers : list str) (elements : list node)
  (st : walk) : walk :=
  fold_left (classify_step markers) elements st.

(** *** Rendering [full_text] *)

Definition section_header (name : str) : str :=
  NL :: lit "--- " ++ name ++ lit " ---".

(** The list [full_text_parts] as the code grows it, by [append] and
    [extend]. *)
Definition full_text_parts (c : content) : list str :=
  let parts := [] in
  let parts :=
    if is_empty_list (verses c) then parts
    else (parts ++ [lit "VERSES:"]) ++ verses c in
  let parts :=
    if is_empty_list (meanings c) then parts
    else (parts ++ [NL :: lit "MEANINGS:"]) ++ meanings c in
  if is_empty_list (sections c) then parts
  else
    fold_left
      (fun parts kv => (parts ++ [section_header (fst kv)]) ++ snd kv)
      (sections c)
      (parts ++ [NL :: lit "SECTIONS:"]).

Definition render_text (c : content) : str :=
  join [NL; NL] (full_text_parts c).

Definition with_full_text (c : content) : content :=
  {| verses := verses c; meanings := meanings c; paragraphs := paragraphs c;
     sections := sections c; full_text := Some (render_text c) |}.

(** *** The generic extractor *)

Definition content_selectors : list selector :=
  [ SelTag (lit "article"); SelTag (lit "main");
    SelClass (lit "div") (lit "entry-content");
    SelClass (lit "div") (lit "article-content");
    SelClass (lit "div") (lit "post-content");
    SelClass (lit "div") (lit "content");
    SelClass (lit "div") (lit "main-content");
    SelId (lit "div") (lit "content");
    SelClass (lit "div") (lit "post");
    SelClass (lit "div") (lit "entry");
    SelClass (lit "div") (lit "page-content") ].

Definition text_tags : list str :=
  [ lit "p"; lit "div"; lit "span"; lit "h1"; lit "h2"; lit "h3"; lit "h4";
    lit "h5"; lit "h6"; lit "pre"; lit "blockquote" ].

(** The loop over the selectors: the first that selects an element wins. *)
Fixpoint first_selected (sels : list selector) (doc : soup) : option node :=
  match sels with
  | [] => None
  | sel :: rest =>
      match select_one sel doc with
      | Some n => Some n
      | None => first_selected rest doc
      end
  end.

Definition main_content (doc : soup) : option node :=
  match first_selected content_selectors doc with
  | Some n => Some n
  | None => find (lit "body") doc
  end.

(** The elements the loop visits; none when there is not even a body. *)
Definition generic_elements (doc : soup) : list node :=
  match main_content doc with
  | Some mc => find_all text_tags mc
  | None => []
  end.

Definition start (section : str) : walk :=
  {| out := empty_content; current_section := section |}.

(** The body of [extract_article_content] below the test of the page
    signature. *)
Definition extract_generic (doc : soup) : content :=
  with_full_text
    (out (classify_all devanagari_chars (generic_elements doc)
            (start (lit "General")))).

(** *** The specialised extractor *)

Definition shiva_tags : list str :=
  [ lit "p"; lit "h1"; lit "h2"; lit "h3"; lit "h4"; lit "h5"; lit "h6";
    lit "div" ].

(** [soup.find('div', class_=lambda x: x and 'content' in x.lower())]: the
    function is tried on each class token and on the whole attribute. *)
Definition content_div (doc : soup) : option node :=
  hd_error
    (filter
       (fun n =>
          name_in [lit "div"] n &&
          (existsb (fun c => contains (lit "content") (lower rt c))
                   (classes n) ||
           match classes n with
           | [] => false
           | cs => contains (lit "content") (lower rt (join [SP] cs))
           end))
       (descendants doc)).

Definition shiva_article (doc : soup) : node :=
  match find (lit "article") doc with
  | Some a => a
  | None =>
      match find (lit "main") doc with
      | Some m => m
      | None =>
          match content_div doc with
          | Some d => d
          | None => doc
          end
      end
  end.

(** The body of the second loop, over every element. *)
Definition aggressive_step (st : walk) (elem : node) : walk :=
  if is_empty (strip (get_text elem)) then st
  else
    let text := clean_text (Some (get_text elem)) in
    if (50 <? len text) &&
       any_in [[2405]; [2404]; [2384]]%N text
    then store_verse text st
    else st.

(** A loop inside the [try] block: it stops with the dictionary as filled
    so far when the visit numbered by the fault raises. *)
Inductive progress : Type :=
| Done (st : walk) (fault_left : option nat)
| Failed (st : walk).

Fixpoint guarded (step : walk -> node -> walk) (fault : option nat)
  (elems : list node) (st : walk) : progress :=
  match elems with
  | [] => Done st fault
  | e :: rest =>
      match fault with
      | Some 0 => Failed st
      | Some (S k) => guarded step (Some k) rest (step st e)
      | None => guarded step None rest (step st e)
      end
  end.

(** [_extract_shiva_tandav_content]: the handler of the [try] block logs
    the error and the function returns the dictionary as it then is. *)
Definition _extract_shiva_tandav_content (doc : soup) : content :=
  let article := shiva_article doc in
  match guarded (classify_step devanagari_chars_shiva) (dom_fault rt)
          (find_all shiva_tags article)
          (start (lit "Shiva Tandav Stotram")) with
  | Failed st => out st
  | Done st fault_left =>
      if is_empty_list (verses (out st))
      then
        match guarded aggressive_step fault_left (find_all_tags article) st
        with
        | Failed st' => out st'
        | Done st' _ => with_full_text (out st')
        end
      else with_full_text (out st)
  end.

Definition extract_article_content (doc : soup) : content :=
  if contains (lit "shiv-tandav-stotram") (soup_str rt doc)
  then _extract_shiva_tandav_content doc
  else extract_generic doc.

(** *** The classification rules as the specification words them *)

Inductive category : Type := Verse | Meaning | Paragraph.

(** First match in the order verse, meaning, paragraph. *)
Definition category_of (markers : list str) (text : str) : option category :=
  if any_in markers text || (50 <? len text) then Some Verse
  else if any_in meaning_words (lower rt text) then Some Meaning
  else if 30 <? len text then Some Paragraph
  else None.

Definition category_eqb (a : option category) (b : category) : bool :=
  match a, b with
  | Some Verse, Verse | Some Meaning, Meaning
  | Some Paragraph, Paragraph => true
  | _, _ => false
  end.

Definition cleaned (elem : node) : str := clean_text (Some (get_text elem)).

(** A non-heading element whose normalised text passes the length
    threshold. *)
Definition candidate (e : node) : bool :=
  negb (name_in headings e) && (10 <=? len (cleaned e)).

(** A heading whose normalised text passes the length threshold. *)
Definition section_heading (e : node) : bool :=
  name_in headings e && (10 <=? len (cleaned e)).

(** Their normalised texts, in document order. *)
Definition candidate_texts (elements : list node) : list str :=
  map cleaned (filter candidate elements).

Definition heading_texts (elements : list node) : list str :=
  map cleaned (filter section_heading elements).

Definition texts_of (markers : list str) (cat : category)
  (elements : list node) : list str :=
  filter (fun t => category_eqb (category_of markers t) cat)
         (candidate_texts elements).

(** Keep the first occurrence of every text, in order. *)
Fixpoint first_occurrences (l : list str) : list str :=
  match l with
  | [] => []
  | x :: r => x :: filter (fun y => negb (str_eqb y x)) (first_occurrences r)
  end.

(** Every segment filed under some section. *)
Definition filed (c : content) : list str :=
  List.concat (map snd (sections c)).

(** A block of the report: its header and its items, or nothing. *)
Definition block (header : str) (items : list str) : list str :=
  match items with
  | [] => []
  | _ :: _ => header :: items
  end.

Definition sections_block (d : list (str * list str)) : list str :=
  match d with
  | [] => []
  | _ :: _ =>
      (NL :: lit "SECTIONS:") ::
      flat_map (fun kv => section_header (fst kv) :: snd kv) d
  end.

(** Every text held by the dictionary, in a category list or under a
    section, is a fixed point of [clean_text]. *)
Definition all_clean (c : content) : Prop :=
  forall t,
    In t (verses c) \/ In t (meanings c) \/ In t (paragraphs c) \/
    In t (filed c) ->
    clean_text (Some t) = t.

(** Every filed segment is a stored text, with the tag of its category. *)
Definition origin (c : content) : Prop :=
  forall seg,
    In seg (filed c) ->
    (exists v, In v (verses c) /\ seg = tag_verse v) \/
    (exists m, In m (meanings c) /\ seg = tag_meaning m) \/
    In seg (paragraphs c).

(** Every stored text has the category of the list that holds it. *)
Definition well_sorted (markers : list str) (c : content) : Prop :=
  (forall t, In t (verses c) -> category_of markers t = Some Verse) /\
  (forall t, In t (meanings c) -> category_of markers t = Some Meaning) /\
  (forall t, In t (paragraphs c) -> category_of markers t = Some Paragraph).

(** The invariant of the walk behind the absence of repeated segments. *)
Definition tidy (markers : list str) (c : content) : Prop :=
  origin c /\ well_sorted markers c /\ NoDup (filed c).

(** [if t not in acc: acc.append(t)] *)
Definition add_new (acc : list str) (t : str) : list str :=
  if mem t acc then acc else acc ++ [t].

Definition bucket (cat : category) (c : content) : list str :=
  match cat with
  | Verse => verses c
  | Meaning => meanings c
  | Paragraph => paragraphs c
  end.

Definition keys (c : content) : list str := map fst (sections c).

(** The number of texts the category lists hold. *)
Definition stored (c : content) : nat :=
  List.length (verses c) + List.length (meanings c) +
  List.length (paragraphs c).

(** *** Lists without repetition *)

Lemma filter_filter_and {A : Type} (f g : A -> bool) (l : list A) :
  filter f (filter g l) = filter (fun y => g y && f y) l.
Proof.
  induction l as [|x l IH]; [reflexivity|]. simpl.
  destruct (g x); simpl; [destruct (f x)|]; rewrite IH; reflexivity.
Qed.

Lemma mem_app (y : str) (a b : list str) : mem y (a ++ b) = mem y a || mem y b.
Proof. unfold mem. apply existsb_app. Qed.

Lemma str_eqb_sym (a b : str) : str_eqb a b = str_eqb b a.
Proof.
  destruct (str_eqb a b) eqn:E; symmetry.
  - apply str_eqb_eq in E; subst; apply str_eqb_refl.
  - destruct (str_eqb b a) eqn:E'; [|reflexivity].
    apply str_eqb_eq in E'; subst. rewrite str_eqb_refl in E; discriminate.
Qed.

Lemma fold_add_new (l : list str) :
  forall acc,
    fold_left add_new l acc =
    acc ++ filter (fun y => negb (mem y acc)) (first_occurrences l).
Proof.
  induction l as [|x l IH]; intros acc; simpl.
  - rewrite app_nil_r; reflexivity.
  - rewrite IH. unfold add_new. destruct (mem x acc) eqn:E; simpl.
    + f_equal. rewrite filter_filter_and. apply filter_ext. intros y.
      destruct (str_eqb y x) eqn:Ey; simpl; [|reflexivity].
      apply str_eqb_eq in Ey; subst. rewrite E; reflexivity.
    + rewrite <- app_assoc. simpl. do 2 f_equal.
      rewrite filter_filter_and. apply filter_ext. intros y.
      rewrite mem_app. simpl. rewrite orb_false_r, negb_orb.
      apply andb_comm.
Qed.

Lemma fold_add_new_nil (l : list str) :
  fold_left add_new l [] = first_occurrences l.
Proof.
  rewrite fold_add_new. simpl.
  induction (first_occurrences l) as [|x r IH]; [reflexivity|].
  simpl. rewrite IH; reflexivity.
Qed.

Lemma In_first_occurrences (y : str) (l : list str) :
  In y (first_occurrences l) <-> In y l.
Proof.
  induction l as [|x l IH]; simpl; [tauto|].
  rewrite filter_In, IH. split.
  - intros [H|[H _]]; auto.
  - intros [H|H]; [auto|].
    destruct (str_eqb y x) eqn:E.
    + apply str_eqb_eq in E; subst; auto.
    + right; split; [assumption | reflexivity].
Qed.

Lemma NoDup_first_occurrences (l : list str) : NoDup (first_occurrences l).
Proof.
  induction l as [|x l IH]; simpl; constructor.
  - rewrite filter_In. intros [_ H]. rewrite str_eqb_refl in H. discriminate.
  - apply NoDup_filter; assumption.
Qed.

(** *** The dictionary of sections *)

Lemma has_section_keys (k : str) (d : list (str * list str)) :
  has_section k d = mem k (map fst d).
Proof.
  unfold has_section, mem. induction d as [|[k' v] d IH]; [reflexivity|].
  simpl. rewrite IH, str_eqb_sym. reflexivity.
Qed.

Lemma append_to_keys (k v : str) (d : list (str * list str)) :
  map fst (append_to k v d) = map fst d.
Proof.
  induction d as [|[k' items] d IH]; [reflexivity|]. simpl.
  destruct (str_eqb k' k); simpl; [|rewrite IH]; reflexivity.
Qed.

Lemma file_under_keys (k v : str) (d : list (str * list str)) :
  map fst (file_under k v d) = map fst d.
Proof.
  unfold file_under. destruct (has_section k d); [apply append_to_keys|].
  reflexivity.
Qed.

Lemma append_to_filed (k v : str) (d : list (str * list str)) (x : str) :
  In x (List.concat (map snd (append_to k v d))) ->
  In x (List.concat (map snd d)) \/ x = v.
Proof.
  induction d as [|[k' items] d IH]; simpl; [tauto|].
  destruct (str_eqb k' k); simpl; rewrite !in_app_iff.
  - simpl. intros [[H|[H|[]]]|H]; auto.
  - intros [H|H]; [tauto|]. destruct (IH H); tauto.
Qed.

Lemma file_under_filed (k v : str) (d : list (str * list str)) (x : str) :
  In x (List.concat (map snd (file_under k v d))) ->
  In x (List.concat (map snd d)) \/ x = v.
Proof.
  unfold file_under. destruct (has_section k d); [apply append_to_filed|].
  tauto.
Qed.

Lemma append_to_length (k v : str) (d : list (str * list str)) :
  List.length (List.concat (map snd (append_to k v d))) <=
  S (List.length (List.concat (map snd d))).
Proof.
  induction d as [|[k' items] d IH]; simpl; [lia|].
  destruct (str_eqb k' k); simpl; rewrite !length_app; simpl; lia.
Qed.

Lemma file_under_length (k v : str) (d : list (str * list str)) :
  List.length (List.concat (map snd (file_under k v d))) <=
  S (List.length (List.concat (map snd d))).
Proof.
  unfold file_under. destruct (has_section k d); [apply append_to_length|].
  lia.
Qed.

Lemma new_section_filed (k : str) (d : list (str * list str)) :
  List.concat (map snd (new_section k d)) = List.concat (map snd d).
Proof.
  unfold new_section. rewrite map_app, concat_app. simpl. apply app_nil_r.
Qed.

(** *** One step of the walk *)

(** The step by cases on the normalised text: the emptiness test of the
    code is subsumed by the length threshold. *)
Lemma step_spec (markers : list str) (st : walk) (e : node) :
  classify_step markers st e =
  if len (cleaned e) <? 10 then st
  else if name_in headings e then open_section (cleaned e) st
  else match category_of markers (cleaned e) with
       | Some Verse => store_verse (cleaned e) st
       | Some Meaning => store_meaning (cleaned e) st
       | Some Paragraph => store_paragraph (cleaned e) st
       | None => st
       end.
Proof.
  unfold classify_step, category_of, cleaned.
  destruct (is_empty (strip (get_text e))) eqn:E.
  - destruct (strip (get_text e)) eqn:Es; [|discriminate].
    rewrite (clean_text_blank _ Es). reflexivity.
  - destruct (len (clean_text (Some (get_text e))) <? 10); [reflexivity|].
    destruct (name_in headings e); [reflexivity|].
    destruct (any_in markers (clean_text (Some (get_text e))) ||
              (50 <? len (clean_text (Some (get_text e))))); [reflexivity|].
    destruct (any_in meaning_words
                (lower rt (clean_text (Some (get_text e))))); [reflexivity|].
    destruct (30 <? len (clean_text (Some (get_text e)))); reflexivity.
Qed.

Lemma step_bucket (markers : list str) (cat : category) (st : walk)
  (e : node) :
  bucket cat (out (classify_step markers st e)) =
  if candidate e && category_eqb (category_of markers (cleaned e)) cat
  then add_new (bucket cat (out st)) (cleaned e)
  else bucket cat (out st).
Proof.
  rewrite step_spec. unfold candidate. rewrite Nat.leb_antisym.
  destruct (len (cleaned e) <? 10); simpl;
    [rewrite andb_false_r; reflexivity|].
  destruct (name_in headings e); simpl; [destruct cat; reflexivity|].
  unfold add_new, store_verse, store_meaning, store_paragraph.
  destruct (category_of markers (cleaned e)) as [[| |]|]; destruct cat; simpl;
    try reflexivity;
    match goal with
    | |- context [mem ?t ?l] => destruct (mem t l); reflexivity
    end.
Qed.

Lemma walk_bucket (markers : list str) (cat : category) (elems : list node) :
  forall st,
    bucket cat (out (classify_all markers elems st)) =
    fold_left add_new (texts_of markers cat elems) (bucket cat (out st)).
Proof.
  unfold classify_all, texts_of, candidate_texts.
  induction elems as [|e elems IH]; intros st; [reflexivity|].
  cbn [fold_left filter]. rewrite IH, step_bucket.
  destruct (candidate e); cbn [map filter andb]; [|reflexivity].
  destruct (category_eqb (category_of markers (cleaned e)) cat); reflexivity.
Qed.

Lemma step_keys (markers : list str) (st : walk) (e : node) :
  keys (out (classify_step markers st e)) =
  if section_heading e
  then add_new (keys (out st)) (cleaned e)
  else keys (out st).
Proof.
  rewrite step_spec. unfold section_heading. rewrite Nat.leb_antisym.
  unfold keys.
  destruct (len (cleaned e) <? 10); simpl;
    [rewrite andb_false_r; reflexivity|].
  destruct (name_in headings e); simpl.
  - unfold add_new. rewrite has_section_keys.
    destruct (mem (cleaned e) (map fst (sections (out st)))); [reflexivity|].
    unfold new_section. rewrite map_app. reflexivity.
  - unfold store_verse, store_meaning, store_paragraph.
    destruct (category_of markers (cleaned e)) as [[| |]|]; simpl;
      try reflexivity;
      match goal with
      | |- context [mem ?t ?l] =>
          destruct (mem t l); simpl; [|rewrite file_under_keys]; reflexivity
      end.
Qed.

Lemma walk_keys (markers : list str) (elems : list node) :
  forall st,
    keys (out (classify_all markers elems st)) =
    fold_left add_new (heading_texts elems) (keys (out st)).
Proof.
  unfold classify_all, heading_texts.
  induction elems as [|e elems IH]; intros st; [reflexivity|].
  cbn [fold_left filter]. rewrite IH, step_keys.
  destruct (section_heading e); reflexivity.
Qed.

(** A step that stores nothing in a category list files nothing under any
    section. *)
Lemma step_files_only_stored (markers : list str) (st : walk) (e : node) :
  stored (out (classify_step markers st e)) = stored (out st) ->
  filed (out (classify_step markers st e)) = filed (out st).
Proof.
  rewrite step_spec.
  destruct (len (cleaned e) <? 10); [reflexivity|].
  destruct (name_in headings e).
  - intros _. unfold open_section, filed. simpl.
    destruct (has_section (cleaned e) (sections (out st)));
      [reflexivity | apply new_section_filed].
  - unfold store_verse, store_meaning, store_paragraph, stored.
    destruct (category_of markers (cleaned e)) as [[| |]|]; try reflexivity;
      match goal with
      | |- context [mem ?t ?l] => destruct (mem t l); [reflexivity|]
      end; simpl; rewrite length_app; simpl; lia.
Qed.

Lemma step_filed_bound (markers : list str) (st : walk) (e : node) :
  List.length (filed (out (classify_step markers st e))) + stored (out st) <=
  List.length (filed (out st)) + stored (out (classify_step markers st e)).
Proof.
  rewrite step_spec.
  destruct (len (cleaned e) <? 10); [lia|].
  destruct (name_in headings e).
  - unfold open_section, filed, stored. simpl.
    destruct (has_section (cleaned e) (sections (out st)));
      [|rewrite new_section_filed]; lia.
  - unfold store_verse, store_meaning, store_paragraph, stored, filed.
    destruct (category_of markers (cleaned e)) as [[| |]|]; try lia;
      match goal with
      | |- context [mem ?t ?l] => destruct (mem t l); [lia|]
      end; simpl; rewrite length_app; simpl;
      match goal with
      | |- context [file_under ?k ?v ?d] =>
          pose proof (file_under_length k v d)
      end; lia.
Qed.

Lemma walk_filed_bound (markers : list str) (elems : list node) :
  forall st,
    List.length (filed (out (classify_all markers elems st))) +
    stored (out st) <=
    List.length (filed (out st)) +
    stored (out (classify_all markers elems st)).
Proof.
  unfold classify_all.
  induction elems as [|e elems IH]; intros st; simpl; [lia|].
  specialize (IH (classify_step markers st e)).
  pose proof (step_filed_bound markers st e). lia.
Qed.

(** *** The report text *)

Lemma fold_sections (d : list (str * list str)) :
  forall acc,
    fold_left (fun parts kv => (parts ++ [section_header (fst kv)]) ++ snd kv)
      d acc =
    acc ++ flat_map (fun kv => section_header (fst kv) :: snd kv) d.
Proof.
  induction d as [|kv d IH]; intros acc; simpl.
  - rewrite app_nil_r; reflexivity.
  - rewrite IH, <- !app_assoc. reflexivity.
Qed.

Lemma full_text_parts_blocks (c : content) :
  full_text_parts c =
  block (lit "VERSES:") (verses c) ++
  block (NL :: lit "MEANINGS:") (meanings c) ++
  sections_block (sections c).
Proof.
  unfold full_text_parts, block, sections_block.
  destruct (verses c) as [|v vs], (meanings c) as [|m ms],
    (sections c) as [|kv d]; cbn [is_empty_list app];
    rewrite ?fold_sections; cbn [app]; rewrite <- ?app_assoc; cbn [app];
    rewrite ?app_nil_r; reflexivity.
Qed.

(** *** Stored texts are normalised *)

Lemma clean_tagged (p : str) (x : option str) :
  word p -> clean_text x <> [] ->
  clean_text (Some (p ++ SP :: clean_text x)) = p ++ SP :: clean_text x.
Proof.
  intros Hp Hne. destruct (clean_text_words x) as [ws [Hws E]].
  rewrite E in *. destruct ws as [|y r]; [exfalso; apply Hne; reflexivity|].
  change (p ++ SP :: join [SP] (y :: r)) with (join [SP] (p :: y :: r)).
  apply clean_text_join. constructor; assumption.
Qed.

Lemma word_VERSE : word (lit "VERSE:").
Proof. split; [discriminate | repeat constructor]. Qed.

Lemma word_MEANING : word (lit "MEANING:").
Proof. split; [discriminate | repeat constructor]. Qed.

Lemma tag_verse_clean (e : node) :
  cleaned e <> [] ->
  clean_text (Some (tag_verse (cleaned e))) = tag_verse (cleaned e).
Proof. intros H. exact (clean_tagged (Some (get_text e)) word_VERSE H). Qed.

Lemma tag_meaning_clean (e : node) :
  cleaned e <> [] ->
  clean_text (Some (tag_meaning (cleaned e))) = tag_meaning (cleaned e).
Proof. intros H. exact (clean_tagged (Some (get_text e)) word_MEANING H). Qed.

Lemma cleaned_clean (e : node) : clean_text (Some (cleaned e)) = cleaned e.
Proof. apply clean_text_idem. Qed.

Lemma store_verse_clean (e : node) (st : walk) :
  cleaned e <> [] -> all_clean (out st) ->
  all_clean (out (store_verse (cleaned e) st)).
Proof.
  intros Hne H. unfold store_verse.
  destruct (mem (cleaned e) (verses (out st))); [assumption|].
  intros t. unfold filed. simpl. rewrite in_app_iff. simpl.
  intros [[Ht|[Ht|[]]]|[Ht|[Ht|Ht]]]; subst;
    try (apply H; unfold filed; tauto); try apply cleaned_clean.
  apply file_under_filed in Ht. destruct Ht as [Ht| ->];
    [apply H; unfold filed; tauto | apply tag_verse_clean; assumption].
Qed.

Lemma store_meaning_clean (e : node) (st : walk) :
  cleaned e <> [] -> all_clean (out st) ->
  all_clean (out (store_meaning (cleaned e) st)).
Proof.
  intros Hne H. unfold store_meaning.
  destruct (mem (cleaned e) (meanings (out st))); [assumption|].
  intros t. unfold filed. simpl. rewrite in_app_iff. simpl.
  intros [Ht|[[Ht|[Ht|[]]]|[Ht|Ht]]]; subst;
    try (apply H; unfold filed; tauto); try apply cleaned_clean.
  apply file_under_filed in Ht. destruct Ht as [Ht| ->];
    [apply H; unfold filed; tauto | apply tag_meaning_clean; assumption].
Qed.

Lemma store_paragraph_clean (e : node) (st : walk) :
  all_clean (out st) -> all_clean (out (store_paragraph (cleaned e) st)).
Proof.
  intros H. unfold store_paragraph.
  destruct (mem (cleaned e) (paragraphs (out st))); [assumption|].
  intros t. unfold filed. simpl. rewrite in_app_iff. simpl.
  intros [Ht|[Ht|[[Ht|[Ht|[]]]|Ht]]]; subst;
    try (apply H; unfold filed; tauto); try apply cleaned_clean.
  apply file_under_filed in Ht. destruct Ht as [Ht| ->];
    [apply H; unfold filed; tauto | apply cleaned_clean].
Qed.

Lemma long_nonempty (t : str) (n : nat) : (len t <? S n) = false -> t <> [].
Proof. intros H ->. discriminate. Qed.

Lemma step_clean (markers : list str) (st : walk) (e : node) :
  all_clean (out st) -> all_clean (out (classify_step markers st e)).
Proof.
  intros H. rewrite step_spec.
  destruct (len (cleaned e) <? 10) eqn:El; [assumption|].
  apply long_nonempty in El.
  destruct (name_in headings e).
  - intros t. unfold open_section, filed. simpl.
    destruct (has_section (cleaned e) (sections (out st)));
      [|rewrite new_section_filed]; apply H.
  - destruct (category_of markers (cleaned e)) as [[| |]|];
      auto using store_verse_clean, store_meaning_clean,
        store_paragraph_clean.
Qed.

Lemma aggressive_step_clean (st : walk) (e : node) :
  all_clean (out st) -> all_clean (out (aggressive_step st e)).
Proof.
  intros H. unfold aggressive_step.
  destruct (is_empty (strip (get_text e))); [assumption|].
  fold (cleaned e).
  destruct (50 <? len (cleaned e)) eqn:El; [|assumption].
  destruct (any_in [[2405%N]; [2404%N]; [2384%N]] (cleaned e));
    [|assumption].
  apply store_verse_clean; [|assumption].
  intros E. rewrite E in El. discriminate.
Qed.

Lemma walk_clean (markers : list str) (elems : list node) :
  forall st,
    all_clean (out st) -> all_clean (out (classify_all markers elems st)).
Proof.
  unfold classify_all. induction elems as [|e elems IH]; intros st H;
    [assumption|].
  simpl. apply IH, step_clean, H.
Qed.

Lemma guarded_clean (step : walk -> node -> walk) :
  (forall st e, all_clean (out st) -> all_clean (out (step st e))) ->
  forall elems fault st,
    all_clean (out st) ->
    match guarded step fault elems st with
    | Done st' _ | Failed st' => all_clean (out st')
    end.
Proof.
  intros Hstep. induction elems as [|e elems IH]; intros fault st H; simpl;
    [assumption|].
  destruct fault as [[|k]|]; [assumption | apply IH, Hstep, H..].
Qed.

Lemma empty_clean : all_clean empty_content.
Proof. intros t [[]|[[]|[[]|[]]]]. Qed.

Lemma with_full_text_clean (c : content) :
  all_clean c -> all_clean (with_full_text c).
Proof. intros H t. apply H. Qed.

Lemma extract_clean (doc : soup) : all_clean (extract_article_content doc).
Proof.
  unfold extract_article_content.
  destruct (contains (lit "shiv-tandav-stotram") (soup_str rt doc)).
  - unfold _extract_shiva_tandav_content.
    pose proof (@guarded_clean _ (step_clean devanagari_chars_shiva)
                  (find_all shiva_tags (shiva_article doc)) (dom_fault rt)
                  (start (lit "Shiva Tandav Stotram")) empty_clean) as H1.
    destruct (guarded (classify_step devanagari_chars_shiva) (dom_fault rt)
                (find_all shiva_tags (shiva_article doc))
                (start (lit "Shiva Tandav Stotram"))) as [st fl|st];
      [|assumption].
    destruct (is_empty_list (verses (out st)));
      [|apply with_full_text_clean; assumption].
    pose proof (@guarded_clean _ aggressive_step_clean
                  (find_all_tags (shiva_article doc)) fl st H1) as H2.
    destruct (guarded aggressive_step fl (find_all_tags (shiva_article doc))
                st); [apply with_full_text_clean|]; assumption.
  - apply with_full_text_clean, walk_clean, empty_clean.
Qed.

(** *** Where filed segments come from *)

Lemma origin_grows (c c' : content) :
  origin c ->
  incl (verses c) (verses c') -> incl (meanings c) (meanings c') ->
  incl (paragraphs c) (paragraphs c') ->
  forall seg, In seg (filed c) ->
    (exists v, In v (verses c') /\ seg = tag_verse v) \/
    (exists m, In m (meanings c') /\ seg = tag_meaning m) \/
    In seg (paragraphs c').
Proof.
  intros H Hv Hm Hp seg Hin.
  destruct (H seg Hin) as [[v [H1 H2]]|[[m [H1 H2]]|H1]]; eauto 6.
Qed.

Lemma store_verse_origin (text : str) (st : walk) :
  origin (out st) -> origin (out (store_verse text st)).
Proof.
  intros H. unfold store_verse.
  destruct (mem text (verses (out st))); [assumption|].
  intros seg Hin. unfold filed in Hin. cbn [out sections] in Hin.
  apply file_under_filed in Hin. destruct Hin as [Hin| ->].
  - apply (@origin_grows (out st) _ H); cbn [out verses meanings paragraphs];
      auto using incl_refl, incl_appl.
  - left. exists text. cbn [out verses].
    split; [apply in_or_app; right; left|]; reflexivity.
Qed.

Lemma store_meaning_origin (text : str) (st : walk) :
  origin (out st) -> origin (out (store_meaning text st)).
Proof.
  intros H. unfold store_meaning.
  destruct (mem text (meanings (out st))); [assumption|].
  intros seg Hin. unfold filed in Hin. cbn [out sections] in Hin.
  apply file_under_filed in Hin. destruct Hin as [Hin| ->].
  - apply (@origin_grows (out st) _ H); cbn [out verses meanings paragraphs];
      auto using incl_refl, incl_appl.
  - right; left. exists text. cbn [out meanings].
    split; [apply in_or_app; right; left|]; reflexivity.
Qed.

Lemma store_paragraph_origin (text : str) (st : walk) :
  origin (out st) -> origin (out (store_paragraph text st)).
Proof.
  intros H. unfold store_paragraph.
  destruct (mem text (paragraphs (out st))); [assumption|].
  intros seg Hin. unfold filed in Hin. cbn [out sections] in Hin.
  apply file_under_filed in Hin. destruct Hin as [Hin| ->].
  - apply (@origin_grows (out st) _ H); cbn [out verses meanings paragraphs];
      auto using incl_refl, incl_appl.
  - right; right. cbn [out paragraphs].
    apply in_or_app; right; left; reflexivity.
Qed.

Lemma step_origin (markers : list str) (st : walk) (e : node) :
  origin (out st) -> origin (out (classify_step markers st e)).
Proof.
  intros H. rewrite step_spec.
  destruct (len (cleaned e) <? 10); [assumption|].
  destruct (name_in headings e).
  - intros seg. unfold open_section, filed. simpl.
    destruct (has_section (cleaned e) (sections (out st)));
      [|rewrite new_section_filed]; apply H.
  - destruct (category_of markers (cleaned e)) as [[| |]|];
      auto using store_verse_origin, store_meaning_origin,
        store_paragraph_origin.
Qed.

Lemma walk_origin (markers : list str) (elems : list node) :
  forall st, origin (out st) -> origin (out (classify_all markers elems st)).
Proof.
  unfold classify_all. induction elems as [|e elems IH]; intros st H;
    [assumption|].
  simpl. apply IH, step_origin, H.
Qed.

Lemma any_in_app_l (markers : list str) (pre text : str) :
  any_in markers text = true -> any_in markers (pre ++ text) = true.
Proof.
  unfold any_in. rewrite !existsb_exists. intros [m [Hm Hc]].
  exists m. split; [assumption | apply contains_app_l; assumption].
Qed.

Lemma tagged_verse_is_verse (markers : list str) (pre v : str) :
  category_of markers v = Some Verse ->
  category_of markers (pre ++ v) = Some Verse.
Proof.
  unfold category_of.
  destruct (any_in markers v || (50 <? len v)) eqn:E.
  - intros _. apply orb_true_iff in E. destruct E as [E|E].
    + rewrite (any_in_app_l _ pre _ E). reflexivity.
    + apply Nat.ltb_lt in E.
      assert (E' : (50 <? len (pre ++ v)) = true).
      { apply Nat.ltb_lt. unfold len in *. rewrite length_app. lia. }
      rewrite E', orb_true_r. reflexivity.
  - destruct (any_in meaning_words (lower rt v)); [discriminate|].
    destruct (30 <? len v); discriminate.
Qed.

(** [str.lower] turns the tag of a meaning into text that holds the marker
    word meaning. *)
Definition lower_keeps_tag : Prop :=
  forall s, contains (lit "meaning") (lower rt (tag_meaning s)) = true.

Lemma tagged_meaning_is_classified (markers : list str) (m : str) :
  lower_keeps_tag -> category_of markers (tag_meaning m) <> None.
Proof.
  intros Hl. unfold category_of.
  destruct (any_in markers (tag_meaning m) || (50 <? len (tag_meaning m)));
    [discriminate|].
  assert (E : any_in meaning_words (lower rt (tag_meaning m)) = true).
  { unfold any_in, meaning_words. cbn [existsb]. rewrite Hl. reflexivity. }
  rewrite E. discriminate.
Qed.

Lemma category_eqb_eq (a : option category) (b : category) :
  category_eqb a b = true -> a = Some b.
Proof. destruct a as [[| |]|], b; simpl; congruence. Qed.

Lemma tagged_meaning_category (markers : list str) (m : str) :
  lower_keeps_tag ->
  category_of markers (tag_meaning m) = Some Verse \/
  category_of markers (tag_meaning m) = Some Meaning.
Proof.
  intros Hl. unfold category_of.
  destruct (any_in markers (tag_meaning m) || (50 <? len (tag_meaning m)));
    [left; reflexivity|].
  assert (E : any_in meaning_words (lower rt (tag_meaning m)) = true).
  { unfold any_in, meaning_words. cbn [existsb]. rewrite Hl. reflexivity. }
  rewrite E. right; reflexivity.
Qed.

Lemma tags_differ (v m : str) : tag_verse v <> tag_meaning m.
Proof. unfold tag_verse, tag_meaning. discriminate. Qed.

Lemma tag_verse_inj (a b : str) : tag_verse a = tag_verse b -> a = b.
Proof. unfold tag_verse. apply app_inv_head. Qed.

Lemma tag_meaning_inj (a b : str) : tag_meaning a = tag_meaning b -> a = b.
Proof. unfold tag_meaning. apply app_inv_head. Qed.

Lemma append_to_perm (k v : str) (d : list (str * list str)) :
  has_section k d = true ->
  Permutation (List.concat (map snd (append_to k v d)))
              (v :: List.concat (map snd d)).
Proof.
  induction d as [|[k' items] d IH]; [discriminate|].
  unfold has_section. cbn [existsb fst append_to].
  destruct (str_eqb k' k); cbn [orb map snd List.concat].
  - intros _. rewrite <- app_assoc. symmetry. apply Permutation_middle.
  - intros H. rewrite (IH H). symmetry. apply Permutation_middle.
Qed.

Lemma file_under_NoDup (k v : str) (d : list (str * list str)) :
  NoDup (List.concat (map snd d)) -> ~ In v (List.concat (map snd d)) ->
  NoDup (List.concat (map snd (file_under k v d))).
Proof.
  intros Hn Hv. unfold file_under.
  destruct (has_section k d) eqn:E; [|assumption].
  apply (Permutation_NoDup (l := v :: List.concat (map snd d))).
  - symmetry. apply append_to_perm; assumption.
  - constructor; assumption.
Qed.

Lemma store_verse_tidy (markers : list str) (text : str) (st : walk) :
  category_of markers text = Some Verse ->
  tidy markers (out st) -> tidy markers (out (store_verse text st)).
Proof.
  intros Hcat [Ho [[Hv [Hm Hp]] Hn]].
  split; [apply store_verse_origin; assumption|].
  unfold store_verse. destruct (mem text (verses (out st))) eqn:E;
    [split; [repeat split|]; assumption|].
  apply mem_false_In in E. split.
  - repeat split; cbn [out verses meanings paragraphs]; auto.
    intros t Ht. apply in_app_or in Ht.
    destruct Ht as [Ht|[<-|[]]]; auto.
  - unfold filed. cbn [out sections]. apply file_under_NoDup; [assumption|].
    intros Hin. destruct (Ho _ Hin) as [[v [H1 H2]]|[[m [H1 H2]]|H1]].
    + apply tag_verse_inj in H2. subst v. contradiction.
    + exact (tags_differ H2).
    + apply Hp in H1. unfold tag_verse in H1.
      rewrite (tagged_verse_is_verse _ _ _ Hcat) in H1. discriminate.
Qed.

Lemma store_meaning_tidy (markers : list str) (text : str) (st : walk) :
  lower_keeps_tag ->
  category_of markers text = Some Meaning ->
  tidy markers (out st) -> tidy markers (out (store_meaning text st)).
Proof.
  intros Hl Hcat [Ho [[Hv [Hm Hp]] Hn]].
  split; [apply store_meaning_origin; assumption|].
  unfold store_meaning. destruct (mem text (meanings (out st))) eqn:E;
    [split; [repeat split|]; assumption|].
  apply mem_false_In in E. split.
  - repeat split; cbn [out verses meanings paragraphs]; auto.
    intros t Ht. apply in_app_or in Ht.
    destruct Ht as [Ht|[<-|[]]]; auto.
  - unfold filed. cbn [out sections]. apply file_under_NoDup; [assumption|].
    intros Hin. destruct (Ho _ Hin) as [[v [H1 H2]]|[[m [H1 H2]]|H1]].
    + symmetry in H2. exact (tags_differ H2).
    + apply tag_meaning_inj in H2. subst m. contradiction.
    + apply Hp in H1.
      destruct (tagged_meaning_category markers text Hl); congruence.
Qed.

Lemma store_paragraph_tidy (markers : list str) (text : str) (st : walk) :
  lower_keeps_tag ->
  category_of markers text = Some Paragraph ->
  tidy markers (out st) -> tidy markers (out (store_paragraph text st)).
Proof.
  intros Hl Hcat [Ho [[Hv [Hm Hp]] Hn]].
  split; [apply store_paragraph_origin; assumption|].
  unfold store_paragraph. destruct (mem text (paragraphs (out st))) eqn:E;
    [split; [repeat split|]; assumption|].
  apply mem_false_In in E. split.
  - repeat split; cbn [out verses meanings paragraphs]; auto.
    intros t Ht. apply in_app_or in Ht.
    destruct Ht as [Ht|[<-|[]]]; auto.
  - unfold filed. cbn [out sections]. apply file_under_NoDup; [assumption|].
    intros Hin. destruct (Ho _ Hin) as [[v [H1 H2]]|[[m [H1 H2]]|H1]].
    + apply Hv in H1. subst text. unfold tag_verse in Hcat.
      rewrite (tagged_verse_is_verse _ _ _ H1) in Hcat. discriminate.
    + subst text.
      destruct (tagged_meaning_category markers m Hl); congruence.
    + contradiction.
Qed.

Lemma step_tidy (markers : list str) (st : walk) (e : node) :
  lower_keeps_tag ->
  tidy markers (out st) -> tidy markers (out (classify_step markers st e)).
Proof.
  intros Hl H. rewrite step_spec.
  destruct (len (cleaned e) <? 10); [assumption|].
  destruct (name_in headings e).
  - destruct H as [Ho [Hs Hn]]. split; [|split].
    + intros seg. unfold open_section, filed. simpl.
      destruct (has_section (cleaned e) (sections (out st)));
        [|rewrite new_section_filed]; apply Ho.
    + exact Hs.
    + unfold open_section, filed. simpl.
      destruct (has_section (cleaned e) (sections (out st)));
        [|rewrite new_section_filed]; exact Hn.
  - destruct (category_of markers (cleaned e)) as [[| |]|] eqn:Ecat;
      auto using store_verse_tidy, store_meaning_tidy, store_paragraph_tidy.
Qed.

Lemma walk_tidy (markers : list str) (elems : list node) :
  lower_keeps_tag ->
  forall st,
    tidy markers (out st) ->
    tidy markers (out (classify_all markers elems st)).
Proof.
  intros Hl. unfold classify_all.
  induction elems as [|e elems IH]; intros st H; [assumption|].
  simpl. apply IH, step_tidy; assumption.
Qed.

(** *** The extractors as a whole *)

Lemma generic_bucket (cat : category) (doc : soup) :
  bucket cat (extract_generic doc) =
  first_occurrences (texts_of devanagari_chars cat (generic_elements doc)).
Proof.
  rewrite <- fold_add_new_nil.
  pose proof (walk_bucket devanagari_chars cat (generic_elements doc)
                (start (lit "General"))) as H.
  destruct cat; exact H.
Qed.

Lemma generic_keys (doc : soup) :
  keys (extract_generic doc) =
  first_occurrences (heading_texts (generic_elements doc)).
Proof.
  rewrite <- fold_add_new_nil.
  change (keys (extract_generic doc))
    with (keys (out (classify_all devanagari_chars (generic_elements doc)
                       (start (lit "General"))))).
  apply walk_keys.
Qed.

Lemma In_generic_bucket (cat : category) (doc : soup) (t : str) :
  In t (bucket cat (extract_generic doc)) <->
  In t (candidate_texts (generic_elements doc)) /\
  category_eqb (category_of devanagari_chars t) cat = true.
Proof.
  rewrite generic_bucket, In_first_occurrences. unfold texts_of.
  apply filter_In.
Qed.

Lemma candidate_text_In (elems : list node) (e : node) :
  In e elems -> name_in headings e = false -> 10 <= len (cleaned e) ->
  In (cleaned e) (candidate_texts elems).
Proof.
  intros Hin Hh Hl. unfold candidate_texts. apply in_map, filter_In.
  split; [assumption|]. unfold candidate. rewrite Hh.
  apply Nat.leb_le in Hl. rewrite Hl. reflexivity.
Qed.

Lemma generic_filed_bound (doc : soup) :
  List.length (filed (extract_generic doc)) <= stored (extract_generic doc).
Proof.
  pose proof (walk_filed_bound devanagari_chars (generic_elements doc)
                (start (lit "General"))) as H.
  unfold extract_generic, with_full_text, filed, stored in *. simpl in *.
  lia.
Qed.

Lemma empty_origin : origin empty_content.
Proof. intros seg []. Qed.

(** A text that matches no rule is filed under no section either. *)
Lemma unclassified_not_filed (doc : soup) (t : str) :
  lower_keeps_tag ->
  category_of devanagari_chars t = None ->
  ~ In t (filed (extract_generic doc)).
Proof.
  intros Hl Hnone Hin.
  assert (Ho : origin (extract_generic doc)).
  { intros seg. apply (walk_origin devanagari_chars (generic_elements doc)
                         (start (lit "General")) empty_origin). }
  destruct (Ho t Hin) as [[v [Hv ->]]|[[m [Hm ->]]|Hp]].
  - apply (In_generic_bucket Verse) in Hv. destruct Hv as [_ Hv].
    apply category_eqb_eq in Hv.
    unfold tag_verse in Hnone.
    rewrite (tagged_verse_is_verse _ _ _ Hv) in Hnone. discriminate.
  - apply (tagged_meaning_is_classified devanagari_chars m Hl Hnone).
  - apply (In_generic_bucket Paragraph) in Hp. destruct Hp as [_ Hp].
    rewrite Hnone in Hp. discriminate.
Qed.

(** No segment is filed twice, under one section or under two. *)
Lemma generic_filed_NoDup (doc : soup) :
  lower_keeps_tag -> NoDup (filed (extract_generic doc)).
Proof.
  intros Hl.
  assert (H0 : tidy devanagari_chars (out (start (lit "General")))).
  { split; [apply empty_origin|]. split; [|constructor].
    repeat split; intros t []. }
  destruct (walk_tidy (generic_elements doc) Hl _ H0) as [_ [_ H]].
  exact H.
Qed.

Lemma no_heading_texts (elems : list node) :
  (forall e, In e elems -> name_in headings e = false) ->
  heading_texts elems = [].
Proof.
  intros H. unfold heading_texts.
  induction elems as [|e elems IH]; [reflexivity|]. cbn [filter].
  unfold section_heading at 1. rewrite (H e) by (left; reflexivity).
  cbn [andb]. apply IH. intros e' He'. apply H. right; assumption.
Qed.

Lemma keys_nil (c : content) : keys c = [] -> sections c = [].
Proof. unfold keys. destruct (sections c); [reflexivity | discriminate]. Qed.

Lemma extract_article_content_generic (doc : soup) :
  contains (lit "shiv-tandav-stotram") (soup_str rt doc) = false ->
  extract_article_content doc = extract_generic doc.
Proof. unfold extract_article_content. intros ->. reflexivity. Qed.

(** *** The loops of the specialised extractor under a fault *)

Lemma guarded_fault (step : walk -> node -> walk) (elems : list node) :
  forall k st,
    guarded step (Some k) elems st =
    if k <? List.length elems
    then Failed (fold_left step (firstn k elems) st)
    else Done (fold_left step elems st) (Some (k - List.length elems)).
Proof.
  induction elems as [|e elems IH]; intros k st; [destruct k; reflexivity|].
  destruct k as [|k]; [reflexivity|]. cbn [guarded]. rewrite IH. reflexivity.
Qed.

Lemma guarded_no_fault (step : walk -> node -> walk) (elems : list node) :
  forall st, guarded step None elems st = Done (fold_left step elems st) None.
Proof.
  induction elems as [|e elems IH]; intros st; [reflexivity|].
  cbn [guarded fold_left]. apply IH.
Qed.

Lemma step_full_text (markers : list str) (st : walk) (e : node) :
  full_text (out (classify_step markers st e)) = full_text (out st).
Proof.
  rewrite step_spec.
  destruct (len (cleaned e) <? 10); [reflexivity|].
  destruct (name_in headings e); [reflexivity|].
  unfold store_verse, store_meaning, store_paragraph.
  destruct (category_of markers (cleaned e)) as [[| |]|]; try reflexivity;
    match goal with
    | |- context [mem ?t ?l] => destruct (mem t l); reflexivity
    end.
Qed.

Lemma aggressive_step_full_text (st : walk) (e : node) :
  full_text (out (aggressive_step st e)) = full_text (out st).
Proof.
  unfold aggressive_step, store_verse.
  destruct (is_empty (strip (get_text e))); [reflexivity|].
  destruct ((50 <? len (clean_text (Some (get_text e)))) &&
            any_in [[2405%N]; [2404%N]; [2384%N]]
              (clean_text (Some (get_text e)))); [|reflexivity].
  destruct (mem (clean_text (Some (get_text e))) (verses (out st)));
    reflexivity.
Qed.

Lemma fold_full_text (step : walk -> node -> walk) :
  (forall st e, full_text (out (step st e)) = full_text (out st)) ->
  forall elems st,
    full_text (out (fold_left step elems st)) = full_text (out st).
Proof.
  intros H. induction elems as [|e elems IH]; intros st; [reflexivity|].
  simpl. rewrite IH. apply H.
Qed.

End Walk.

(** *** Closed pages *)

Definition plain_paragraph : str :=
  lit "An ordinary sentence of about forty letters".

(** A short line that ends with the double danda. *)
Definition verse_line : str := lit "Om namah shivaya " ++ [2405%N].

Definition long_heading : str := lit "A longer heading".

Definition el (name : string) (kids : list node) : node :=
  Elem (lit name) [] kids.

(** A short heading, a paragraph, a longer heading, a verse, and the
    paragraph once more. *)
Definition sample_page : soup :=
  document
    [ el "html"
        [ el "body"
            [ el "h1" [Text (lit "Intro")];
              el "p" [Text plain_paragraph];
              el "h2" [Text long_heading];
              el "p" [Text verse_line];
              el "p" [Text (lit "  An ordinary  sentence of about forty letters ")]
            ] ] ].

(** A page without headings. *)
Definition flat_page : soup :=
  document
    [ el "body"
        [ el "p" [Text plain_paragraph]; el "p" [Text verse_line];
          el "span" [Text (lit "a short remark")] ] ].

(** A page of the known template: the signature is in its markup. *)
Definition template_page : soup :=
  document
    [ Elem (lit "article") [(lit "id", lit "shiv-tandav-stotram")]
        [ el "p" [Text verse_line]; el "p" [Text plain_paragraph] ] ].

(** The reference runtime with an error of the DOM library at the second
    visit of the walk. *)
Definition faulty : runtime :=
  {| lower := ascii_lower; re_ieq := ascii_ieq;
     html_parser := fun content => Some (text_document content);
     soup_str := serialize; dom_fault := Some 1 |}.

(** The signature test of [extract_article_content] fails: the page is
    handled by the generic ruleset. *)
Definition generic_page (rt : runtime) (doc : soup) : Prop :=
  contains (lit "shiv-tandav-stotram") (soup_str rt doc) = false.

(** C4: for a non-heading element whose cleaned text has at least 10
    characters the classifier takes the first rule that matches, in the order
    verse (a marker or more than 50 characters), meaning (a marker word in
    the lower-cased text), paragraph (more than 30 characters); the text is
    then in that category's list and in no other, and a text that matches no
    rule is in no category list, nor under any section (given that
    [str.lower] keeps the tag of a filed meaning recognisable). *)
Theorem classification_precedence (rt : runtime) (doc : soup) (e : node) :
  generic_page rt doc ->
  In e (generic_elements doc) ->
  name_in headings e = false ->
  10 <= len (cleaned e) ->
  let c := extract_article_content rt doc in
  let t := cleaned e in
  category_of rt devanagari_chars t =
    (if any_in devanagari_chars t || (50 <? len t) then Some Verse
     else if any_in meaning_words (lower rt t) then Some Meaning
     else if 30 <? len t then Some Paragraph
     else None) /\
  match category_of rt devanagari_chars t with
  | Some Verse =>
      In t (verses c) /\ ~ In t (meanings c) /\ ~ In t (paragraphs c)
  | Some Meaning =>
      ~ In t (verses c) /\ In t (meanings c) /\ ~ In t (paragraphs c)
  | Some Paragraph =>
      ~ In t (verses c) /\ ~ In t (meanings c) /\ In t (paragraphs c)
  | None =>
      ~ In t (verses c) /\ ~ In t (meanings c) /\ ~ In t (paragraphs c) /\
      (lower_keeps_tag rt -> ~ In t (filed c))
  end.
Proof.
  intros Hg Hin Hh Hl c t. split; [reflexivity|].
  subst c. rewrite (@extract_article_content_generic rt doc Hg).
  pose proof (@candidate_text_In _ _ Hin Hh Hl) as Hc. fold t in Hc.
  assert (Hyes : forall cat,
            category_eqb (category_of rt devanagari_chars t) cat = true ->
            In t (bucket cat (extract_generic rt doc))).
  { intros cat E. apply In_generic_bucket. split; assumption. }
  assert (Hno : forall cat,
            category_eqb (category_of rt devanagari_chars t) cat = false ->
            ~ In t (bucket cat (extract_generic rt doc))).
  { intros cat E H. apply In_generic_bucket in H. destruct H; congruence. }
  destruct (category_of rt devanagari_chars t) as [[| |]|] eqn:Ecat;
    repeat split;
    first [ intros Hkeep; apply unclassified_not_filed; assumption
          | apply (Hyes Verse); reflexivity
          | apply (Hyes Meaning); reflexivity
          | apply (Hyes Paragraph); reflexivity
          | apply (Hno Verse); reflexivity
          | apply (Hno Meaning); reflexivity
          | apply (Hno Paragraph); reflexivity ].
Qed.

Lemma reference_keeps_tag : lower_keeps_tag reference.
Proof. intros s. vm_compute. reflexivity. Defined.

Lemma classification_precedence_witness :
  (let e := el "p" [Text plain_paragraph] in
   let c := extract_article_content reference sample_page in
   ~ In (cleaned e) (verses c) /\ ~ In (cleaned e) (meanings c) /\
   In (cleaned e) (paragraphs c)) /\
  (let e := el "span" [Text (lit "a short remark")] in
   let c := extract_article_content reference flat_page in
   ~ In (cleaned e) (verses c) /\ ~ In (cleaned e) (meanings c) /\
   ~ In (cleaned e) (paragraphs c) /\ ~ In (cleaned e) (filed c)).
Proof.
  split.
  - intros e c.
    assert (Hg : generic_page reference sample_page)
      by (vm_compute; reflexivity).
    assert (Hin : In e (generic_elements sample_page))
      by (vm_compute; right; left; reflexivity).
    assert (Hh : name_in headings e = false) by (vm_compute; reflexivity).
    assert (Hl : 10 <= len (cleaned e)) by (vm_compute; lia).
    exact (proj2 (@classification_precedence reference sample_page e
                    Hg Hin Hh Hl)).
  - intros e c.
    assert (Hg : generic_page reference flat_page)
      by (vm_compute; reflexivity).
    assert (Hin : In e (generic_elements flat_page))
      by (vm_compute; right; right; left; reflexivity).
    assert (Hh : name_in headings e = false) by (vm_compute; reflexivity).
    assert (Hl : 10 <= len (cleaned e)) by (vm_compute; lia).
    destruct (proj2 (@classification_precedence reference flat_page e
                       Hg Hin Hh Hl)) as [H1 [H2 [H3 H4]]].
    repeat split; [exact H1 | exact H2 | exact H3 |].
    exact (H4 reference_keeps_tag).
Defined.

(** C5: no category list holds a text twice: each list is the list of first
    occurrences, in document order, of the texts of its category; a step of
    the walk that stores nothing in a category list files nothing under any
    section, so that the sections never hold more segments than the category
    lists hold texts, and no segment is filed twice (given that [str.lower]
    keeps the tag of a filed meaning recognisable). *)
Theorem deduplicated_lists (rt : runtime) (doc : soup) :
  generic_page rt doc ->
  let c := extract_article_content rt doc in
  let elems := generic_elements doc in
  (NoDup (verses c) /\ NoDup (meanings c) /\ NoDup (paragraphs c)) /\
  (verses c = first_occurrences (texts_of rt devanagari_chars Verse elems) /\
   meanings c =
     first_occurrences (texts_of rt devanagari_chars Meaning elems) /\
   paragraphs c =
     first_occurrences (texts_of rt devanagari_chars Paragraph elems)) /\
  (forall st e,
     stored (out (classify_step rt devanagari_chars st e)) = stored (out st) ->
     filed (out (classify_step rt devanagari_chars st e)) = filed (out st)) /\
  List.length (filed c) <= stored c /\
  (lower_keeps_tag rt -> NoDup (filed c)).
Proof.
  intros Hg c elems. subst c elems.
  rewrite (@extract_article_content_generic rt doc Hg).
  pose proof (@generic_bucket rt Verse doc) as HV.
  pose proof (@generic_bucket rt Meaning doc) as HM.
  pose proof (@generic_bucket rt Paragraph doc) as HP.
  cbn [bucket] in HV, HM, HP.
  split; [|split; [|split; [|split]]].
  - rewrite HV, HM, HP. repeat split; apply NoDup_first_occurrences.
  - repeat split; assumption.
  - intros st e. apply step_files_only_stored.
  - apply generic_filed_bound.
  - apply generic_filed_NoDup.
Qed.

Lemma deduplicated_lists_witness :
  let c := extract_article_content reference sample_page in
  paragraphs c = [plain_paragraph] /\
  filed (out (classify_step reference devanagari_chars
                {| out := c; current_section := long_heading |}
                (el "p" [Text plain_paragraph]))) = filed c /\
  NoDup (filed c).
Proof.
  intros c.
  assert (Hg : generic_page reference sample_page) by (vm_compute; reflexivity).
  destruct (@deduplicated_lists reference sample_page Hg)
    as [_ [[_ [_ HP]] [Hstep [_ Hnodup]]]].
  split; [|split].
  - fold c in HP. rewrite HP. vm_compute. reflexivity.
  - apply (Hstep {| out := c; current_section := long_heading |}
             (el "p" [Text plain_paragraph])).
    vm_compute. reflexivity.
  - exact (Hnodup reference_keeps_tag).
Defined.

(** C6, as the claim words it, fails: a heading whose text is shorter than
    10 characters is skipped before the heading test; it sets no current
    section and creates no entry, here for the heading "Intro". *)
Lemma short_heading_opens_no_section :
  let h := el "h1" [Text (lit "Intro")] in
  name_in headings h = true /\
  cleaned h = lit "Intro" /\
  classify_step reference devanagari_chars (start (lit "General")) h =
    start (lit "General") /\
  has_section (lit "Intro")
    (sections (extract_article_content reference sample_page)) = false.
Proof. vm_compute. repeat split. Qed.

(** C6 (amended): a heading element (levels 1 to 6) whose cleaned text has
    at least 10 characters sets the current section, creating an empty
    segment list for it if unseen; no heading element is classified as
    verse, meaning or paragraph; an element whose cleaned text is shorter
    than 10 characters, heading or not, is skipped; on a page without
    heading elements the section map stays empty and nothing is filed, while
    the category lists are filled from the other elements. *)
Theorem heading_opens_section (rt : runtime) :
  (forall markers st e,
     name_in headings e = true -> 10 <= len (cleaned e) ->
     let st' := classify_step rt markers st e in
     current_section st' = cleaned e /\
     sections (out st') =
       (if has_section (cleaned e) (sections (out st))
        then sections (out st)
        else sections (out st) ++ [(cleaned e, [])]) /\
     verses (out st') = verses (out st) /\
     meanings (out st') = meanings (out st) /\
     paragraphs (out st') = paragraphs (out st)) /\
  (forall markers st e,
     name_in headings e = true ->
     let st' := classify_step rt markers st e in
     verses (out st') = verses (out st) /\
     meanings (out st') = meanings (out st) /\
     paragraphs (out st') = paragraphs (out st)) /\
  (forall markers st e,
     len (cleaned e) < 10 -> classify_step rt markers st e = st) /\
  (forall doc,
     generic_page rt doc ->
     (forall e, In e (generic_elements doc) -> name_in headings e = false) ->
     let c := extract_article_content rt doc in
     let elems := generic_elements doc in
     sections c = [] /\ filed c = [] /\
     verses c = first_occurrences (texts_of rt devanagari_chars Verse elems) /\
     meanings c =
       first_occurrences (texts_of rt devanagari_chars Meaning elems) /\
     paragraphs c =
       first_occurrences (texts_of rt devanagari_chars Paragraph elems)).
Proof.
  split; [|split; [|split]].
  - intros markers st e Hh Hl st'. subst st'. rewrite step_spec.
    apply Nat.ltb_ge in Hl. rewrite Hl, Hh. unfold open_section. simpl.
    repeat split.
  - intros markers st e Hh st'. subst st'. rewrite step_spec, Hh.
    destruct (len (cleaned e) <? 10); repeat split.
  - intros markers st e Hl. rewrite step_spec.
    apply Nat.ltb_lt in Hl. rewrite Hl. reflexivity.
  - intros doc Hg Hnone c elems. subst c elems.
    rewrite (@extract_article_content_generic rt doc Hg).
    pose proof (@generic_keys rt doc) as Hk.
    rewrite (no_heading_texts _ Hnone) in Hk. apply keys_nil in Hk.
    split; [exact Hk|]. split; [unfold filed; rewrite Hk; reflexivity|].
    repeat split.
    + exact (@generic_bucket rt Verse doc).
    + exact (@generic_bucket rt Meaning doc).
    + exact (@generic_bucket rt Paragraph doc).
Qed.

Lemma heading_opens_section_witness :
  (let st' := classify_step reference devanagari_chars
                (start (lit "General")) (el "h2" [Text long_heading]) in
   current_section st' = long_heading /\
   sections (out st') = [(long_heading, [])]) /\
  verses (out (classify_step reference devanagari_chars
                 (start (lit "General")) (el "h2" [Text long_heading]))) =
    [] /\
  classify_step reference devanagari_chars (start (lit "General"))
    (el "h1" [Text (lit "Intro")]) = start (lit "General") /\
  (let c := extract_article_content reference flat_page in
   sections c = [] /\ verses c = [verse_line] /\
   paragraphs c = [plain_paragraph]).
Proof.
  destruct (heading_opens_section reference) as [Ha [Ha' [Hb Hc]]].
  split; [|split; [|split]].
  - destruct (Ha devanagari_chars (start (lit "General"))
                (el "h2" [Text long_heading]))
      as [H1 [H2 _]]; [reflexivity | vm_compute; lia |].
    split; [exact H1 | exact H2].
  - destruct (Ha' devanagari_chars (start (lit "General"))
                (el "h2" [Text long_heading])) as [H1 _]; [reflexivity|].
    exact H1.
  - apply Hb. vm_compute. lia.
  - destruct (Hc flat_page) as [H1 [_ [H2 [_ H3]]]].
    + vm_compute. reflexivity.
    + intros e He. vm_compute in He.
      destruct He as [<-|[<-|[<-|[]]]]; reflexivity.
    + split; [exact H1|]. split; [rewrite H2 | rewrite H3];
        vm_compute; reflexivity.
Defined.

(** C7: [full_text] is the join, by a blank line, of the VERSES block, the
    MEANINGS block and the SECTIONS block in this order, each present iff its
    source is non-empty; the sections come in the order in which their
    headings were first seen, each as its header followed by its segments;
    a page with no verse, no meaning and no section has the empty
    [full_text]. *)
Theorem full_text_layout (rt : runtime) (doc : soup) :
  generic_page rt doc ->
  let c := extract_article_content rt doc in
  full_text c =
    Some (join [NL; NL]
            (block (lit "VERSES:") (verses c) ++
             block (NL :: lit "MEANINGS:") (meanings c) ++
             sections_block (sections c))) /\
  map fst (sections c) =
    first_occurrences (heading_texts (generic_elements doc)) /\
  (verses c = [] -> meanings c = [] -> sections c = [] ->
   full_text c = Some []).
Proof.
  intros Hg c. subst c. rewrite (@extract_article_content_generic rt doc Hg).
  assert (H : full_text (extract_generic rt doc) =
              Some (join [NL; NL]
                      (block (lit "VERSES:") (verses (extract_generic rt doc))
                       ++ block (NL :: lit "MEANINGS:")
                            (meanings (extract_generic rt doc))
                       ++ sections_block (sections (extract_generic rt doc))))).
  { unfold extract_generic at 1, with_full_text, render_text.
    cbn [full_text]. rewrite full_text_parts_blocks. reflexivity. }
  split; [exact H|]. split; [apply generic_keys|].
  intros Hv Hm Hs. rewrite H, Hv, Hm, Hs. reflexivity.
Qed.

Lemma full_text_layout_witness :
  let c := extract_article_content reference sample_page in
  full_text c =
    Some (join [NL; NL]
            [ lit "VERSES:"; verse_line;
              NL :: lit "SECTIONS:";
              NL :: lit "--- A longer heading ---";
              lit "VERSE: " ++ verse_line ]) /\
  map fst (sections c) = [long_heading].
Proof.
  intros c.
  assert (Hg : generic_page reference sample_page) by (vm_compute; reflexivity).
  destruct (@full_text_layout reference sample_page Hg) as [H1 [H2 _]].
  fold c in H1, H2. split.
  - rewrite H1. vm_compute. reflexivity.
  - rewrite H2. vm_compute. reflexivity.
Defined.

(** C9, as the claim words it, fails: when the second visit of the walk
    raises, the specialised extractor returns the dictionary with the verse
    the first visit stored, not the empty record. *)
Lemma caught_error_keeps_stored_texts :
  let c := extract_article_content faulty template_page in
  contains (lit "shiv-tandav-stotram") (soup_str faulty template_page) = true /\
  verses c = [verse_line] /\ full_text c = None /\ c <> empty_content.
Proof. vm_compute. repeat split. discriminate. Qed.

(** C9 (amended): an error raised while the specialised extractor walks the
    DOM is caught inside the extractor, which returns the content record as
    filled by the visits before the failing one: the verses, meanings,
    paragraphs and sections stored so far (the empty record when the first
    visit fails) and no [full_text] entry.  [k] numbers the failing visit,
    through the first loop and then the second. *)
Theorem shiva_error_returns_content_so_far (rt : runtime) (doc : soup)
  (k : nat) :
  dom_fault rt = Some k ->
  let article := shiva_article rt doc in
  let first_loop := find_all shiva_tags article in
  let second_loop := find_all_tags article in
  let begin := start (lit "Shiva Tandav Stotram") in
  let st1 := classify_all rt devanagari_chars_shiva first_loop begin in
  let c := _extract_shiva_tandav_content rt doc in
  (k < List.length first_loop ->
   c = out (classify_all rt devanagari_chars_shiva (firstn k first_loop)
              begin) /\
   full_text c = None) /\
  (k = 0 -> first_loop <> [] -> c = empty_content) /\
  (List.length first_loop <= k -> verses (out st1) = [] ->
   k - List.length first_loop < List.length second_loop ->
   c = out (fold_left (aggressive_step)
              (firstn (k - List.length first_loop) second_loop) st1) /\
   full_text c = None).
Proof.
  intros Hf article first_loop second_loop begin st1 c.
  assert (Hc : c =
    match (if k <? List.length first_loop
           then Failed (fold_left (classify_step rt devanagari_chars_shiva)
                          (firstn k first_loop) begin)
           else Done st1 (Some (k - List.length first_loop))) with
    | Failed st => out st
    | Done st fault_left =>
        if is_empty_list (verses (out st))
        then match guarded aggressive_step fault_left second_loop st with
             | Failed st' => out st'
             | Done st' _ => with_full_text (out st')
             end
        else with_full_text (out st)
    end).
  { subst c. unfold _extract_shiva_tandav_content. rewrite Hf.
    rewrite guarded_fault. reflexivity. }
  split; [|split].
  - intros Hk. apply Nat.ltb_lt in Hk. rewrite Hk in Hc. rewrite Hc.
    split; [reflexivity|].
    rewrite (@fold_full_text _ (step_full_text rt devanagari_chars_shiva)).
    reflexivity.
  - intros -> Hne. destruct first_loop as [|e r] eqn:E; [congruence|].
    rewrite Hc. reflexivity.
  - intros Hk Hv Hk2.
    assert (Hk' : (k <? List.length first_loop) = false)
      by (apply Nat.ltb_ge; assumption).
    rewrite Hk' in Hc. rewrite Hv in Hc. cbn [is_empty_list] in Hc.
    rewrite guarded_fault in Hc. apply Nat.ltb_lt in Hk2. rewrite Hk2 in Hc.
    rewrite Hc. split; [reflexivity|].
    rewrite (@fold_full_text _ aggressive_step_full_text).
    apply (@fold_full_text _ (step_full_text rt devanagari_chars_shiva)).
Qed.

Lemma shiva_error_returns_content_so_far_witness :
  let c := _extract_shiva_tandav_content faulty template_page in
  c = {| verses := [verse_line]; meanings := []; paragraphs := [];
         sections := []; full_text := None |}.
Proof.
  intros c.
  assert (Hf : dom_fault faulty = Some 1) by reflexivity.
  destruct (@shiva_error_returns_content_so_far faulty template_page 1 Hf)
    as [H _].
  destruct H as [H _]; [vm_compute; lia|].
  subst c. rewrite H. vm_compute. reflexivity.
Defined.

(** C10: [clean_text] is idempotent and maps the empty string, and [None],
    to the empty string; every text the extractor stores, in a category
    list or under a section, is a fixed point of [clean_text]. *)
Theorem clean_text_idempotent :
  (forall text, clean_text (Some (clean_text text)) = clean_text text) /\
  clean_text (Some []) = [] /\
  clean_text None = [] /\
  (forall rt doc t,
     let c := extract_article_content rt doc in
     In t (verses c) \/ In t (meanings c) \/ In t (paragraphs c) \/
     In t (filed c) ->
     clean_text (Some t) = t).
Proof.
  split; [exact clean_text_idem|]. split; [reflexivity|].
  split; [reflexivity|].
  intros rt doc t c. apply extract_clean.
Qed.

Lemma clean_text_idempotent_witness :
  clean_text (Some (lit "VERSE: " ++ verse_line)) = lit "VERSE: " ++ verse_line.
Proof.
  destruct clean_text_idempotent as [_ [_ [_ H]]].
  apply (H reference sample_page). right; right; right.
  vm_compute. left; reflexivity.
Defined.

End Classifier.

(** ** The page report: [scrape_example] *)

Module Report.
Import PyStr Dom Runtime Fetch Classifier.

(** The dictionary [page_data]; [full_text] and [meta_description] are
    [None] when the key is absent. *)
Record page_data : Type := {
  url : str;
  title : str;
  scraped_at : str;
  pd_verses : list str;
  pd_meanings : list str;
  pd_paragraphs : list str;
  pd_sections : list (str * list str);
  pd_full_text : option str;
  meta_description : option str;
  num_links : nat;
  num_images : nat;
  num_paragraphs : nat;
  num_verses : nat;
  num_sections : nat;
  content_preview : str
}.

(** [soup.title.string], cleaned, when there is a title with a non-empty
    string; else the empty string. *)
Definition page_title (doc : soup) : str :=
  match find (lit "title") doc with
  | Some t =>
      match node_string t with
      | Some (c :: s) => clean_text (Some (c :: s))
      | _ => []
      end
  | None => []
  end.

(** [title or 'No title found'] *)
Definition title_or_default (t : str) : str :=
  match t with
  | [] => lit "No title found"
  | _ :: _ => t
  end.

Definition page_meta_description (doc : soup) : option str :=
  let meta_desc :=
    match find_meta (lit "name") (lit "description") doc with
    | Some m => Some m
    | None => find_meta (lit "property") (lit "og:description") doc
    end in
  match meta_desc with
  | Some m =>
      match attr (lit "content") m with
      | Some v => Some (clean_text (Some v))
      | None => None
      end
  | None => None
  end.

(** [content.get('full_text', '')] *)
Definition full_text_or_empty (c : content) : str :=
  match full_text c with
  | Some s => s
  | None => []
  end.

(** [s[:1000] + ('...' if len(s) > 1000 else '')] *)
Definition preview (s : str) : str :=
  firstn 1000 s ++ (if 1000 <? len s then lit "..." else []).

Section Builder.

Variable rt : runtime.

(** The record built once the page is there; [now] is
    [datetime.now().isoformat()]. *)
Definition build_report (page_url now : str) (doc : soup) : page_data :=
  let content := extract_article_content rt doc in
  {| url := page_url;
     title := title_or_default (page_title doc);
     scraped_at := now;
     pd_verses := verses content;
     pd_meanings := meanings content;
     pd_paragraphs := paragraphs content;
     pd_sections := sections content;
     pd_full_text := full_text content;
     meta_description := page_meta_description doc;
     num_links := List.length (find_all [lit "a"] doc);
     num_images := List.length (find_all [lit "img"] doc);
     num_paragraphs := List.length (paragraphs content);
     num_verses := List.length (verses content);
     num_sections := List.length (sections content);
     content_preview := preview (full_text_or_empty content) |}.

Variable w : world.
Variable cfg : config.

(** Writing [debug/page_source.html]. *)
Definition write_page_source (markup : str) : M unit :=
  match save_page_source w markup with
  | Some e => raise e
  | None => log SavedPage
  end.

(** [scrape_example]: every error is caught and gives the empty list. *)
Definition scrape_example (page_url now : str) : M (list page_data) :=
  try_except
    (bind (get_page rt w cfg 3) (fun r =>
       match r with
       | None => ret []
       | Some doc =>
           bind (write_page_source (soup_str rt doc)) (fun _ =>
             ret [build_report page_url now doc])
       end))
    (ret []).

Lemma scrape_example_reports (page_url now : str) (doc : soup)
  (s s' : state) :
  get_page rt w cfg 3 s = (Ret (Some doc), s') ->
  save_page_source w (soup_str rt doc) = None ->
  scrape_example page_url now s =
  (Ret [build_report page_url now doc], emit SavedPage s').
Proof.
  intros Hget Hsave.
  unfold scrape_example, try_except, bind, write_page_source.
  rewrite Hget, Hsave. reflexivity.
Qed.

(** Whatever the adapters raise, [scrape_example] returns a list. *)
Lemma scrape_example_returns (page_url now : str) :
  returns (scrape_example page_url now).
Proof.
  intros s. unfold scrape_example, try_except.
  destruct (bind (get_page rt w cfg 3)
              (fun r =>
                 match r with
                 | Some doc =>
                     bind (write_page_source (soup_str rt doc))
                       (fun _ => ret [build_report page_url now doc])
                 | None => ret []
                 end) s) as [[l|e] s1]; eexists _, _; reflexivity.
Qed.

(** [scrape_example] returns no report, or the one report built from the
    page that [get_page] returned. *)
Lemma scrape_example_shape (page_url now : str) (s : state) :
  exists s',
    scrape_example page_url now s = (Ret [], s') \/
    exists doc,
      scrape_example page_url now s =
      (Ret [build_report page_url now doc], s').
Proof.
  unfold scrape_example, try_except, bind, write_page_source.
  destruct (get_page rt w cfg 3 s) as [[[doc|]|e] s1].
  - destruct (save_page_source w (soup_str rt doc)) as [e|].
    + exists s1. left. reflexivity.
    + eexists. right. exists doc. reflexivity.
  - exists s1. left. reflexivity.
  - exists s1. left. reflexivity.
Qed.

Lemma preview_short (s : str) : len s <= 1000 -> preview s = s.
Proof.
  intros H. unfold preview.
  assert (E : (1000 <? len s) = false) by (apply Nat.ltb_ge; assumption).
  rewrite E, app_nil_r. apply firstn_all2. assumption.
Qed.

Lemma preview_long (s : str) :
  1000 < len s ->
  preview s = firstn 1000 s ++ lit "..." /\ len (preview s) = 1003.
Proof.
  intros H. unfold preview.
  assert (E : (1000 <? len s) = true) by (apply Nat.ltb_lt; assumption).
  rewrite E. split; [reflexivity|].
  unfold len in *. rewrite length_app, length_firstn, Nat.min_l by lia.
  replace (List.length (lit "...")) with 3 by reflexivity. lia.
Qed.

End Builder.

(** A page whose only text is a verse of [n] letters [x]: its [full_text]
    has [n + 9] characters. *)
Definition verse_page (n : nat) : soup :=
  document [ el "body" [ el "p" [Text (repeat 120%N n)] ] ].

(** C8: [content_preview] is the first 1000 characters of [full_text],
    followed by the marker [...] iff [full_text] has more than 1000
    characters: at 1000 characters the preview is [full_text] itself, at 1001
    it is the first 1000 characters and the marker; [num_verses],
    [num_paragraphs] and [num_sections] are the lengths of the classifier's
    verses, paragraphs and sections; this record is what [scrape_example]
    returns once [get_page] has returned the page. *)
Theorem preview_and_counts (rt : runtime) (page_url now : str) (doc : soup) :
  let pd := build_report rt page_url now doc in
  let c := extract_article_content rt doc in
  let ft := full_text_or_empty c in
  content_preview pd =
    firstn 1000 ft ++ (if 1000 <? len ft then lit "..." else []) /\
  (len ft = 1000 -> content_preview pd = ft) /\
  (len ft = 1001 ->
   content_preview pd = firstn 1000 ft ++ lit "..." /\
   len (content_preview pd) = 1003) /\
  (len ft <= 1000 -> content_preview pd = ft) /\
  (1000 < len ft -> content_preview pd = firstn 1000 ft ++ lit "...") /\
  num_verses pd = List.length (verses c) /\
  num_paragraphs pd = List.length (paragraphs c) /\
  num_sections pd = List.length (sections c) /\
  (forall w cfg s,
     fst (get_page rt w cfg 3 s) = Ret (Some doc) ->
     save_page_source w (soup_str rt doc) = None ->
     fst (scrape_example rt w cfg page_url now s) = Ret [pd]).
Proof.
  intros pd c ft. subst pd. cbn [content_preview num_verses num_paragraphs
    num_sections build_report]. fold c. fold ft.
  split; [reflexivity|].
  split; [intros H; apply preview_short; lia|].
  split; [intros H; apply preview_long; lia|].
  split; [apply preview_short|].
  split; [intros H; apply preview_long; assumption|].
  repeat split.
  intros w cfg s Hget Hsave.
  destruct (get_page rt w cfg 3 s) as [o s1] eqn:E. simpl in Hget. subst o.
  rewrite (@scrape_example_reports rt w cfg page_url now doc s s1 E Hsave).
  reflexivity.
Qed.

Lemma preview_and_counts_witness :
  (let c := extract_article_content reference (verse_page 991) in
   content_preview (build_report reference (lit "u") (lit "now")
                      (verse_page 991)) = full_text_or_empty c) /\
  len (content_preview (build_report reference (lit "u") (lit "now")
                          (verse_page 992))) = 1003 /\
  fst (scrape_example reference (serving plain_page) http_only
         (lit "u") (lit "now") init) =
    Ret [build_report reference (lit "u") (lit "now")
           (text_document plain_page)].
Proof.
  split; [|split].
  - intros c.
    destruct (preview_and_counts reference (lit "u") (lit "now")
                (verse_page 991)) as [_ [H _]].
    apply H. vm_compute. reflexivity.
  - destruct (preview_and_counts reference (lit "u") (lit "now")
                (verse_page 992)) as [_ [_ [H _]]].
    apply H. vm_compute. reflexivity.
  - destruct (preview_and_counts reference (lit "u") (lit "now")
                (text_document plain_page))
      as [_ [_ [_ [_ [_ [_ [_ [_ H]]]]]]]].
    apply H; vm_compute; reflexivity.
Defined.

End Report.

(** ** More on [clean_text] *)

Module CleanTextFacts.
Import PyStr.

(** The substitution of whitespace runs does not change the words. *)
Lemma split_re_sub_ws (t : str) :
  (forall w, split_from w (re_sub_ws false t) = split_from w t) /\
  split_from [] (re_sub_ws true t) = split_from [] t.
Proof.
  induction t as [|c r [IH1 IH2]]; [split; reflexivity|].
  split.
  - intros w. simpl. destruct (isspace c) eqn:E.
    + rewrite split_from_SP, IH2. reflexivity.
    + simpl. rewrite E. apply IH1.
  - simpl. destruct (isspace c) eqn:E.
    + simpl. exact IH2.
    + simpl. rewrite E. apply IH1.
Qed.

Lemma split_lstrip (t : str) : split_from [] (lstrip t) = split_from [] t.
Proof.
  induction t as [|c r IH]; [reflexivity|]. simpl.
  destruct (isspace c) eqn:E; [exact IH|]. simpl. rewrite E. reflexivity.
Qed.

Lemma split_rstrip (t : str) :
  forall w, split_from w (rstrip t) = split_from w t.
Proof.
  induction t as [|c r IH]; intros w; [reflexivity|].
  cbn [rstrip]. destruct (rstrip r) as [|d r'] eqn:Er.
  - cbn [split_from]. destruct (isspace c) eqn:E.
    + rewrite <- IH. simpl. rewrite app_nil_r. reflexivity.
    + cbn [split_from]. rewrite E. rewrite <- IH. reflexivity.
  - cbn [split_from]. destruct (isspace c); rewrite <- IH; reflexivity.
Qed.

Lemma split_strip (t : str) : split (strip t) = split t.
Proof. unfold split, strip. rewrite split_rstrip. apply split_lstrip. Qed.

Lemma clean_text_split (t : str) : clean_text (Some t) = join [SP] (split t).
Proof.
  destruct t as [|c r]; [reflexivity|]. unfold clean_text.
  rewrite split_strip. unfold split.
  rewrite (proj1 (split_re_sub_ws (c :: r))). reflexivity.
Qed.

Lemma join_flush_length (w : str) (l : list str) :
  List.length (join [SP] (flush w ++ l)) <=
  List.length w + S (List.length (join [SP] l)).
Proof.
  destruct w as [|c w]; [simpl; lia|].
  cbn [flush app]. destruct l as [|x l].
  - cbn [join]. lia.
  - change (join [SP] ((c :: w) :: x :: l))
      with ((c :: w) ++ SP :: join [SP] (x :: l)).
    rewrite length_app. simpl. lia.
Qed.

Lemma split_from_length (t : str) :
  forall w,
    List.length (join [SP] (split_from w t)) <=
    List.length w + List.length t.
Proof.
  induction t as [|c r IH]; intros w.
  - simpl. destruct w; simpl; lia.
  - cbn [split_from]. destruct (isspace c).
    + pose proof (join_flush_length w (split_from [] r)) as H.
      specialize (IH []). simpl in *. lia.
    + specialize (IH (w ++ [c])). rewrite length_app in IH. simpl in *. lia.
Qed.

Lemma split_from_nil (t : str) :
  forall w,
    split_from w t = [] -> w = [] /\ Forall (fun c => isspace c = true) t.
Proof.
  induction t as [|c r IH]; intros w; cbn [split_from].
  - destruct w; [split; [reflexivity | constructor] | discriminate].
  - destruct (isspace c) eqn:E.
    + intros H. apply app_eq_nil in H. destruct H as [Hw Hr].
      destruct (IH [] Hr) as [_ Hall].
      split; [destruct w; [reflexivity | discriminate]|].
      constructor; assumption.
    + intros H. apply IH in H. destruct H as [H _].
      apply app_eq_nil in H. destruct H; discriminate.
Qed.

Lemma blank_strip (t : str) :
  Forall (fun c => isspace c = true) t -> strip t = [].
Proof.
  intros H. unfold strip.
  assert (E : lstrip t = []).
  { induction H as [|c t Hc _ IH]; [reflexivity|]. simpl. rewrite Hc.
    exact IH. }
  rewrite E. reflexivity.
Qed.

Lemma join_words_nil (ws : list str) :
  Forall word ws -> join [SP] ws = [] -> ws = [].
Proof.
  intros H E. destruct ws as [|x r]; [reflexivity|].
  inversion H as [|? ? Hx _]; subst.
  destruct (join_word_head r Hx) as [c [t [E' _]]]. congruence.
Qed.

(** X1: the result of [clean_text] is the words of the text, that is its
    maximal runs of non-whitespace, joined by single spaces: the
    substitution and the [strip] of the source change nothing in it.  So the
    result neither starts nor ends with whitespace and holds no whitespace
    but single spaces between words. *)
Theorem clean_text_is_join_of_words (t : str) :
  clean_text (Some t) = join [SP] (split t) /\
  Forall word (split t).
Proof. split; [apply clean_text_split | apply split_words]. Qed.

Lemma clean_text_empty_iff (t : str) :
  clean_text (Some t) = [] <-> strip t = [].
Proof.
  split; [|apply clean_text_blank].
  rewrite clean_text_split. intros E.
  apply join_words_nil in E; [|apply split_words].
  apply split_from_nil in E. apply blank_strip, E.
Qed.

(** X2: [clean_text] never lengthens a text, and its result is empty
    exactly when the text is blank (empty after [strip]). *)
Theorem clean_text_shrinks (t : str) :
  len (clean_text (Some t)) <= len t /\
  (clean_text (Some t) = [] <-> strip t = []).
Proof.
  split.
  - rewrite clean_text_split. apply (split_from_length t []).
  - apply clean_text_empty_iff.
Qed.

End CleanTextFacts.

(** ** More on fetching *)

Module FetchFacts.
Import PyStr Dom Runtime Fetch.

(** The page was parsed from a response that passed the length check and
    the blocklist check on its lower-cased content. *)
Definition passed (rt : runtime) (doc : soup) : Prop :=
  exists text,
    html_parser rt text = Some doc /\ 1000 <= len text /\
    blocked_raw rt text = false.

(** What [__init__] can meet when it sets the browser up: all steps
    succeed; or a step raises, before [self.page] is assigned (the launch,
    the context, the page itself) or after it ([set_extra_http_headers]). *)
Inductive launch : Type :=
| Launched
| LaunchFailed (page_assigned : bool).

(** [__init__]: the handler of a failed set-up turns [use_playwright] off
    and leaves the attributes assigned so far. *)
Definition __init__ (use_playwright use_scrapingbee : bool)
  (scrapingbee_api_key : option str) (outcome : launch) : config :=
  {| Fetch.use_playwright :=
       use_playwright &&
       match outcome with Launched => true | LaunchFailed _ => false end;
     page :=
       use_playwright &&
       match outcome with
       | Launched => true
       | LaunchFailed assigned => assigned
       end;
     Fetch.use_scrapingbee := use_scrapingbee;
     Fetch.scrapingbee_api_key := scrapingbee_api_key |}.

Lemma accepts_raw_passed (rt : runtime) (t : str) (doc : soup) :
  accepts_raw rt t = true -> html_parser rt t = Some doc -> passed rt doc.
Proof.
  unfold accepts_raw. intros H Hp. apply andb_true_iff in H.
  destruct H as [Hl Hb]. exists t. split; [exact Hp|].
  split; [apply Nat.leb_le; exact Hl|].
  destruct (blocked_raw rt t); [discriminate | reflexivity].
Qed.

Lemma verdict_passed (rt : runtime) (t : str) (doc : soup) :
  full_verdict rt t = Accepted doc -> passed rt doc.
Proof.
  intros H. apply full_verdict_accepted in H. destruct H as [Hr [Hp _]].
  exact (@accepts_raw_passed rt t doc Hr Hp).
Qed.

Definition page_passed (rt : runtime) (r : option soup) : Prop :=
  forall doc, r = Some doc -> passed rt doc.

Lemma for_each_result {R : Type} (P : R -> Prop)
  (body : nat -> M (ctl R)) (attempts : list nat) (after : M R) :
  (forall a s r s', body a s = (Ret (Return r), s') -> P r) ->
  (forall s r s', after s = (Ret r, s') -> P r) ->
  forall s r s', for_each body attempts after s = (Ret r, s') -> P r.
Proof.
  intros Hb Ha. induction attempts as [|k rest IH]; intros s r s'; simpl.
  - apply Ha.
  - unfold bind. destruct (body k s) as [[[r0|]|e] s1] eqn:E.
    + unfold ret. intros H. injection H as <- _. exact (Hb _ _ _ _ E).
    + apply IH.
    + discriminate.
Qed.

Lemma none_passed (rt : runtime) : page_passed rt None.
Proof. intros doc H. discriminate. Qed.

Lemma requests_passed (rt : runtime) (w : world) (m : nat)
  (s : state) (r : option soup) (s' : state) :
  _get_page_with_requests rt w m s = (Ret r, s') -> page_passed rt r.
Proof.
  unfold _get_page_with_requests. apply for_each_result.
  - intros a s0 r0 s0'. rewrite requests_attempt_step. cbv zeta.
    unfold request_handler.
    destruct (http_get w (http_calls s0)) as [[|]|t].
    + destruct (a =? m - 1); intros H; [|discriminate].
      injection H as <- _. apply none_passed.
    + discriminate.
    + destruct (full_verdict rt t) as [| |d] eqn:Ea; try discriminate.
      destruct (save_debug w HttpFetch t) as [[|]|].
      * destruct (a =? m - 1); intros H; [|discriminate].
        injection H as <- _. apply none_passed.
      * discriminate.
      * intros H. injection H as <- _. intros doc Hd. injection Hd as <-.
        exact (@verdict_passed rt t d Ea).
  - intros s0 r0 s0' H. injection H as <- _. apply none_passed.
Qed.

Lemma scrapingbee_passed (rt : runtime) (w : world) (cfg : config) (m : nat)
  (s : state) (r : option soup) (s' : state) :
  _get_page_with_scrapingbee rt w cfg m s = (Ret r, s') -> page_passed rt r.
Proof.
  unfold _get_page_with_scrapingbee.
  destruct (negb (use_scrapingbee cfg) || negb (has_key cfg)).
  - intros H. injection H as <- _. apply none_passed.
  - apply for_each_result.
    + intros a s0 r0 s0'. rewrite scrapingbee_attempt_step. cbv zeta.
      destruct (bee_get w (bee_calls s0)) as [e|t]; [discriminate|].
      destruct (accepts_raw rt t) eqn:Ea; [|discriminate].
      destruct (save_debug w ProxyRender t); [discriminate|].
      destruct (html_parser rt t) as [d|] eqn:Ep; [|discriminate].
      intros H. injection H as <- _. intros doc Hd. injection Hd as <-.
      exact (@accepts_raw_passed rt t d Ea Ep).
    + intros s0 r0 s0' H. injection H as <- _. apply none_passed.
Qed.

Lemma playwright_passed (rt : runtime) (w : world) (cfg : config) (m : nat)
  (s : state) (r : option soup) (s' : state) :
  _get_page_with_playwright rt w cfg m s = (Ret r, s') -> page_passed rt r.
Proof.
  unfold _get_page_with_playwright.
  destruct (negb (use_playwright cfg) || negb (page cfg)).
  - intros H. injection H as <- _. apply none_passed.
  - apply for_each_result.
    + assert (Hh : forall a s1 r0 s1',
                playwright_handler rt w m a s1 = (Ret (Return r0), s1') ->
                page_passed rt r0).
      { intros a s1 r0 s1'. unfold playwright_handler.
        destruct (a =? m - 1); [|discriminate].
        unfold bind.
        destruct (_get_page_with_requests rt w m s1) as [[r1|e] s2] eqn:E;
          [|discriminate].
        intros H. injection H as <- _. exact (requests_passed _ _ _ _ E). }
      intros a s0 r0 s0'. rewrite playwright_attempt_step.
      destruct (browser_render w (browser_calls s0)) as [e|e|h];
        try apply Hh.
      destruct (save_debug w BrowserRender h); [apply Hh|].
      cbv zeta.
      destruct (full_verdict rt h) as [| |d] eqn:Ea;
        [discriminate | apply Hh |].
      intros H. injection H as <- _. intros doc Hd. injection Hd as <-.
      exact (@verdict_passed rt h d Ea).
    + intros s0 r0 s0' H. injection H as <- _. apply none_passed.
Qed.

Lemma get_page_passed (rt : runtime) (w : world) (cfg : config) (m : nat)
  (s : state) (doc : soup) :
  fst (get_page rt w cfg m s) = Ret (Some doc) -> passed rt doc.
Proof.
  unfold get_page, bind.
  destruct ((if use_playwright cfg && page cfg
             then _get_page_with_playwright rt w cfg m
             else ret None) s) as [[[d1|]|e] s1] eqn:E1.
  - simpl. intros H. injection H as <-.
    destruct (use_playwright cfg && page cfg).
    + exact (playwright_passed _ _ _ _ _ E1 eq_refl).
    + discriminate.
  - destruct (_get_page_with_requests rt w m s1) as [[[d2|]|e] s2] eqn:E2.
    + simpl. intros H. injection H as <-.
      exact (requests_passed _ _ _ _ E2 eq_refl).
    + destruct (use_scrapingbee cfg && has_key cfg).
      * destruct (_get_page_with_scrapingbee rt w cfg m s2)
          as [[r3|e] s3] eqn:E3; simpl; [|discriminate].
        intros H. injection H as ->.
        exact (scrapingbee_passed _ _ _ _ _ E3 eq_refl).
      * discriminate.
    + discriminate.
  - discriminate.
Qed.

(** X3: a page that [get_page] returns was parsed from a response of at
    least 1000 characters whose lower-cased content holds none of the
    blocked terms, whichever adapter supplied it and whatever happened
    before. *)
Theorem get_page_returns_passed_pages (rt : runtime) (w : world)
  (cfg : config) (m : nat) (s : state) (doc : soup) :
  fst (get_page rt w cfg m s) = Ret (Some doc) ->
  exists text,
    html_parser rt text = Some doc /\ 1000 <= len text /\
    any_in blocklist (lower rt text) = false.
Proof. apply get_page_passed. Qed.

Lemma get_page_returns_passed_pages_witness :
  exists text,
    html_parser reference text = Some (text_document plain_page) /\
    1000 <= len text /\
    any_in blocklist (lower reference text) = false.
Proof.
  apply (@get_page_returns_passed_pages reference flaky_once all_adapters 3
           init (text_document plain_page)).
  vm_compute. reflexivity.
Defined.

(** X4: as long as the HTTP adapter meets no error outside
    [RequestException], neither from the GET, nor from its debug copy, nor
    from the parser on a response that passed the checks on its raw
    content, [get_page] raises nothing: from every state it returns a page
    or [None], whatever the browser and the rendering service raise or
    serve.  The condition on the parser is needed: with the browser adapter
    off, a first response that passes the checks on its raw content and
    that the parser rejects makes [get_page] raise. *)
Theorem get_page_contains_transport_errors (rt : runtime) (w : world)
  (cfg : config) (m : nat) (s : state) :
  ((forall i, http_get w i <> Raises OtherException) ->
   (forall t, save_debug w HttpFetch t <> Some OtherException) ->
   (forall i t, http_get w i = Body t -> accepts_raw rt t = true ->
                html_parser rt t <> None) ->
   exists r s', get_page rt w cfg m s = (Ret r, s')) /\
  (forall t,
     0 < m -> use_playwright cfg && page cfg = false ->
     http_get w (http_calls s) = Body t ->
     accepts_raw rt t = true -> html_parser rt t = None ->
     fst (get_page rt w cfg m s) = Raise OtherException).
Proof.
  split.
  - intros H1 H2 H3.
    apply (@get_page_returns rt w cfg m (conj H1 (conj H2 H3))).
  - intros t Hm Hc Hget Hr Hp.
    apply (@get_page_unparsable rt w cfg m s t Hm Hc Hget).
    unfold full_verdict. rewrite Hr, Hp. reflexivity.
Qed.

Lemma get_page_contains_transport_errors_witness :
  (exists r s', get_page reference all_down all_adapters 3 init = (Ret r, s'))
  /\
  fst (get_page strict (serving garbled_page) http_only 3 init) =
    Raise OtherException.
Proof.
  split.
  - apply (proj1 (get_page_contains_transport_errors reference all_down
                    all_adapters 3 init)).
    + intros i. discriminate.
    + intros t. discriminate.
    + intros i t H. discriminate.
  - apply (proj2 (get_page_contains_transport_errors strict
                    (serving garbled_page) http_only 3 init) garbled_page);
      [lia | vm_compute; reflexivity ..].
Defined.

(** X5: [get_page] answers [None] only after the HTTP adapter has made
    [max_retries] GETs in its own turn, whatever the browser adapter did
    before: the fallback to plain HTTP is never skipped. *)
Theorem get_page_gives_up_after_http (rt : runtime) (w : world)
  (cfg : config) (m : nat) (s : state) :
  fst (get_page rt w cfg m s) = Ret None ->
  http_calls s + m <= http_calls (snd (get_page rt w cfg m s)).
Proof.
  destruct (get_page rt w cfg m s) as [o s'] eqn:E. simpl. intros ->.
  exact (@get_page_none_after_http rt w cfg m s s' E).
Qed.

Lemma get_page_gives_up_after_http_witness :
  http_calls init + 3 <=
  http_calls (snd (get_page reference all_down all_adapters 3 init)).
Proof.
  apply get_page_gives_up_after_http. vm_compute. reflexivity.
Defined.

(** X6: without [use_scrapingbee], or without a non-empty API key, no run
    of [get_page] calls the rendering service. *)
Theorem get_page_spares_unconfigured_proxy (rt : runtime) (w : world)
  (cfg : config) (m : nat) (s : state) :
  use_scrapingbee cfg = false \/ scrapingbee_api_key cfg = None \/
  scrapingbee_api_key cfg = Some [] ->
  bee_calls (snd (get_page rt w cfg m s)) = bee_calls s.
Proof.
  intros H. apply get_page_proxy_only_when_configured.
  unfold has_key. destruct H as [-> | [-> | ->]]; [reflexivity | |];
    apply andb_false_r.
Qed.

Lemma get_page_spares_unconfigured_proxy_witness :
  bee_calls (snd (get_page reference all_down http_only 3 init)) =
  bee_calls init.
Proof.
  apply get_page_spares_unconfigured_proxy. left. reflexivity.
Defined.

Lemma get_page_without_browser (rt : runtime) (w : world) (cfg : config)
  (m : nat) (s : state) :
  use_playwright cfg && page cfg = false ->
  browser_calls (snd (get_page rt w cfg m s)) = browser_calls s.
Proof.
  intros Hc. unfold get_page, bind. rewrite Hc. cbv [ret].
  pose proof (requests_frame_browser rt w m s) as H2.
  destruct (_get_page_with_requests rt w m s) as [[[doc|]|e] s2];
    simpl in *; try exact H2.
  destruct (use_scrapingbee cfg && has_key cfg); [|exact H2].
  rewrite scrapingbee_frame_browser. exact H2.
Qed.

(** X7: when the set-up of the browser fails in [__init__], at whatever
    step, or when the instance is built with [use_playwright=False], no run
    of [get_page] navigates: the browser adapter is disabled rather than
    left half set up. *)
Theorem failed_launch_disables_browser (rt : runtime) (w : world)
  (use_playwright use_scrapingbee : bool) (key : option str)
  (assigned : bool) (outcome : launch) (m : nat) (s : state) :
  browser_calls
    (snd (get_page rt w
            (__init__ use_playwright use_scrapingbee key
               (LaunchFailed assigned)) m s)) = browser_calls s /\
  browser_calls
    (snd (get_page rt w (__init__ false use_scrapingbee key outcome) m s)) =
  browser_calls s.
Proof.
  split; apply get_page_without_browser; simpl.
  - rewrite andb_false_r. reflexivity.
  - reflexivity.
Qed.

(** X8: with [max_retries = 0] no adapter makes any attempt: [get_page]
    returns [None] and leaves the state, and so the record of calls and
    waits, as it was. *)
Theorem get_page_without_retries (rt : runtime) (w : world) (cfg : config)
  (s : state) :
  get_page rt w cfg 0 s = (Ret None, s).
Proof.
  unfold get_page, bind, _get_page_with_playwright,
    _get_page_with_scrapingbee, _get_page_with_requests, range.
  cbn [seq for_each].
  destruct (use_playwright cfg && page cfg);
    destruct (negb (use_playwright cfg) || negb (page cfg));
    destruct (use_scrapingbee cfg && has_key cfg);
    destruct (negb (use_scrapingbee cfg) || negb (has_key cfg)); reflexivity.
Qed.

(** X9: the browser and the HTTP adapter take the same decision on every
    page, and every page they accept the proxy adapter accepts too. *)
Theorem browser_and_http_gates_agree (rt : runtime) (text : str) :
  browser_decision rt text = http_decision rt text /\
  (http_decision rt text = true -> proxy_decision rt text = true).
Proof.
  split.
  - rewrite browser_decision_gate, http_decision_gate. reflexivity.
  - rewrite proxy_decision_vs_http. intros H.
    apply andb_true_iff in H. tauto.
Qed.

Lemma browser_and_http_gates_agree_witness :
  proxy_decision reference plain_page = true.
Proof.
  apply (proj2 (browser_and_http_gates_agree reference plain_page)).
  vm_compute. reflexivity.
Defined.

(** Every run of the loop of the HTTP adapter, whatever the server does:
    it makes [j] attempts in a row and may end with the debug copy. *)
Lemma requests_any_run (rt : runtime) (w : world) (m : nat) :
  forall n a s,
    exists j tail,
      j <= n /\ (tail = [] \/ tail = [Saved HttpFetch]) /\
      trace (snd (for_each (requests_attempt rt w m) (seq a n) (ret None) s))
      = trace s ++ flat_map http_events (seq a j) ++ tail /\
      http_calls
        (snd (for_each (requests_attempt rt w m) (seq a n) (ret None) s))
      = http_calls s + j.
Proof.
  induction n as [|n IH]; intros a s.
  - exists 0, []. simpl. rewrite app_nil_r. auto with arith.
  - assert (Hstop : forall o tail,
              tail = [] \/ tail = [Saved HttpFetch] ->
              forall s2,
                trace s2 = (trace s ++ http_events a) ++ tail ->
                http_calls s2 = S (http_calls s) ->
                exists j tail0,
                  j <= S n /\ (tail0 = [] \/ tail0 = [Saved HttpFetch]) /\
                  trace (snd (o : outcome (option soup), s2)) =
                  trace s ++ flat_map http_events (seq a j) ++ tail0 /\
                  http_calls (snd (o, s2)) = http_calls s + j).
    { intros o tail Ht s2 Htr Hc. exists 1, tail. simpl.
      rewrite Htr, Hc, app_nil_r, <- app_assoc.
      repeat split; [lia | assumption | lia]. }
    assert (Hnext :
              exists j tail0,
                j <= S n /\ (tail0 = [] \/ tail0 = [Saved HttpFetch]) /\
                trace (snd (for_each (requests_attempt rt w m) (seq (S a) n)
                              (ret None) (st_http s (http_events a)))) =
                trace s ++ flat_map http_events (seq a j) ++ tail0 /\
                http_calls
                  (snd (for_each (requests_attempt rt w m) (seq (S a) n)
                          (ret None) (st_http s (http_events a)))) =
                http_calls s + j).
    { destruct (IH (S a) (st_http s (http_events a)))
        as [j [tail [Hj [Ht [Htr Hc]]]]].
      exists (S j), tail. rewrite Htr, Hc. cbn [st_http trace http_calls].
      cbn [seq flat_map]. rewrite <- !app_assoc.
      repeat split; [lia | assumption | lia]. }
    cbn [seq for_each]. unfold bind. rewrite requests_attempt_step. cbv zeta.
    unfold request_handler.
    destruct (http_get w (http_calls s)) as [[|]|t].
    + destruct (a =? m - 1); [|exact Hnext].
      apply (Hstop _ []); [left; reflexivity | | reflexivity].
      cbn [st_http trace]. rewrite app_nil_r. reflexivity.
    + apply (Hstop _ []); [left; reflexivity | | reflexivity].
      cbn [st_http trace]. rewrite app_nil_r. reflexivity.
    + destruct (full_verdict rt t) as [| |doc]; [exact Hnext | |].
      { apply (Hstop _ []); [left; reflexivity | | reflexivity].
        cbn [st_http trace]. rewrite app_nil_r. reflexivity. }
      destruct (save_debug w HttpFetch t) as [[|]|].
      * destruct (a =? m - 1); [|exact Hnext].
        apply (Hstop _ []); [left; reflexivity | | reflexivity].
        cbn [st_http trace]. rewrite app_nil_r. reflexivity.
      * apply (Hstop _ []); [left; reflexivity | | reflexivity].
        cbn [st_http trace]. rewrite app_nil_r. reflexivity.
      * apply (Hstop _ [Saved HttpFetch]); [right; reflexivity | |];
          reflexivity.
Qed.

Lemma backoff_sum (k : nat) :
  list_sum (map (Nat.pow 2) (seq 1 k)) + 2 = 2 ^ S k.
Proof.
  induction k as [|k IH]; [reflexivity|].
  rewrite seq_S, map_app, list_sum_app.
  change (list_sum (map (Nat.pow 2) [1 + k])) with (2 ^ S k + 0).
  change (2 ^ S (S k)) with (2 * 2 ^ S k). lia.
Qed.

(** X10: in every run of the HTTP adapter, whatever the server answers, the
    [k]-th GET carries the User-Agent at index [k mod 5] of the pool and is
    preceded, for [k > 0], by one wait of [2 ^ k] seconds; at most
    [max_retries] GETs are made, and the waits add up to less than
    [2 ^ max_retries] seconds (6 seconds at most with the default 3). *)
Theorem http_adapter_schedule (rt : runtime) (w : world) (m : nat)
  (s : state) :
  exists tr j,
    trace (snd (_get_page_with_requests rt w m s)) = trace s ++ tr /\
    http_calls (snd (_get_page_with_requests rt w m s)) = http_calls s + j /\
    j <= m /\
    agents tr = map (fun k => nth (k mod 5) user_agents []) (seq 0 j) /\
    sleeps tr = map (Nat.pow 2) (seq 1 (j - 1)) /\
    list_sum (sleeps tr) < 2 ^ m.
Proof.
  unfold _get_page_with_requests, range.
  destruct (requests_any_run rt w m m 0 s) as [j [tail [Hj [Ht [Htr Hc]]]]].
  exists (flat_map http_events (seq 0 j) ++ tail), j.
  assert (Hs : sleeps (flat_map http_events (seq 0 j) ++ tail) =
               map (Nat.pow 2) (seq 1 (j - 1))).
  { rewrite sleeps_app.
    replace (sleeps tail) with (@nil nat)
      by (destruct Ht as [-> | ->]; reflexivity).
    rewrite app_nil_r. destruct j as [|j]; [reflexivity|].
    cbn [seq flat_map]. rewrite sleeps_app, http_events_sleeps by lia.
    rewrite Nat.sub_succ, Nat.sub_0_r. reflexivity. }
  split; [exact Htr|]. split; [exact Hc|]. split; [exact Hj|].
  split; [|split; [exact Hs|]].
  - rewrite agents_app, http_events_agents.
    replace (agents tail) with (@nil str)
      by (destruct Ht as [-> | ->]; reflexivity).
    apply app_nil_r.
  - rewrite Hs. destruct j as [|j].
    + simpl. apply Nat.lt_le_trans with (m := 1);
        [lia | apply Nat.neq_0_lt_0, Nat.pow_nonzero; discriminate].
    + rewrite Nat.sub_succ, Nat.sub_0_r.
      pose proof (backoff_sum j) as Hsum.
      assert (Hp : 2 ^ S j <= 2 ^ m)
        by (apply Nat.pow_le_mono_r; [discriminate | exact Hj]).
      lia.
Qed.

End FetchFacts.

(** ** More on the classification *)

Module ClassifierFacts.
Import PyStr Dom Runtime Classifier.

(** A page that opens with a heading. *)
Definition headed_page : soup :=
  document
    [ el "body"
        [ el "h2" [Text long_heading];
          el "p" [Text verse_line];
          el "p" [Text plain_paragraph];
          el "p" [Text verse_line] ] ].

(** The current section is a key of the dictionary, and every stored text
    has been filed. *)
Definition all_filed (st : walk) : Prop :=
  has_section (current_section st) (sections (out st)) = true /\
  List.length (filed (out st)) = stored (out st).

(** The category lists hold no text twice, every text is in the list of its
    category, and every text has at least 10 characters. *)
Definition well_kept (rt : runtime) (markers : list str) (c : content)
  : Prop :=
  well_sorted rt markers c /\
  (NoDup (verses c) /\ NoDup (meanings c) /\ NoDup (paragraphs c)) /\
  (forall t, In t (verses c) \/ In t (meanings c) \/ In t (paragraphs c) ->
             10 <= len t).

Lemma with_full_text_layout (c : content) :
  full_text (with_full_text c) =
  Some (join [NL; NL]
          (block (lit "VERSES:") (verses (with_full_text c)) ++
           block (NL :: lit "MEANINGS:") (meanings (with_full_text c)) ++
           sections_block (sections (with_full_text c)))).
Proof.
  unfold with_full_text, render_text. cbn [full_text verses meanings sections].
  rewrite full_text_parts_blocks. reflexivity.
Qed.

(** X11: [full_text] is missing from the result of
    [extract_article_content] only when the specialised extractor caught an
    error: on a page without the template signature, and on any page when the
    DOM raises nothing, it is there and has the layout of the three blocks,
    under either ruleset. *)
Theorem full_text_present_without_error (rt : runtime) (doc : soup) :
  dom_fault rt = None \/ generic_page rt doc ->
  let c := extract_article_content rt doc in
  full_text c =
    Some (join [NL; NL]
            (block (lit "VERSES:") (verses c) ++
             block (NL :: lit "MEANINGS:") (meanings c) ++
             sections_block (sections c))).
Proof.
  intros H. unfold extract_article_content, generic_page in *.
  destruct (contains (lit "shiv-tandav-stotram") (soup_str rt doc)).
  - destruct H as [Hf|H]; [|discriminate].
    unfold _extract_shiva_tandav_content. rewrite Hf, guarded_no_fault.
    destruct (is_empty_list
                (verses (out (fold_left
                                (classify_step rt devanagari_chars_shiva)
                                (find_all shiva_tags (shiva_article rt doc))
                                (start (lit "Shiva Tandav Stotram"))))));
      [rewrite guarded_no_fault|]; apply with_full_text_layout.
  - apply with_full_text_layout.
Qed.

Lemma full_text_present_without_error_witness :
  full_text (extract_article_content reference template_page) =
  Some (join [NL; NL] [lit "VERSES:"; verse_line]).
Proof.
  rewrite (@full_text_present_without_error reference template_page
             (or_introl eq_refl)).
  vm_compute. reflexivity.
Defined.

Lemma has_section_new (k : str) (d : list (str * list str)) :
  has_section k (new_section k d) = true.
Proof.
  unfold has_section, new_section. rewrite existsb_app. simpl.
  rewrite str_eqb_refl. apply orb_true_r.
Qed.

Lemma file_under_open (k v : str) (d : list (str * list str)) :
  has_section k d = true ->
  has_section k (file_under k v d) = true /\
  List.length (List.concat (map snd (file_under k v d))) =
  S (List.length (List.concat (map snd d))).
Proof.
  intros H. unfold file_under. rewrite H. split.
  - rewrite has_section_keys, append_to_keys, <- has_section_keys. exact H.
  - apply (Permutation.Permutation_length (append_to_perm k v d H)).
Qed.

Lemma step_all_filed (rt : runtime) (markers : list str) (st : walk)
  (e : node) :
  all_filed st -> all_filed (classify_step rt markers st e).
Proof.
  intros [Hs Hf]. rewrite step_spec.
  destruct (len (cleaned e) <? 10); [split; assumption|].
  destruct (name_in headings e).
  - unfold all_filed, open_section, filed, stored in *.
    cbn [out current_section sections verses meanings paragraphs].
    destruct (has_section (cleaned e) (sections (out st))) eqn:E.
    + split; assumption.
    + split; [apply has_section_new|]. rewrite new_section_filed. exact Hf.
  - unfold all_filed, filed, stored in *.
    destruct (category_of rt markers (cleaned e)) as [[| |]|];
      [unfold store_verse | unfold store_meaning | unfold store_paragraph
      | split; assumption];
      match goal with
      | |- context [mem ?t ?l] => destruct (mem t l); [split; assumption|]
      end;
      cbn [out current_section sections verses meanings paragraphs];
      match goal with
      | |- context [file_under ?k ?v ?d] =>
          destruct (file_under_open k v d Hs) as [H1 H2]
      end;
      (split; [exact H1|]); rewrite H2, length_app; simpl; lia.
Qed.

Lemma walk_all_filed (rt : runtime) (markers : list str)
  (elems : list node) :
  forall st, all_filed st -> all_filed (classify_all rt markers elems st).
Proof.
  unfold classify_all. induction elems as [|e elems IH]; intros st H;
    [assumption|].
  simpl. apply IH, step_all_filed, H.
Qed.

(** X12: on a page whose first text element is a heading of at least 10
    characters, every text that enters a category list is filed under a
    section: the sections hold exactly as many segments as the three lists
    hold texts. *)
Theorem headed_page_files_every_text (rt : runtime) (doc : soup)
  (h : node) (rest : list node) :
  generic_elements doc = h :: rest ->
  section_heading h = true ->
  List.length (filed (extract_generic rt doc)) =
  stored (extract_generic rt doc).
Proof.
  intros He Hh.
  assert (H : all_filed (classify_all rt devanagari_chars
                           (generic_elements doc) (start (lit "General")))).
  { rewrite He. unfold classify_all. cbn [fold_left].
    apply walk_all_filed. rewrite step_spec.
    unfold section_heading in Hh. apply andb_true_iff in Hh.
    destruct Hh as [Hn Hl]. rewrite Nat.leb_antisym in Hl.
    apply negb_true_iff in Hl. rewrite Hl, Hn.
    split; [apply has_section_new | reflexivity]. }
  exact (proj2 H).
Qed.

Lemma headed_page_files_every_text_witness :
  List.length (filed (extract_generic reference headed_page)) = 2.
Proof.
  rewrite (@headed_page_files_every_text reference headed_page
             (el "h2" [Text long_heading])
             [ el "p" [Text verse_line]; el "p" [Text plain_paragraph];
               el "p" [Text verse_line] ]).
  - vm_compute. reflexivity.
  - vm_compute. reflexivity.
  - vm_compute. reflexivity.
Defined.

(** *** The specialised extractor keeps its lists sorted *)

Lemma NoDup_add_last (x : str) (l : list str) :
  NoDup l -> ~ In x l -> NoDup (l ++ [x]).
Proof.
  induction 1 as [|y l Hy Hl IH]; simpl; intros Hx.
  - constructor; [intros []|constructor].
  - constructor.
    + rewrite in_app_iff. simpl. intros [Hi|[He|[]]]; [contradiction|].
      subst. apply Hx. left. reflexivity.
    + apply IH. intros Hi. apply Hx. right. exact Hi.
Qed.

Lemma category_of_verse (rt : runtime) (markers : list str) (t : str) :
  category_of rt markers t = Some Verse ->
  any_in markers t = true \/ 50 < len t.
Proof.
  unfold category_of.
  destruct (any_in markers t); [left; reflexivity|].
  destruct (50 <? len t) eqn:E; cbn [orb].
  - intros _. right. apply Nat.ltb_lt. exact E.
  - destruct (any_in meaning_words (lower rt t)); [discriminate|].
    destruct (30 <? len t); discriminate.
Qed.

Lemma category_of_meaning (rt : runtime) (markers : list str) (t : str) :
  category_of rt markers t = Some Meaning ->
  any_in markers t = false /\ len t <= 50 /\
  any_in meaning_words (lower rt t) = true.
Proof.
  unfold category_of.
  destruct (any_in markers t); [discriminate|].
  destruct (50 <? len t) eqn:E; cbn [orb]; [discriminate|].
  apply Nat.ltb_ge in E.
  destruct (any_in meaning_words (lower rt t)); [auto|].
  destruct (30 <? len t); discriminate.
Qed.

Lemma category_of_paragraph (rt : runtime) (markers : list str) (t : str) :
  category_of rt markers t = Some Paragraph ->
  any_in markers t = false /\ 30 < len t <= 50 /\
  any_in meaning_words (lower rt t) = false.
Proof.
  unfold category_of.
  destruct (any_in markers t); [discriminate|].
  destruct (50 <? len t) eqn:E; cbn [orb]; [discriminate|].
  apply Nat.ltb_ge in E.
  destruct (any_in meaning_words (lower rt t)); [discriminate|].
  destruct (30 <? len t) eqn:E'; [|discriminate].
  apply Nat.ltb_lt in E'. auto.
Qed.

Lemma store_verse_kept (rt : runtime) (markers : list str) (text : str)
  (st : walk) :
  category_of rt markers text = Some Verse -> 10 <= len text ->
  well_kept rt markers (out st) ->
  well_kept rt markers (out (store_verse text st)).
Proof.
  intros Hc Hl H. unfold store_verse.
  destruct (mem text (verses (out st))) eqn:E; [assumption|].
  apply mem_false_In in E.
  destruct H as [[Hv [Hm Hp]] [[Nv [Nm Np]] Hlen]].
  unfold well_kept, well_sorted.
  cbn [out verses meanings paragraphs].
  split; [split; [|split; assumption]|split].
  - intros t Ht. apply in_app_or in Ht.
    destruct Ht as [Ht|[<-|[]]]; [apply Hv|]; assumption.
  - split; [apply NoDup_add_last|split]; assumption.
  - intros t [Ht|Ht]; [|apply Hlen; right; exact Ht].
    apply in_app_or in Ht.
    destruct Ht as [Ht|[<-|[]]]; [apply Hlen; left|]; assumption.
Qed.

Lemma store_meaning_kept (rt : runtime) (markers : list str) (text : str)
  (st : walk) :
  category_of rt markers text = Some Meaning -> 10 <= len text ->
  well_kept rt markers (out st) ->
  well_kept rt markers (out (store_meaning text st)).
Proof.
  intros Hc Hl H. unfold store_meaning.
  destruct (mem text (meanings (out st))) eqn:E; [assumption|].
  apply mem_false_In in E.
  destruct H as [[Hv [Hm Hp]] [[Nv [Nm Np]] Hlen]].
  unfold well_kept, well_sorted.
  cbn [out verses meanings paragraphs].
  split; [split; [assumption|split; [|assumption]]|split].
  - intros t Ht. apply in_app_or in Ht.
    destruct Ht as [Ht|[<-|[]]]; [apply Hm|]; assumption.
  - split; [|split; [apply NoDup_add_last|]]; assumption.
  - intros t [Ht|[Ht|Ht]];
      [apply Hlen; left; exact Ht | | apply Hlen; right; right; exact Ht].
    apply in_app_or in Ht.
    destruct Ht as [Ht|[<-|[]]]; [apply Hlen; right; left|]; assumption.
Qed.

Lemma store_paragraph_kept (rt : runtime) (markers : list str) (text : str)
  (st : walk) :
  category_of rt markers text = Some Paragraph -> 10 <= len text ->
  well_kept rt markers (out st) ->
  well_kept rt markers (out (store_paragraph text st)).
Proof.
  intros Hc Hl H. unfold store_paragraph.
  destruct (mem text (paragraphs (out st))) eqn:E; [assumption|].
  apply mem_false_In in E.
  destruct H as [[Hv [Hm Hp]] [[Nv [Nm Np]] Hlen]].
  unfold well_kept, well_sorted.
  cbn [out verses meanings paragraphs].
  split; [split; [assumption|split; [assumption|]]|split].
  - intros t Ht. apply in_app_or in Ht.
    destruct Ht as [Ht|[<-|[]]]; [apply Hp|]; assumption.
  - split; [|split; [|apply NoDup_add_last]]; assumption.
  - intros t [Ht|[Ht|Ht]];
      [apply Hlen; left; exact Ht | apply Hlen; right; left; exact Ht |].
    apply in_app_or in Ht.
    destruct Ht as [Ht|[<-|[]]]; [apply Hlen; right; right|]; assumption.
Qed.

Lemma step_kept (rt : runtime) (markers : list str) (st : walk) (e : node) :
  well_kept rt markers (out st) ->
  well_kept rt markers (out (classify_step rt markers st e)).
Proof.
  intros H. rewrite step_spec.
  destruct (len (cleaned e) <? 10) eqn:El; [assumption|].
  apply Nat.ltb_ge in El.
  destruct (name_in headings e); [exact H|].
  destruct (category_of rt markers (cleaned e)) as [[| |]|] eqn:Ec;
    [apply store_verse_kept | apply store_meaning_kept
    | apply store_paragraph_kept | ]; assumption.
Qed.

Lemma aggressive_step_kept (rt : runtime) (st : walk) (e : node) :
  well_kept rt devanagari_chars_shiva (out st) ->
  well_kept rt devanagari_chars_shiva (out (aggressive_step st e)).
Proof.
  intros H. unfold aggressive_step.
  destruct (is_empty (strip (get_text e))); [assumption|].
  fold (cleaned e).
  destruct (50 <? len (cleaned e)) eqn:El; [|assumption].
  destruct (any_in [[2405%N]; [2404%N]; [2384%N]] (cleaned e));
    [|assumption].
  cbn [andb]. apply Nat.ltb_lt in El. apply store_verse_kept.
  - unfold category_of. apply Nat.ltb_lt in El. rewrite El, orb_true_r.
    reflexivity.
  - lia.
  - assumption.
Qed.

Lemma guarded_keeps (P : content -> Prop) (step : walk -> node -> walk) :
  (forall st e, P (out st) -> P (out (step st e))) ->
  forall elems fault st,
    P (out st) ->
    match guarded step fault elems st with
    | Done st' _ | Failed st' => P (out st')
    end.
Proof.
  intros Hstep. induction elems as [|e elems IH]; intros fault st H; simpl;
    [assumption|].
  destruct fault as [[|k]|]; [assumption | apply IH, Hstep, H..].
Qed.

Lemma empty_kept (rt : runtime) (markers : list str) :
  well_kept rt markers empty_content.
Proof.
  split; [|split].
  - split; [|split]; intros t [].
  - split; [|split]; constructor.
  - intros t [[]|[[]|[]]].
Qed.

Lemma shiva_kept (rt : runtime) (doc : soup) :
  well_kept rt devanagari_chars_shiva (_extract_shiva_tandav_content rt doc).
Proof.
  unfold _extract_shiva_tandav_content.
  pose proof (@guarded_keeps (well_kept rt devanagari_chars_shiva) _
                (step_kept (rt := rt) (markers := devanagari_chars_shiva))
                (find_all shiva_tags (shiva_article rt doc)) (dom_fault rt)
                (start (lit "Shiva Tandav Stotram"))
                (empty_kept rt devanagari_chars_shiva)) as H1.
  destruct (guarded (classify_step rt devanagari_chars_shiva) (dom_fault rt)
              (find_all shiva_tags (shiva_article rt doc))
              (start (lit "Shiva Tandav Stotram"))) as [st fl|st];
    [|assumption].
  destruct (is_empty_list (verses (out st))); [|exact H1].
  pose proof (@guarded_keeps (well_kept rt devanagari_chars_shiva) _
                (aggressive_step_kept (rt := rt))
                (find_all_tags (shiva_article rt doc)) fl st H1) as H2.
  destruct (guarded aggressive_step fl
              (find_all_tags (shiva_article rt doc)) st); exact H2.
Qed.

(** X13: whatever the page and wherever an error stops the walk, the
    specialised extractor returns lists without repeated texts in which every
    text obeys the rule of its list: a verse has a marker of the specialised
    ruleset or more than 50 characters; a meaning has no marker, at most 50
    characters and a meaning word in its lower-cased text; a paragraph has no
    marker, no meaning word and 31 to 50 characters; and every text has at
    least 10 characters, so that no text is in two lists. *)
Theorem template_lists_are_sorted (rt : runtime) (doc : soup) :
  let c := _extract_shiva_tandav_content rt doc in
  (NoDup (verses c) /\ NoDup (meanings c) /\ NoDup (paragraphs c)) /\
  (forall t, In t (verses c) ->
     10 <= len t /\
     (any_in devanagari_chars_shiva t = true \/ 50 < len t)) /\
  (forall t, In t (meanings c) ->
     10 <= len t <= 50 /\ any_in devanagari_chars_shiva t = false /\
     any_in meaning_words (lower rt t) = true) /\
  (forall t, In t (paragraphs c) ->
     30 < len t <= 50 /\ any_in devanagari_chars_shiva t = false /\
     any_in meaning_words (lower rt t) = false) /\
  (forall t, In t (verses c) -> ~ In t (meanings c) /\ ~ In t (paragraphs c)) /\
  (forall t, In t (meanings c) -> ~ In t (paragraphs c)).
Proof.
  intros c. destruct (shiva_kept rt doc) as [[Hv [Hm Hp]] [Hn Hl]].
  fold c in Hv, Hm, Hp, Hn, Hl.
  split; [exact Hn|].
  split; [intros t Ht; split;
          [apply Hl; left; exact Ht | apply (category_of_verse _ _ _ (Hv t Ht))]|].
  split.
  { intros t Ht. destruct (category_of_meaning _ _ _ (Hm t Ht)) as [A [B C]].
    split; [split; [apply Hl; right; left; exact Ht | exact B]|].
    split; assumption. }
  split.
  { intros t Ht. destruct (category_of_paragraph _ _ _ (Hp t Ht)) as [A [B C]].
    split; [exact B|]. split; assumption. }
  split.
  - intros t Ht. pose proof (Hv t Ht) as E. split; intros Hi.
    + rewrite (Hm t Hi) in E. discriminate.
    + rewrite (Hp t Hi) in E. discriminate.
  - intros t Ht Hi. pose proof (Hm t Ht) as E.
    rewrite (Hp t Hi) in E. discriminate.
Qed.

Lemma template_lists_are_sorted_witness :
  10 <= len verse_line /\
  (any_in devanagari_chars_shiva verse_line = true \/ 50 < len verse_line).
Proof.
  destruct (template_lists_are_sorted reference template_page)
    as [_ [H _]].
  apply H. vm_compute. left. reflexivity.
Defined.

End ClassifierFacts.

(** ** The first version of the scraper *)

(** [src/scraper.py]: one GET with an optional rendering of the response,
    and the basic ruleset of [extract_article_content], which the later
    version still carries as a definition that its second one replaces. *)

Module Legacy.
Import PyStr Dom Runtime Classifier CleanTextFacts ClassifierFacts.

(** *** The basic ruleset *)

Definition selectors : list selector :=
  [ SelTag (lit "article"); SelTag (lit "main");
    SelClass (lit "div") (lit "entry-content");
    SelClass (lit "div") (lit "article-content");
    SelClass (lit "div") (lit "post-content");
    SelClass (lit "div") (lit "content");
    SelClass (lit "div") (lit "main-content");
    SelId (lit "div") (lit "content") ].

Definition tags : list str :=
  [ lit "p"; lit "div"; lit "span"; lit "h1"; lit "h2"; lit "h3"; lit "h4";
    lit "h5"; lit "h6" ].

Definition main_content (doc : soup) : option node :=
  match first_selected selectors doc with
  | Some n => Some n
  | None => find (lit "body") doc
  end.

Definition elements (doc : soup) : list node :=
  match main_content doc with
  | Some mc => find_all tags mc
  | None => []
  end.

(** The verse and the meaning branch file the text itself under the current
    section; the paragraph branch is the one of the extended ruleset. *)
Definition file_verse (text : str) (st : walk) : walk :=
  let c := out st in
  if mem text (verses c) then st
  else
    {| out := {| verses := verses c ++ [text];
                 meanings := meanings c;
                 paragraphs := paragraphs c;
                 sections := file_under (current_section st) text
                               (sections c);
                 full_text := full_text c |};
       current_section := current_section st |}.

Definition file_meaning (text : str) (st : walk) : walk :=
  let c := out st in
  if mem text (meanings c) then st
  else
    {| out := {| verses := verses c;
                 meanings := meanings c ++ [text];
                 paragraphs := paragraphs c;
                 sections := file_under (current_section st) text
                               (sections c);
                 full_text := full_text c |};
       current_section := current_section st |}.

Section Extractor.

Variable rt : runtime.

(** The body of the loop: no length threshold, and the heading test comes
    right after the test for a blank element. *)
Definition basic_step (st : walk) (elem : node) : walk :=
  if is_empty (strip (get_text elem)) then st
  else
    let text := clean_text (Some (get_text elem)) in
    if name_in headings elem then open_section text st
    else if any_in devanagari_chars text || (50 <? len text)
         then file_verse text st
    else if any_in meaning_words (lower rt text) then file_meaning text st
    else if 30 <? len text then store_paragraph text st
    else st.

Definition extract_article_content (doc : soup) : content :=
  with_full_text
    (out (fold_left basic_step (elements doc) (start (lit "General")))).

End Extractor.

(** A non-heading element, and a heading, with a text that is not blank. *)
Definition basic_candidate (e : node) : bool :=
  negb (name_in headings e) && negb (is_empty (cleaned e)).

Definition basic_heading (e : node) : bool :=
  name_in headings e && negb (is_empty (cleaned e)).

Definition basic_texts (rt : runtime) (cat : category)
  (elems : list node) : list str :=
  filter (fun t => category_eqb (category_of rt devanagari_chars t) cat)
         (map cleaned (filter basic_candidate elems)).

Definition basic_heading_texts (elems : list node) : list str :=
  map cleaned (filter basic_heading elems).

(** The length threshold of the extended ruleset. *)
Definition long (t : str) : bool := 10 <=? len t.

(** A page with a short heading. *)
Definition short_headed_page : soup :=
  document
    [ el "body"
        [ el "h2" [Text (lit "Intro")];
          el "p" [Text verse_line];
          el "p" [Text (lit "its meaning")] ] ].

(** *** The first [get_page] *)

(** What a GET answers: [response.text], the markup [response.html.html]
    as received, and the markup after [response.html.render], [None] when
    rendering raises. *)
Record reply : Type := {
  text : str;
  html : str;
  rendered : option str
}.

(** The session: the answer to the GET numbered [i], [None] when it
    raises. *)
Record session : Type := { get : nat -> option reply }.

(** The GETs and the renderings made so far. *)
Record tally : Type := { gets : nat; renders : nat }.

Section OldFetch.

Variable rt : runtime.
Variable w : session.

(** The markup that [BeautifulSoup] is handed, [response.html.html]: the
    rendered one when rendering was asked for and succeeded. *)
Definition markup_of (use_js : bool) (r : reply) : str :=
  if use_js
  then match rendered r with Some h => h | None => html r end
  else html r.

(** The body of [get_page]; [again] is the call [self.get_page(url,
    use_js=False)], made from the length check and from the handler of the
    [try] block, which a GET that raises and a parser that raises both
    reach. *)
Definition get_page_body (again : tally -> option soup * tally)
  (use_js : bool) (s : tally) : option soup * tally :=
  let s1 := {| gets := S (gets s); renders := renders s |} in
  match get w (gets s) with
  | None => if use_js then again s1 else (None, s1)
  | Some r =>
      let s2 :=
        if use_js then {| gets := gets s1; renders := S (renders s1) |}
        else s1 in
      match html_parser rt (markup_of use_js r) with
      | None => if use_js then again s2 else (None, s2)
      | Some doc =>
          if len (text r) <? 1000
          then if use_js then again s2 else (None, s2)
          else (Some doc, s2)
      end
  end.

(** [get_page]: the call with [use_js=False] calls nothing again, so two
    levels are the whole recursion. *)
Definition get_page (use_js : bool) (s : tally) : option soup * tally :=
  get_page_body (get_page_body (fun s' => (None, s')) false) use_js s.

(** The page that one response gives, if any. *)
Definition served (use_js : bool) (r : reply) : option soup :=
  match html_parser rt (markup_of use_js r) with
  | None => None
  | Some doc => if len (text r) <? 1000 then None else Some doc
  end.

End OldFetch.

(** A server that answers a short page and then a long one whose rendering
    fails. *)
Definition warming_up : session :=
  {| get := fun i =>
       match i with
       | 0 => Some {| text := lit "wait"; html := lit "wait";
                      rendered := Some (lit "wait") |}
       | _ => Some {| text := repeat 120%N 1000; html := repeat 120%N 1000;
                      rendered := None |}
       end |}.

(** A server whose first answer the parser rejects once it is rendered. *)
Definition garbled_first : session :=
  {| get := fun i =>
       match i with
       | 0 => Some {| text := repeat 120%N 1000; html := repeat 120%N 1000;
                      rendered := Some Fetch.garbled_page |}
       | _ => Some {| text := repeat 120%N 1000; html := repeat 120%N 1000;
                      rendered := None |}
       end |}.

(** *** The basic walk *)

Lemma basic_step_spec (rt : runtime) (st : walk) (e : node) :
  basic_step rt st e =
  if is_empty (cleaned e) then st
  else if name_in headings e then open_section (cleaned e) st
  else match category_of rt devanagari_chars (cleaned e) with
       | Some Verse => file_verse (cleaned e) st
       | Some Meaning => file_meaning (cleaned e) st
       | Some Paragraph => store_paragraph (cleaned e) st
       | None => st
       end.
Proof.
  unfold basic_step, category_of, cleaned.
  destruct (strip (get_text e)) as [|c0 r0] eqn:Es.
  - rewrite (clean_text_blank _ Es). reflexivity.
  - destruct (clean_text (Some (get_text e))) as [|c1 r1] eqn:Ec.
    + apply clean_text_empty_iff in Ec. congruence.
    + cbn [is_empty].
      destruct (name_in headings e); [reflexivity|].
      destruct (any_in devanagari_chars (c1 :: r1) ||
                (50 <? len (c1 :: r1))); [reflexivity|].
      destruct (any_in meaning_words (lower rt (c1 :: r1))); [reflexivity|].
      destruct (30 <? len (c1 :: r1)); reflexivity.
Qed.

Lemma basic_step_bucket (rt : runtime) (cat : category) (st : walk)
  (e : node) :
  bucket cat (out (basic_step rt st e)) =
  if basic_candidate e &&
     category_eqb (category_of rt devanagari_chars (cleaned e)) cat
  then add_new (bucket cat (out st)) (cleaned e)
  else bucket cat (out st).
Proof.
  rewrite basic_step_spec. unfold basic_candidate.
  destruct (is_empty (cleaned e)); cbn [negb andb];
    [rewrite andb_false_r; reflexivity|].
  destruct (name_in headings e); cbn [negb andb];
    [destruct cat; reflexivity|].
  unfold add_new, file_verse, file_meaning, store_paragraph.
  destruct (category_of rt devanagari_chars (cleaned e)) as [[| |]|];
    destruct cat; cbn [category_eqb bucket]; try reflexivity;
    match goal with
    | |- context [mem ?t ?l] => destruct (mem t l); reflexivity
    end.
Qed.

Lemma basic_walk_bucket (rt : runtime) (cat : category)
  (elems : list node) :
  forall st,
    bucket cat (out (fold_left (basic_step rt) elems st)) =
    fold_left add_new (basic_texts rt cat elems) (bucket cat (out st)).
Proof.
  unfold basic_texts.
  induction elems as [|e elems IH]; intros st; [reflexivity|].
  cbn [fold_left filter]. rewrite IH, basic_step_bucket.
  destruct (basic_candidate e); cbn [map filter andb]; [|reflexivity].
  destruct (category_eqb (category_of rt devanagari_chars (cleaned e)) cat);
    reflexivity.
Qed.

Lemma basic_step_keys (rt : runtime) (st : walk) (e : node) :
  keys (out (basic_step rt st e)) =
  if basic_heading e then add_new (keys (out st)) (cleaned e)
  else keys (out st).
Proof.
  rewrite basic_step_spec. unfold basic_heading, keys.
  destruct (is_empty (cleaned e)); cbn [negb];
    [rewrite andb_false_r; reflexivity|].
  destruct (name_in headings e); cbn [andb].
  - unfold add_new, open_section. cbn [out sections].
    rewrite has_section_keys.
    destruct (mem (cleaned e) (map fst (sections (out st)))); [reflexivity|].
    unfold new_section. rewrite map_app. reflexivity.
  - unfold file_verse, file_meaning, store_paragraph.
    destruct (category_of rt devanagari_chars (cleaned e)) as [[| |]|];
      try reflexivity;
      match goal with
      | |- context [mem ?t ?l] =>
          destruct (mem t l); cbn [out sections];
          [|rewrite file_under_keys]; reflexivity
      end.
Qed.

Lemma basic_walk_keys (rt : runtime) (elems : list node) :
  forall st,
    keys (out (fold_left (basic_step rt) elems st)) =
    fold_left add_new (basic_heading_texts elems) (keys (out st)).
Proof.
  unfold basic_heading_texts.
  induction elems as [|e elems IH]; intros st; [reflexivity|].
  cbn [fold_left filter]. rewrite IH, basic_step_keys.
  destruct (basic_heading e); reflexivity.
Qed.

(** *** The two rulesets side by side *)

Lemma filter_comm {A : Type} (f g : A -> bool) (l : list A) :
  filter f (filter g l) = filter g (filter f l).
Proof.
  rewrite !filter_filter_and. apply filter_ext. intros x. apply andb_comm.
Qed.

Lemma first_occurrences_filter (p : str -> bool) (l : list str) :
  first_occurrences (filter p l) = filter p (first_occurrences l).
Proof.
  induction l as [|x l IH]; [reflexivity|].
  cbn [filter first_occurrences]. destruct (p x) eqn:E.
  - cbn [first_occurrences]. rewrite IH. f_equal. apply filter_comm.
  - rewrite IH, filter_filter_and. apply filter_ext. intros y.
    destruct (str_eqb y x) eqn:Ey; [|reflexivity].
    apply str_eqb_eq in Ey. subst. rewrite E. reflexivity.
Qed.

Lemma blank_is_short (e : node) :
  is_empty (cleaned e) = true -> long (cleaned e) = false.
Proof. destruct (cleaned e); [reflexivity | discriminate]. Qed.

Lemma candidate_long (e : node) :
  candidate e = basic_candidate e && long (cleaned e).
Proof.
  unfold candidate, basic_candidate. fold (long (cleaned e)).
  destruct (name_in headings e); [reflexivity|]. cbn [negb andb].
  destruct (is_empty (cleaned e)) eqn:E; [|reflexivity].
  apply blank_is_short, E.
Qed.

Lemma section_heading_long (e : node) :
  section_heading e = basic_heading e && long (cleaned e).
Proof.
  unfold section_heading, basic_heading. fold (long (cleaned e)).
  destruct (name_in headings e); [|reflexivity]. cbn [andb].
  destruct (is_empty (cleaned e)) eqn:E; [|reflexivity].
  apply blank_is_short, E.
Qed.

Lemma map_filter_long (f : node -> bool) (elems : list node) :
  map cleaned (filter (fun e => f e && long (cleaned e)) elems) =
  filter long (map cleaned (filter f elems)).
Proof.
  induction elems as [|e elems IH]; [reflexivity|].
  cbn [filter]. destruct (f e); cbn [andb map filter]; [|exact IH].
  destruct (long (cleaned e)); cbn [map]; rewrite IH; reflexivity.
Qed.

Lemma texts_threshold (rt : runtime) (cat : category) (elems : list node) :
  texts_of rt devanagari_chars cat elems =
  filter long (basic_texts rt cat elems).
Proof.
  unfold texts_of, candidate_texts, basic_texts.
  rewrite (filter_ext _ _ candidate_long), map_filter_long.
  apply filter_comm.
Qed.

Lemma heading_texts_threshold (elems : list node) :
  heading_texts elems = filter long (basic_heading_texts elems).
Proof.
  unfold heading_texts, basic_heading_texts.
  rewrite (filter_ext _ _ section_heading_long). apply map_filter_long.
Qed.

Lemma bucket_start (cat : category) (s : str) :
  bucket cat (out (start s)) = [].
Proof. destruct cat; reflexivity. Qed.

Lemma filter_all {A : Type} (p : A -> bool) (l : list A) :
  (forall x, In x l -> p x = true) -> filter p l = l.
Proof.
  induction l as [|x l IH]; intros H; [reflexivity|]. cbn [filter].
  rewrite (H x (or_introl eq_refl)), IH; [reflexivity|].
  intros y Hy. apply H. right. exact Hy.
Qed.

Lemma paragraph_is_long (rt : runtime) (t : str) :
  category_eqb (category_of rt devanagari_chars t) Paragraph = true ->
  long t = true.
Proof.
  intros H. apply category_eqb_eq in H.
  apply category_of_paragraph in H. destruct H as [_ [[H _] _]].
  apply Nat.leb_le. lia.
Qed.

(** X14: on the same elements the two rulesets differ in their category
    lists by the length threshold alone: the verses and the meanings of the
    extended ruleset are those of the basic ruleset that have at least 10
    characters, in the same order, the paragraphs are the same, and the
    sections are those of the basic ruleset whose heading has at least 10
    characters. *)
Theorem threshold_is_the_difference (rt : runtime) (elems : list node)
  (section : str) :
  let new := out (classify_all rt devanagari_chars elems (start section)) in
  let old := out (fold_left (basic_step rt) elems (start section)) in
  verses new = filter long (verses old) /\
  meanings new = filter long (meanings old) /\
  paragraphs new = paragraphs old /\
  map fst (sections new) = filter long (map fst (sections old)).
Proof.
  intros new old.
  assert (H : forall cat, bucket cat new = filter long (bucket cat old)).
  { intros cat. unfold new, old.
    rewrite walk_bucket, basic_walk_bucket, !bucket_start,
      !fold_add_new_nil, texts_threshold.
    apply first_occurrences_filter. }
  split; [exact (H Verse)|]. split; [exact (H Meaning)|]. split.
  - change (paragraphs new) with (bucket Paragraph new). rewrite H.
    apply filter_all. intros t Ht.
    change (In t (bucket Paragraph
                    (out (fold_left (basic_step rt) elems (start section)))))
      in Ht.
    rewrite basic_walk_bucket, bucket_start, fold_add_new_nil in Ht.
    apply (proj1 (In_first_occurrences _ _)) in Ht.
    unfold basic_texts in Ht.
    apply filter_In in Ht. apply (paragraph_is_long rt), (proj2 Ht).
  - change (map fst (sections new)) with (keys new).
    change (map fst (sections old)) with (keys old). unfold new, old.
    rewrite walk_keys, basic_walk_keys.
    change (keys (out (start section))) with (@nil str).
    rewrite !fold_add_new_nil, heading_texts_threshold.
    apply first_occurrences_filter.
Qed.

(** *** What the basic ruleset files *)

(** Every filed segment is a stored text, as it is. *)
Definition verbatim (c : content) : Prop :=
  forall seg,
    In seg (filed c) ->
    In seg (verses c) \/ In seg (meanings c) \/ In seg (paragraphs c).

Lemma file_verse_verbatim (text : str) (st : walk) :
  verbatim (out st) -> verbatim (out (file_verse text st)).
Proof.
  intros H. unfold file_verse.
  destruct (mem text (verses (out st))); [assumption|].
  intros seg Hin. unfold filed in Hin. cbn [out sections] in Hin.
  apply file_under_filed in Hin. cbn [out verses meanings paragraphs].
  rewrite in_app_iff. destruct Hin as [Hin| ->].
  - destruct (H seg Hin) as [A|[A|A]]; auto.
  - left. right. left. reflexivity.
Qed.

Lemma file_meaning_verbatim (text : str) (st : walk) :
  verbatim (out st) -> verbatim (out (file_meaning text st)).
Proof.
  intros H. unfold file_meaning.
  destruct (mem text (meanings (out st))); [assumption|].
  intros seg Hin. unfold filed in Hin. cbn [out sections] in Hin.
  apply file_under_filed in Hin. cbn [out verses meanings paragraphs].
  rewrite in_app_iff. destruct Hin as [Hin| ->].
  - destruct (H seg Hin) as [A|[A|A]]; auto.
  - right. left. right. left. reflexivity.
Qed.

Lemma store_paragraph_verbatim (text : str) (st : walk) :
  verbatim (out st) -> verbatim (out (store_paragraph text st)).
Proof.
  intros H. unfold store_paragraph.
  destruct (mem text (paragraphs (out st))); [assumption|].
  intros seg Hin. unfold filed in Hin. cbn [out sections] in Hin.
  apply file_under_filed in Hin. cbn [out verses meanings paragraphs].
  rewrite in_app_iff. destruct Hin as [Hin| ->].
  - destruct (H seg Hin) as [A|[A|A]]; auto.
  - right. right. right. left. reflexivity.
Qed.

Lemma basic_step_verbatim (rt : runtime) (st : walk) (e : node) :
  verbatim (out st) -> verbatim (out (basic_step rt st e)).
Proof.
  intros H. rewrite basic_step_spec.
  destruct (is_empty (cleaned e)); [assumption|].
  destruct (name_in headings e).
  - intros seg. unfold open_section, filed. cbn [out sections verses
      meanings paragraphs].
    destruct (has_section (cleaned e) (sections (out st)));
      [|rewrite new_section_filed]; apply H.
  - destruct (category_of rt devanagari_chars (cleaned e)) as [[| |]|];
      auto using file_verse_verbatim, file_meaning_verbatim,
        store_paragraph_verbatim.
Qed.

Lemma basic_walk_verbatim (rt : runtime) (elems : list node) :
  forall st,
    verbatim (out st) -> verbatim (out (fold_left (basic_step rt) elems st)).
Proof.
  induction elems as [|e elems IH]; intros st H; [assumption|].
  cbn [fold_left]. apply IH, basic_step_verbatim, H.
Qed.

(** X15: the basic ruleset, on every page: each category list is the first
    occurrences, in document order, of the texts of its category among the
    non-heading elements that are not blank, whatever their length; the
    sections are the first occurrences of the texts of the headings that are
    not blank; every segment filed under a section is a stored text as it is,
    without a tag; and [full_text] has the layout of the three blocks. *)
Theorem basic_ruleset_lists (rt : runtime) (doc : soup) :
  let c := extract_article_content rt doc in
  (forall cat,
     bucket cat c = first_occurrences (basic_texts rt cat (elements doc))) /\
  map fst (sections c) =
    first_occurrences (basic_heading_texts (elements doc)) /\
  (forall seg,
     In seg (filed c) ->
     In seg (verses c) \/ In seg (meanings c) \/ In seg (paragraphs c)) /\
  full_text c =
    Some (join [NL; NL]
            (block (lit "VERSES:") (verses c) ++
             block (NL :: lit "MEANINGS:") (meanings c) ++
             sections_block (sections c))).
Proof.
  intros c. split; [|split; [|split]].
  - intros cat.
    change (bucket cat c)
      with (bucket cat (out (fold_left (basic_step rt) (elements doc)
                               (start (lit "General"))))).
    rewrite basic_walk_bucket, bucket_start. apply fold_add_new_nil.
  - change (map fst (sections c))
      with (keys (out (fold_left (basic_step rt) (elements doc)
                         (start (lit "General"))))).
    rewrite basic_walk_keys. apply fold_add_new_nil.
  - apply (@basic_walk_verbatim rt (elements doc) (start (lit "General"))).
    intros seg [].
  - apply with_full_text_layout.
Qed.

Lemma basic_ruleset_lists_witness :
  In verse_line
    (verses (extract_article_content reference short_headed_page)) \/
  In verse_line
    (meanings (extract_article_content reference short_headed_page)) \/
  In verse_line
    (paragraphs (extract_article_content reference short_headed_page)).
Proof.
  destruct (basic_ruleset_lists reference short_headed_page)
    as [_ [_ [H _]]].
  apply H. vm_compute. left. reflexivity.
Defined.

(** *** The first [get_page] *)

Lemma plain_call (rt : runtime) (w : session)
  (again : tally -> option soup * tally) (s : tally) :
  get_page_body rt w again false s =
  (match get w (gets s) with
   | Some r => served rt false r
   | None => None
   end,
   {| gets := S (gets s); renders := renders s |}).
Proof.
  unfold get_page_body, served. destruct (get w (gets s)) as [r|];
    [|reflexivity].
  destruct (html_parser rt (markup_of false r)); [|reflexivity].
  destruct (len (text r) <? 1000); reflexivity.
Qed.

Lemma rendering_call (rt : runtime) (w : session) (s : tally) :
  get_page rt w true s =
  match get w (gets s) with
  | Some a =>
      match served rt true a with
      | Some doc => (Some doc,
                     {| gets := S (gets s); renders := S (renders s) |})
      | None =>
          get_page_body rt w (fun s' => (None, s')) false
            {| gets := S (gets s); renders := S (renders s) |}
      end
  | None =>
      get_page_body rt w (fun s' => (None, s')) false
        {| gets := S (gets s); renders := renders s |}
  end.
Proof.
  unfold get_page. unfold get_page_body at 1. unfold served.
  destruct (get w (gets s)) as [a|]; [|reflexivity].
  destruct (html_parser rt (markup_of true a)); [|reflexivity].
  destruct (len (text a) <? 1000); reflexivity.
Qed.

(** The response behind a returned page: its text passed the length check,
    and the page is the parse of its markup, rendered when rendering was
    asked for and succeeded. *)
Definition from_reply (rt : runtime) (use_js : bool) (r : reply)
  (doc : soup) : Prop :=
  1000 <= len (text r) /\
  (html_parser rt (html r) = Some doc \/
   use_js = true /\
   exists h, rendered r = Some h /\ html_parser rt h = Some doc).

Lemma served_from_reply (rt : runtime) (use_js : bool) (r : reply)
  (doc : soup) :
  served rt use_js r = Some doc -> from_reply rt use_js r doc.
Proof.
  unfold served, from_reply, markup_of.
  destruct use_js.
  - destruct (rendered r) as [h|].
    + destruct (html_parser rt h) as [d|] eqn:Ep; [|discriminate].
      destruct (len (text r) <? 1000) eqn:El; [discriminate|].
      intros H. injection H as <-. split; [apply Nat.ltb_ge, El|].
      right. split; [reflexivity|]. exists h. split; [reflexivity | exact Ep].
    + destruct (html_parser rt (html r)) as [d|] eqn:Ep; [|discriminate].
      destruct (len (text r) <? 1000) eqn:El; [discriminate|].
      intros H. injection H as <-. split; [apply Nat.ltb_ge, El|].
      left. reflexivity.
  - destruct (html_parser rt (html r)) as [d|] eqn:Ep; [|discriminate].
    destruct (len (text r) <? 1000) eqn:El; [discriminate|].
    intros H. injection H as <-. split; [apply Nat.ltb_ge, El|].
    left. reflexivity.
Qed.

Lemma served_none (rt : runtime) (use_js : bool) (r : reply) :
  served rt use_js r = None ->
  len (text r) < 1000 \/ html_parser rt (markup_of use_js r) = None.
Proof.
  unfold served.
  destruct (html_parser rt (markup_of use_js r)); [|right; reflexivity].
  destruct (len (text r) <? 1000) eqn:El; [|discriminate].
  intros _. left. apply Nat.ltb_lt, El.
Qed.



End Legacy.

(** ** More on the report *)

Module ReportFacts.
Import PyStr Dom Runtime Fetch Classifier Report FetchFacts.

(** A page with a blank title and a description. *)
Definition untitled_page : soup :=
  document
    [ el "head"
        [ el "title" [Text (lit "  ")];
          Elem (lit "meta")
               [(lit "name", lit "description");
                (lit "content", lit " a  short note ")] [] ];
      el "body" [ el "p" [Text verse_line] ] ].

Lemma page_title_clean (doc : soup) :
  clean_text (Some (page_title doc)) = page_title doc.
Proof.
  unfold page_title. destruct (find (lit "title") doc) as [t|];
    [|reflexivity].
  destruct (node_string t) as [[|c s]|]; try reflexivity.
  apply clean_text_idem.
Qed.

Lemma title_or_default_clean (t : str) :
  clean_text (Some t) = t ->
  title_or_default t <> [] /\
  clean_text (Some (title_or_default t)) = title_or_default t.
Proof.
  intros H. destruct t as [|c r].
  - split; [discriminate | vm_compute; reflexivity].
  - split; [discriminate | exact H].
Qed.

Lemma preview_bound (s : str) : len (preview s) <= 1003.
Proof.
  destruct (Nat.le_gt_cases (len s) 1000) as [H|H].
  - rewrite (@preview_short s H). lia.
  - destruct (@preview_long s H) as [_ E]. rewrite E. lia.
Qed.

(** X17: [scrape_example] raises nothing, whatever the adapters, the debug
    copies and the writing of the page source raise, also the errors that
    [get_page] lets through: it returns the empty list, or one report, built
    from a page that passed the checks of [get_page] and whose source was
    written. *)
Theorem scrape_example_contains_errors (rt : runtime) (w : world)
  (cfg : config) (page_url now : str) (s : state) :
  exists l s',
    scrape_example rt w cfg page_url now s = (Ret l, s') /\
    (l = [] \/
     exists doc,
       l = [build_report rt page_url now doc] /\
       passed rt doc /\ save_page_source w (soup_str rt doc) = None).
Proof.
  unfold scrape_example, try_except, bind, write_page_source.
  destruct (get_page rt w cfg 3 s) as [[[doc|]|e] s1] eqn:E.
  - assert (Hp : passed rt doc).
    { apply (@get_page_passed rt w cfg 3 s doc). rewrite E. reflexivity. }
    destruct (save_page_source w (soup_str rt doc)) as [e|] eqn:Es.
    + eexists _, _. split; [reflexivity|]. left. reflexivity.
    + eexists _, _. split; [reflexivity|]. right. exists doc. auto.
  - eexists _, _. split; [reflexivity|]. left. reflexivity.
  - eexists _, _. split; [reflexivity|]. left. reflexivity.
Qed.

(** X18: the fields of a report: the title is never empty and is a fixed
    point of [clean_text] (the default when the page has no title or a blank
    one); the description, when the page has one, is a fixed point of
    [clean_text]; the preview has at most 1003 characters and is empty when
    the specialised extractor gave no [full_text]. *)
Theorem report_fields (rt : runtime) (page_url now : str) (doc : soup) :
  let pd := build_report rt page_url now doc in
  title pd <> [] /\
  clean_text (Some (title pd)) = title pd /\
  (page_title doc = [] -> title pd = lit "No title found") /\
  (forall d, meta_description pd = Some d -> clean_text (Some d) = d) /\
  len (content_preview pd) <= 1003 /\
  (pd_full_text pd = None -> content_preview pd = []).
Proof.
  intros pd. subst pd.
  cbn [build_report title meta_description content_preview pd_full_text].
  destruct (title_or_default_clean (page_title_clean doc)) as [H1 H2].
  split; [exact H1|]. split; [exact H2|].
  split; [intros ->; reflexivity|]. split.
  - unfold page_meta_description. intros d.
    destruct (match find_meta (lit "name") (lit "description") doc with
              | Some m => Some m
              | None => find_meta (lit "property") (lit "og:description") doc
              end) as [m|]; [|discriminate].
    destruct (attr (lit "content") m) as [v|]; [|discriminate].
    intros H. injection H as <-. exact (clean_text_idem (Some v)).
  - split; [apply preview_bound|].
    unfold full_text_or_empty. intros ->. reflexivity.
Qed.

Lemma report_fields_witness :
  title (build_report reference (lit "u") (lit "now") untitled_page) =
    lit "No title found" /\
  clean_text (Some (lit "a short note")) = lit "a short note".
Proof.
  destruct (report_fields reference (lit "u") (lit "now") untitled_page)
    as [_ [_ [H1 [H2 _]]]].
  split.
  - apply H1. vm_compute. reflexivity.
  - apply H2. vm_compute. reflexivity.
Defined.

End ReportFacts.

(** ** The command line *)

Module Cli.
Import PyStr.

(** [target_url.startswith(('http://', 'https://'))] *)
Definition has_scheme (target_url : str) : bool :=
  startswith (lit "http://") target_url ||
  startswith (lit "https://") target_url.

(** The first step of [main], the same in both versions: a URL without
    scheme gets [https://]. *)
Definition ensure_scheme (target_url : str) : str :=
  if negb (has_scheme target_url) then lit "https://" ++ target_url
  else target_url.

Lemma startswith_app (p s : str) : startswith p (p ++ s) = true.
Proof.
  induction p as [|c p IH]; [reflexivity|]. simpl.
  rewrite N.eqb_refl. exact IH.
Qed.

Lemma ensure_scheme_has (u : str) : has_scheme (ensure_scheme u) = true.
Proof.
  unfold ensure_scheme. destruct (has_scheme u) eqn:E; [exact E|].
  cbn [negb]. unfold has_scheme. rewrite startswith_app. apply orb_true_r.
Qed.

(** X19: the URL that [main] hands to the scraper always starts with
    [http://] or [https://]; a URL that does is left as it is, every other
    one, also one with a scheme in capitals, gets [https://] in front; doing
    the step twice changes nothing more. *)
Theorem main_target_url (u : str) :
  has_scheme (ensure_scheme u) = true /\
  ensure_scheme (ensure_scheme u) = ensure_scheme u /\
  (has_scheme u = true -> ensure_scheme u = u) /\
  (has_scheme u = false -> ensure_scheme u = lit "https://" ++ u).
Proof.
  split; [apply ensure_scheme_has|]. split; [|split].
  - unfold ensure_scheme at 1. rewrite ensure_scheme_has. reflexivity.
  - unfold ensure_scheme. intros ->. reflexivity.
  - unfold ensure_scheme. intros ->. reflexivity.
Qed.

Lemma main_target_url_witness :
  ensure_scheme (lit "HTTP://example.com") =
    lit "https://HTTP://example.com" /\
  ensure_scheme (lit "http://example.com") = lit "http://example.com".
Proof.
  destruct (main_target_url (lit "HTTP://example.com")) as [_ [_ [_ H]]].
  destruct (main_target_url (lit "http://example.com")) as [_ [_ [H' _]]].
  split; [apply H | apply H']; vm_compute; reflexivity.
Defined.

End Cli.
